(** * A shallow embedding of the RAG chat back end

    The development follows the TypeScript sources:

    - [utils/errors.ts]          the error classes ([AppError] and its subclasses);
    - [repositories/redis.ts]    the session store ([RedisRepository]);
    - [repositories/qdrant.ts]   the vector store ([QdrantRepository]);
    - [services/embedding.ts]    the embedding client ([EmbeddingService]);
    - [services/llm.ts]          prompt assembly and generation ([LLMService]);
    - [services/rag.ts]          the orchestrator ([RAGService]);
    - [controllers/chat.ts]      the HTTP boundary ([ChatController]).

    Conventions of the embedding.

    - A JavaScript string is the list of its UTF-16 code units, so that
      [slice], [length] and [trim] count what the engine counts.
    - A [Date] is its number of milliseconds since the epoch.
    - A JavaScript number that is only compared or passed on is a rational
      ([Q]); the literals [0.3], [0.6] and [0.7] stand for the doubles the
      engine reads them as.
    - An [async] method is a computation in the monad [M]: it reads and
      updates a [World] (the contents of Redis and of the Qdrant collection,
      the clock, the calls issued so far, the log) and either returns a
      value or rejects with an exception.
    - The collaborators reached over the network (Redis faults, the Jina
      and Gemini replies, the Qdrant search results, the UUID generator)
      are oracles gathered in [Env]; the reply to a call may depend on
      the number of calls issued before it, so that two calls with the same
      argument need not agree.
    - The JSON text stored under a Redis key is represented by the session
      record it encodes: [JSON.stringify] followed by [JSON.parse] and the
      [Date] conversions of [getSession] give the record back.
    - The clock moves through [elapse] only: between two methods, and
      when a method waits on a timer. *)

From Stdlib Require Import ZArith QArith Qminmax Decimal Ascii.
From stdpp Require Import gmap strings list fin_maps.

Local Open Scope Z_scope.

Set Warnings "-abstract-large-number".

(** ** Strings *)

Abbreviation jsstring := (list N).

(** A string literal of the source, all of whose characters are ASCII. *)
Definition lit (s : string) : jsstring :=
  (fun a => Ascii.N_of_ascii a) <$> String.list_ascii_of_string s.

(** [WhiteSpace] and [LineTerminator] code units, the ones
    [String.prototype.trim] removes. *)
Definition isWhiteSpace (c : N) : bool :=
  ((9 <=? c) && (c <=? 13) || (c =? 32) || (c =? 160) || (c =? 5760)
   || (8192 <=? c) && (c <=? 8202) || (c =? 8232) || (c =? 8233)
   || (c =? 8239) || (c =? 8287) || (c =? 12288) || (c =? 65279))%N.

Fixpoint trimStart (s : jsstring) : jsstring :=
  match s with
  | c :: s' => if isWhiteSpace c then trimStart s' else s
  | [] => []
  end.

Definition trimEnd (s : jsstring) : jsstring := reverse (trimStart (reverse s)).

Definition trim (s : jsstring) : jsstring := trimEnd (trimStart s).

(** [Array.prototype.join]. *)
Fixpoint join (sep : jsstring) (parts : list jsstring) : jsstring :=
  match parts with
  | [] => []
  | [p] => p
  | p :: rest => p ++ sep ++ join sep rest
  end.

(** [xs.slice(-n)]: the last [n] elements, all of them when there are fewer. *)
Definition slice_last {A} (n : nat) (xs : list A) : list A :=
  drop (length xs - n)%nat xs.

(** [xs.slice(i, j)] for [0 <= i <= j]. *)
Definition slice {A} (i j : nat) (xs : list A) : list A :=
  take (j - i)%nat (drop i xs).

(** Decimal rendering of a natural number, as a template literal does. *)
Fixpoint digits (u : Decimal.uint) : jsstring :=
  match u with
  | Nil => []
  | D0 u' => 48%N :: digits u'
  | D1 u' => 49%N :: digits u'
  | D2 u' => 50%N :: digits u'
  | D3 u' => 51%N :: digits u'
  | D4 u' => 52%N :: digits u'
  | D5 u' => 53%N :: digits u'
  | D6 u' => 54%N :: digits u'
  | D7 u' => 55%N :: digits u'
  | D8 u' => 56%N :: digits u'
  | D9 u' => 57%N :: digits u'
  end.

Definition showNat (n : nat) : jsstring := digits (Nat.to_uint n).

(** [toUpperCase] on the ASCII letters (the only input it gets here is a
    role name). *)
Definition toUpperCase (s : jsstring) : jsstring :=
  (fun c => if ((97 <=? c) && (c <=? 122))%N then (c - 32)%N else c) <$> s.

(** ** Errors ([utils/errors.ts]) *)

Inductive AppErrorClass :=
  | ValidationError
  | NotFoundError
  | InternalServerError
  | ExternalServiceError
  | RateLimitError.

(** What a [catch] clause can receive. [details] of an [AppError] is the
    caught error, the array of a validation result, the object
    [{statusCode, originalError}], or absent. *)
Inductive Exn :=
  | JsError (message : jsstring)
  | AxiosError (message : jsstring) (status : option Z) (dataMessage : option jsstring)
  | AppError (cls : AppErrorClass) (message : jsstring) (statusCode : Z)
             (code : jsstring) (details : Details)
  | NonError
with Details :=
  | NoDetails
  | Cause (e : Exn)
  | FieldErrors (errors : list jsstring)
  | StatusInfo (statusCode : Z) (originalError : jsstring).

Definition newInternalServerError (message : jsstring) (details : Details) : Exn :=
  AppError InternalServerError message 500 (lit "INTERNAL_SERVER_ERROR") details.

Definition newExternalServiceError (service message : jsstring) (details : Details) : Exn :=
  AppError ExternalServiceError (service ++ lit ": " ++ message) 502
           (lit "EXTERNAL_SERVICE_ERROR") details.

Definition newValidationError (message : jsstring) (details : Details) : Exn :=
  AppError ValidationError message 400 (lit "VALIDATION_ERROR") details.

Definition newNotFoundError (message : jsstring) : Exn :=
  AppError NotFoundError message 404 (lit "NOT_FOUND") NoDetails.

(** [error instanceof Error] and [error.message]. *)
Definition instanceofError (e : Exn) : bool :=
  match e with NonError => false | _ => true end.

Definition errorMessage (e : Exn) : jsstring :=
  match e with
  | JsError m | AxiosError m _ _ | AppError _ m _ _ _ => m
  | NonError => []
  end.

Definition errorClass (e : Exn) : option AppErrorClass :=
  match e with AppError c _ _ _ _ => Some c | _ => None end.

(** ** Data model ([types/index.ts]) *)

Inductive Role := user | assistant.

Definition roleName (r : Role) : jsstring :=
  match r with user => lit "user" | assistant => lit "assistant" end.

Record ChatMessage := {
  msg_id : jsstring;
  role : Role;
  content : jsstring;
  timestamp : Z
}.

Record ChatSession := {
  session_id : jsstring;
  messages : list ChatMessage;
  createdAt : Z;
  updatedAt : Z
}.

Record Metadata := {
  source : jsstring;
  title : option jsstring;
  url : option jsstring;
  meta_timestamp : option jsstring
}.

Record DocumentChunk := {
  chunk_id : jsstring;
  chunk_content : jsstring;
  metadata : Metadata;
  score : option Q
}.

Record VectorSearchResult := {
  result_id : jsstring;
  result_score : Q;
  payload : DocumentChunk
}.

Record ChatResponse := {
  message : jsstring;
  response_session_id : jsstring;
  message_id : jsstring;
  sources : list DocumentChunk
}.

(** ** The world outside the process *)

Inductive Result (A : Type) :=
  | Ok (a : A)
  | Err (e : Exn).
Arguments Ok {A} a.
Arguments Err {A} e.

(** A key of Redis: the stored session and the instant it expires at. *)
Record RedisEntry := {
  entry_value : ChatSession;
  entry_expires : Z
}.

(** A point of the Qdrant collection, as [upsertDocuments] builds it. *)
Record Point := {
  point_id : jsstring;
  vector : list Q;
  point_content : jsstring;
  point_metadata : Metadata
}.

(** A point as the Qdrant client returns it from a search: score and
    payload fields may be missing. *)
Record ScoredPoint := {
  sp_id : jsstring;
  sp_score : option Q;
  sp_content : option jsstring;
  sp_metadata : option Metadata
}.

(** The body of the Jina reply: [{data: [{embedding}, ...]}],
    [{embeddings: [...]}], or neither. *)
Inductive JinaBody :=
  | JinaData (items : list (list Q))
  | JinaEmbeddings (embeddings : list (list Q))
  | JinaOther.

Inductive RedisOp := GET | SETEX | DEL | EXPIRE.

(** A command sent to Redis, with its arguments. *)
Inductive RedisCommand :=
  | CmdGet (key : jsstring)
  | CmdSetex (key : jsstring) (seconds : Z) (value : ChatSession)
  | CmdDel (key : jsstring)
  | CmdExpire (key : jsstring) (seconds : Z).

Definition op_of (c : RedisCommand) : RedisOp :=
  match c with
  | CmdGet _ => GET
  | CmdSetex _ _ _ => SETEX
  | CmdDel _ => DEL
  | CmdExpire _ _ => EXPIRE
  end.

(** A call that leaves the process. *)
Inductive Event :=
  | RedisCall (c : RedisCommand)
  | JinaPost (input : list jsstring)
  | QdrantSearch (v : list Q) (limit : Z) (score_threshold : Q)
  | QdrantUpsert (points : list Point)
  | GeminiGenerate (prompt : jsstring).

Inductive LogLevel := LogError | LogWarn | LogInfo | LogDebug.

Record LogEntry := {
  level : LogLevel;
  text : jsstring;
  attached : option Exn
}.

Record World := {
  redis : gmap jsstring RedisEntry;
  collection : gmap jsstring Point;
  now : Z;
  uuids : nat;
  trace : list Event;
  logs : list LogEntry
}.

(** The collaborators. The first argument of a reply is the number of calls
    issued before the one replied to. *)
Record Env := {
  redis_fault : nat -> RedisOp -> option Exn;
  jina_reply : nat -> list jsstring -> Result JinaBody;
  qdrant_search_reply : nat -> list Q -> Z -> Q -> Result (list ScoredPoint);
  qdrant_upsert_fault : nat -> option Exn;
  gemini_reply : nat -> jsstring -> Result jsstring;
  uuidv4_value : nat -> jsstring
}.

(** ** The monad of asynchronous methods *)

Definition M (A : Type) : Type := World -> Result A * World.

Definition ret {A} (a : A) : M A := fun w => (Ok a, w).

Definition throw {A} (e : Exn) : M A := fun w => (Err e, w).

Definition bind {A B} (m : M A) (k : A -> M B) : M B :=
  fun w => match m w with
           | (Ok a, w') => k a w'
           | (Err e, w') => (Err e, w')
           end.

(** [try { m } catch (error) { h error }]. *)
Definition try_catch {A} (m : M A) (h : Exn -> M A) : M A :=
  fun w => match m w with
           | (Ok a, w') => (Ok a, w')
           | (Err e, w') => h e w'
           end.

Notation "'let*' x ':=' m 'in' k" := (bind m (fun x => k))
  (at level 10, x name, m at level 100, k at level 200).

Definition set_redis (r : gmap jsstring RedisEntry) (w : World) : World :=
  {| redis := r; collection := collection w; now := now w; uuids := uuids w;
     trace := trace w; logs := logs w |}.

Definition set_collection (c : gmap jsstring Point) (w : World) : World :=
  {| redis := redis w; collection := c; now := now w; uuids := uuids w;
     trace := trace w; logs := logs w |}.

(** Time passing between two methods. *)
Definition elapse (d : Z) (w : World) : World :=
  {| redis := redis w; collection := collection w; now := now w + d; uuids := uuids w;
     trace := trace w; logs := logs w |}.

Definition add_event (ev : Event) (w : World) : World :=
  {| redis := redis w; collection := collection w; now := now w; uuids := uuids w;
     trace := trace w ++ [ev]; logs := logs w |}.

Definition add_log (entry : LogEntry) (w : World) : World :=
  {| redis := redis w; collection := collection w; now := now w; uuids := uuids w;
     trace := trace w; logs := logs w ++ [entry] |}.

Definition next_uuid (w : World) : World :=
  {| redis := redis w; collection := collection w; now := now w; uuids := S (uuids w);
     trace := trace w; logs := logs w |}.

(** Issue a call; the result is its number. *)
Definition emit (ev : Event) : M nat :=
  fun w => (Ok (length (trace w)), add_event ev w).

Definition logger (l : LogLevel) (t : jsstring) (a : option Exn) : M unit :=
  fun w => (Ok tt, add_log {| level := l; text := t; attached := a |} w).

(** [new Date()]. *)
Definition newDate : M Z := fun w => (Ok (now w), w).

Definition update_world (f : World -> World) : M unit := fun w => (Ok tt, f w).

(** The entry under a key, unless it has expired. *)
Definition live (w : World) (key : jsstring) : option RedisEntry :=
  match redis w !! key with
  | Some e => if now w <? entry_expires e then Some e else None
  | None => None
  end.

Section Services.

Context (env : Env).

(** ** The session store ([repositories/redis.ts]) *)

(** *** The commands of the ioredis client *)

Definition redis_call {A} (c : RedisCommand) (run : M A) : M A :=
  let* n := emit (RedisCall c) in
  match redis_fault env n (op_of c) with
  | Some e => throw e
  | None => run
  end.

Definition client_get (key : jsstring) : M (option ChatSession) :=
  redis_call (CmdGet key) (fun w => (Ok (entry_value <$> live w key), w)).

Definition client_setex (key : jsstring) (seconds : Z) (value : ChatSession) : M unit :=
  redis_call (CmdSetex key seconds value)
    (update_world (fun w =>
       set_redis (<[key := {| entry_value := value;
                              entry_expires := now w + seconds * 1000 |}]> (redis w)) w)).

Definition client_del (key : jsstring) : M Z :=
  redis_call (CmdDel key)
    (fun w => (Ok (match live w key with Some _ => 1 | None => 0 end),
               set_redis (delete key (redis w)) w)).

Definition client_expire (key : jsstring) (seconds : Z) : M Z :=
  redis_call (CmdExpire key seconds)
    (fun w => match live w key with
              | Some e =>
                  (Ok 1, set_redis (<[key := {| entry_value := entry_value e;
                                                entry_expires := now w + seconds * 1000 |}]>
                                      (redis w)) w)
              | None => (Ok 0, w)
              end).

(** *** [RedisRepository] *)

Definition SESSION_TTL : Z := 24 * 60 * 60.

Definition getSessionKey (sessionId : jsstring) : jsstring :=
  lit "chat:session:" ++ sessionId.

Definition saveSession (session : ChatSession) : M unit :=
  try_catch
    (let key := getSessionKey (session_id session) in
     let* _ := client_setex key SESSION_TTL session in
     logger LogDebug (lit "Saved session " ++ session_id session ++ lit " to Redis") None)
    (fun e =>
       let* _ := logger LogError
                   (lit "Failed to save session " ++ session_id session ++ lit ":") (Some e) in
       throw (newInternalServerError (lit "Failed to save chat session") (Cause e))).

Definition getSession (sessionId : jsstring) : M (option ChatSession) :=
  try_catch
    (let key := getSessionKey sessionId in
     let* sessionData := client_get key in
     match sessionData with
     | None => ret None
     | Some session =>
         let* _ := logger LogDebug
                     (lit "Retrieved session " ++ sessionId ++ lit " from Redis") None in
         ret (Some session)
     end)
    (fun e =>
       let* _ := logger LogError
                   (lit "Failed to get session " ++ sessionId ++ lit ":") (Some e) in
       throw (newInternalServerError (lit "Failed to retrieve chat session") (Cause e))).

Definition deleteSession (sessionId : jsstring) : M bool :=
  try_catch
    (let key := getSessionKey sessionId in
     let* result := client_del key in
     let* _ := logger LogDebug
                 (lit "Deleted session " ++ sessionId ++ lit " from Redis") None in
     ret (0 <? result))
    (fun e =>
       let* _ := logger LogError
                   (lit "Failed to delete session " ++ sessionId ++ lit ":") (Some e) in
       throw (newInternalServerError (lit "Failed to delete chat session") (Cause e))).

Definition addMessageToSession (sessionId : jsstring) (message : ChatMessage) : M unit :=
  try_catch
    (let* session := getSession sessionId in
     let* _ :=
       match session with
       | None =>
           let* created := newDate in
           let* updated := newDate in
           saveSession {| session_id := sessionId; messages := [message];
                          createdAt := created; updatedAt := updated |}
       | Some session =>
           let pushed := messages session ++ [message] in
           let* updated := newDate in
           saveSession {| session_id := session_id session; messages := pushed;
                          createdAt := createdAt session; updatedAt := updated |}
       end in
     logger LogDebug (lit "Added message to session " ++ sessionId) None)
    (fun e =>
       let* _ := logger LogError
                   (lit "Failed to add message to session " ++ sessionId ++ lit ":")
                   (Some e) in
       throw (newInternalServerError (lit "Failed to add message to session") (Cause e))).

Definition extendSessionTTL (sessionId : jsstring) : M unit :=
  try_catch
    (let key := getSessionKey sessionId in
     let* _ := client_expire key SESSION_TTL in
     logger LogDebug (lit "Extended TTL for session " ++ sessionId) None)
    (fun e =>
       logger LogError (lit "Failed to extend TTL for session " ++ sessionId ++ lit ":")
              (Some e)).

(** ** The vector store ([repositories/qdrant.ts]) *)

Definition upsert_points (points : list Point) (c : gmap jsstring Point) : gmap jsstring Point :=
  foldl (fun acc p => <[point_id p := p]> acc) c points.

Definition client_upsert (points : list Point) : M unit :=
  let* n := emit (QdrantUpsert points) in
  match qdrant_upsert_fault env n with
  | Some e => throw e
  | None => update_world (fun w => set_collection (upsert_points points (collection w)) w)
  end.

Definition client_search (v : list Q) (limit : Z) (score_threshold : Q)
  : M (list ScoredPoint) :=
  let* n := emit (QdrantSearch v limit score_threshold) in
  match qdrant_search_reply env n v limit score_threshold with
  | Ok points => ret points
  | Err e => throw e
  end.

Definition upsertDocuments (documents : list DocumentChunk) (embeddings : list (list Q))
  : M unit :=
  try_catch
    (if bool_decide (length documents ≠ length embeddings) then
       throw (JsError (lit "Documents and embeddings arrays must have the same length"))
     else
       let points :=
         imap (fun index doc =>
                 {| point_id := chunk_id doc;
                    vector := default [] (embeddings !! index);
                    point_content := chunk_content doc;
                    point_metadata := metadata doc |}) documents in
       let* _ := client_upsert points in
       logger LogInfo
         (lit "Upserted " ++ showNat (length documents) ++ lit " documents to Qdrant") None)
    (fun e =>
       let* _ := logger LogError (lit "Failed to upsert documents to Qdrant:") (Some e) in
       throw (newInternalServerError
                (lit "Failed to store documents in vector database") (Cause e))).

Definition unknownMetadata : Metadata :=
  {| source := lit "unknown"; title := None; url := None; meta_timestamp := None |}.

Definition toSearchResult (point : ScoredPoint) : VectorSearchResult :=
  {| result_id := sp_id point;
     result_score := default 0%Q (sp_score point);
     payload := {| chunk_id := sp_id point;
                   chunk_content := default [] (sp_content point);
                   metadata := default unknownMetadata (sp_metadata point);
                   score := None |} |}.

Definition searchSimilar (queryEmbedding : list Q) (limit : Z) (threshold : Q)
  : M (list VectorSearchResult) :=
  try_catch
    (let* searchResult := client_search queryEmbedding limit threshold in
     let results := toSearchResult <$> searchResult in
     let* _ := logger LogDebug
                 (lit "Found " ++ showNat (length results) ++ lit " similar documents in Qdrant")
                 None in
     ret results)
    (fun e =>
       let* _ := logger LogError (lit "Failed to search in Qdrant:") (Some e) in
       throw (newInternalServerError (lit "Failed to search vector database") (Cause e))).

(** ** The embedding client ([services/embedding.ts]) *)

Definition axios_post (input : list jsstring) : M JinaBody :=
  let* n := emit (JinaPost input) in
  match jina_reply env n input with
  | Ok body => ret body
  | Err e => throw e
  end.

Definition isAxiosError (e : Exn) : bool :=
  match e with AxiosError _ _ _ => true | _ => false end.

(** [x || d] on an optional number, respectively an optional string. *)
Definition orNumber (x : option Z) (d : Z) : Z :=
  match x with Some v => if v =? 0 then d else v | None => d end.

Definition orString (x : option jsstring) (d : jsstring) : jsstring :=
  match x with Some [] | None => d | Some v => v end.

Definition generateEmbeddings (texts : list jsstring) : M (list (list Q)) :=
  try_catch
    (if bool_decide (length texts = 0%nat) then ret []
     else
       let request_texts := (fun text => slice 0 8192 text) <$> texts in
       let* response := axios_post request_texts in
       let* embeddings :=
         match response with
         | JinaData items => ret items
         | JinaEmbeddings embeddings => ret embeddings
         | JinaOther => throw (JsError (lit "No embeddings returned from Jina API"))
         end in
       let* _ := logger LogDebug
                   (lit "Generated embeddings for " ++ showNat (length texts) ++ lit " texts")
                   None in
       ret embeddings)
    (fun e =>
       let* _ := logger LogError (lit "Failed to generate embeddings:") (Some e) in
       match e with
       | AxiosError msg status dataMessage =>
           let statusCode := orNumber status 500 in
           let message := orString dataMessage msg in
           throw (newExternalServiceError (lit "Jina Embeddings API") message
                    (StatusInfo statusCode msg))
       | _ =>
           throw (newExternalServiceError (lit "Jina Embeddings API")
                    (lit "Unknown error occurred") NoDetails)
       end).

Definition generateSingleEmbedding (text : jsstring) : M (list Q) :=
  let* embeddings := generateEmbeddings [text] in
  ret (default [] (embeddings !! 0%nat)).

(** The [for] loop of [batchEmbeddings], from index [i] on. It runs at most
    [fuel] rounds; [batchLoop_fuel] shows that [length texts] rounds are
    enough for a positive batch size. *)
Fixpoint batchLoop (fuel : nat) (texts : list jsstring) (batchSize i : nat)
    (results : list (list Q)) : M (list (list Q)) :=
  match fuel with
  | O => ret results
  | S fuel' =>
      if (i <? length texts)%nat then
        let batch := slice i (i + batchSize) texts in
        let* batchEmbeddings := generateEmbeddings batch in
        let results' := results ++ batchEmbeddings in
        let* _ := if (i + batchSize <? length texts)%nat
                  then update_world (elapse 100) else ret tt in
        batchLoop fuel' texts batchSize (i + batchSize)%nat results'
      else ret results
  end.

Definition batchEmbeddings (texts : list jsstring) (batchSize : nat) : M (list (list Q)) :=
  if bool_decide (length texts = 0%nat) then ret []
  else
    let* results := batchLoop (length texts) texts batchSize 0 [] in
    let* _ := logger LogInfo
                (lit "Generated embeddings for " ++ showNat (length texts)
                 ++ lit " texts in batches") None in
    ret results.

(** ** Prompt assembly and generation ([services/llm.ts]) *)

Definition noArticles : jsstring := lit "No relevant articles found for this query.".

(** The block of one retrieved chunk; [index] counts from 0. *)
Definition renderArticle (index : nat) (chunk : DocumentChunk) : jsstring :=
  let source :=
    orString (title (metadata chunk))
             (orString (Some (source (metadata chunk))) (lit "Unknown Source")) in
  let url :=
    match url (metadata chunk) with
    | Some [] | None => []
    | Some u => lit " (" ++ u ++ lit ")"
    end in
  let timestamp :=
    match meta_timestamp (metadata chunk) with
    | Some [] | None => []
    | Some t => lit " - " ++ t
    end in
  lit "
Article " ++ showNat (index + 1) ++ lit ": " ++ source ++ url ++ timestamp ++ lit "
Content: " ++ chunk_content chunk ++ lit "
---".

Definition buildContext (chunks : list DocumentChunk) : jsstring :=
  if bool_decide (length chunks = 0%nat) then noArticles
  else join (lit "
") (imap renderArticle chunks).

Definition renderMessage (msg : ChatMessage) : jsstring :=
  toUpperCase (roleName (role msg)) ++ lit ": " ++ content msg.

Definition formatChatHistory (messages : list ChatMessage) : jsstring :=
  if bool_decide (length messages = 0%nat) then lit "No previous conversation."
  else
    let recentMessages := slice_last 10 messages in
    join (lit "
") (renderMessage <$> recentMessages).

Definition systemPrompt (context conversationHistory userQuery : jsstring) : jsstring :=
  lit "You are an intelligent assistant that answers questions based on provided news articles context. 

INSTRUCTIONS:
1. Use ONLY the information provided in the context to answer questions
2. If the context doesn't contain enough information, clearly state what's missing
3. Provide accurate, concise, and helpful responses
4. Cite sources when possible by mentioning the article titles or sources
5. If asked about current events, remind users that information is based on the provided articles
6. Be conversational but professional
7. If no relevant information is found, politely explain this limitation

CONTEXT:
" ++ context ++ lit "

CONVERSATION HISTORY:
" ++ conversationHistory ++ lit "

USER QUESTION: " ++ userQuery ++ lit "

Please provide a helpful response based on the context provided.".

Definition model_generateContent (prompt : jsstring) : M jsstring :=
  let* n := emit (GeminiGenerate prompt) in
  match gemini_reply env n prompt with
  | Ok text => ret text
  | Err e => throw e
  end.

Definition generateResponse (userQuery : jsstring) (retrievedChunks : list DocumentChunk)
    (chatHistory : list ChatMessage) : M jsstring :=
  try_catch
    (let context := buildContext retrievedChunks in
     let conversationHistory := formatChatHistory chatHistory in
     let* text :=
       model_generateContent (systemPrompt context conversationHistory userQuery) in
     if bool_decide (text = []) || bool_decide (length (trim text) = 0%nat) then
       throw (JsError (lit "Empty response from Gemini API"))
     else
       let* _ := logger LogDebug
                   (lit "Generated response for query: " ++ slice 0 100 userQuery ++ lit "...")
                   None in
       ret (trim text))
    (fun e =>
       let* _ := logger LogError (lit "Failed to generate LLM response:") (Some e) in
       if instanceofError e then
         throw (newExternalServiceError (lit "Gemini API") (errorMessage e) (Cause e))
       else
         throw (newExternalServiceError (lit "Gemini API")
                  (lit "Unknown error occurred") NoDetails)).

(** ** The orchestrator ([services/rag.ts]) *)

Definition uuidv4 : M jsstring :=
  fun w => (Ok (uuidv4_value env (uuids w)), next_uuid w).

(** [{...result.payload, score: result.score}]. *)
Definition withScore (result : VectorSearchResult) : DocumentChunk :=
  {| chunk_id := chunk_id (payload result);
     chunk_content := chunk_content (payload result);
     metadata := metadata (payload result);
     score := Some (result_score result) |}.

Definition processQuery (sessionId userMessage : jsstring) (retrievalLimit : Z)
    (similarityThreshold : Q) : M ChatResponse :=
  try_catch
    (let* userMessageId := uuidv4 in
     let* stamp := newDate in
     let userChatMessage :=
       {| msg_id := userMessageId; role := user; content := userMessage;
          timestamp := stamp |} in
     let* _ := addMessageToSession sessionId userChatMessage in
     let* session := getSession sessionId in
     let chatHistory := match session with Some s => messages s | None => [] end in
     let* queryEmbedding := generateSingleEmbedding userMessage in
     let* searchResults := searchSimilar queryEmbedding retrievalLimit similarityThreshold in
     let retrievedChunks := withScore <$> searchResults in
     let* responseText :=
       generateResponse userMessage retrievedChunks (slice_last 10 chatHistory) in
     let* assistantMessageId := uuidv4 in
     let* stamp' := newDate in
     let assistantMessage :=
       {| msg_id := assistantMessageId; role := assistant; content := responseText;
          timestamp := stamp' |} in
     let* _ := addMessageToSession sessionId assistantMessage in
     let* _ := extendSessionTTL sessionId in
     let* _ := logger LogDebug (lit "RAG Context:") None in
     ret {| message := responseText; response_session_id := sessionId;
            message_id := assistantMessageId; sources := retrievedChunks |})
    (fun e =>
       let* _ := logger LogError
                   (lit "Failed to process query for session " ++ sessionId ++ lit ":")
                   (Some e) in
       throw (newInternalServerError (lit "Failed to process chat query") (Cause e))).

Definition getChatHistory (sessionId : jsstring) : M (list ChatMessage) :=
  try_catch
    (let* session := getSession sessionId in
     ret (match session with Some s => messages s | None => [] end))
    (fun e =>
       let* _ := logger LogError
                   (lit "Failed to get chat history for session " ++ sessionId ++ lit ":")
                   (Some e) in
       throw (newInternalServerError (lit "Failed to retrieve chat history") (Cause e))).

Definition clearChatHistory (sessionId : jsstring) : M bool :=
  try_catch
    (deleteSession sessionId)
    (fun e =>
       let* _ := logger LogError
                   (lit "Failed to clear chat history for session " ++ sessionId ++ lit ":")
                   (Some e) in
       throw (newInternalServerError (lit "Failed to clear chat history") (Cause e))).

Definition indexDocuments (documents : list DocumentChunk) : M unit :=
  try_catch
    (if bool_decide (length documents = 0%nat) then
       logger LogWarn (lit "No documents to index") None
     else
       let texts := chunk_content <$> documents in
       let* embeddings := batchEmbeddings texts 10 in
       let* _ := upsertDocuments documents embeddings in
       logger LogInfo
         (lit "Successfully indexed " ++ showNat (length documents) ++ lit " documents") None)
    (fun e =>
       let* _ := logger LogError (lit "Failed to index documents:") (Some e) in
       throw (newInternalServerError (lit "Failed to index documents") (Cause e))).

Definition searchSimilarDocuments (query : jsstring) (limit : Z) (threshold : Q)
  : M (list VectorSearchResult) :=
  try_catch
    (let* queryEmbedding := generateSingleEmbedding query in
     searchSimilar queryEmbedding limit threshold)
    (fun e =>
       let* _ := logger LogError (lit "Failed to search similar documents:") (Some e) in
       throw (newInternalServerError (lit "Failed to search documents") (Cause e))).

(** ** The HTTP boundary ([controllers/chat.ts]) *)

(** The doubles written [0.3], [0.6] and [0.7] in the source. *)
Definition double_0_3 : Q := 5404319552844595 # 18014398509481984.
Definition double_0_6 : Q := 5404319552844595 # 9007199254740992.
Definition double_0_7 : Q := 3152519739159347 # 4503599627370496.

(** What a handler does with its request: it sends a JSON body with a status,
    or hands an error to [next]. *)
Inductive Reply (A : Type) :=
  | Sent (status : Z) (data : A)
  | Next (e : Exn).
Arguments Sent {A} status data.
Arguments Next {A} e.

(** [try { ... res.status(200).json(data) } catch (error) { next(error) }]. *)
Definition respond {A} (m : M A) : World -> Reply A * World :=
  fun w => match m w with
           | (Ok a, w') => (Sent 200 a, w')
           | (Err e, w') => (Next e, w')
           end.

(** A request as a handler sees it: the errors the validation middleware
    found, and the fields of the body. *)
Record ChatRequest := {
  chat_errors : list jsstring;
  req_session_id : jsstring;
  req_user_message : jsstring
}.

Record SearchRequest := {
  search_errors : list jsstring;
  req_query : jsstring;
  req_limit : option Z;
  req_threshold : option Q
}.

(** The [data] of the JSON bodies. *)
Record SearchData := {
  search_query : jsstring;
  search_results : list VectorSearchResult;
  result_count : nat
}.

Record HistoryData := {
  history_session_id : jsstring;
  history_messages : list ChatMessage;
  message_count : nat
}.

Record ClearData := {
  cleared_session_id : jsstring;
  cleared : bool
}.

Definition checkValidation (errors : list jsstring) : M unit :=
  if bool_decide (errors = []) then ret tt
  else throw (newValidationError (lit "Invalid request data") (FieldErrors errors)).

Definition chat (req : ChatRequest) : World -> Reply ChatResponse * World :=
  respond
    (let* _ := checkValidation (chat_errors req) in
     let* response :=
       processQuery (req_session_id req) (req_user_message req) 5 double_0_7 in
     let* _ := logger LogInfo
                 (lit "Chat response generated for session: " ++ req_session_id req) None in
     ret response).

Definition searchDocuments (req : SearchRequest) : World -> Reply SearchData * World :=
  respond
    (let* _ := checkValidation (search_errors req) in
     let query := req_query req in
     let limit := default 10 (req_limit req) in
     let threshold := default double_0_6 (req_threshold req) in
     let* results :=
       searchSimilarDocuments query (Z.min limit 20) (Qmax threshold double_0_3) in
     ret {| search_query := query; search_results := results;
            result_count := length results |}).

(** [session_id] is the route parameter, which may be missing. *)
Definition getHistory (session_id : option jsstring) : World -> Reply HistoryData * World :=
  respond
    (match session_id with
     | None | Some [] =>
         throw (newValidationError (lit "Session ID is required") NoDetails)
     | Some session_id =>
         let* messages := getChatHistory session_id in
         ret {| history_session_id := session_id; history_messages := messages;
                message_count := length messages |}
     end).

Definition clearHistory (session_id : option jsstring) : World -> Reply ClearData * World :=
  respond
    (match session_id with
     | None | Some [] =>
         throw (newValidationError (lit "Session ID is required") NoDetails)
     | Some session_id =>
         let* deleted := clearChatHistory session_id in
         if deleted then
           let* _ := logger LogInfo
                       (lit "Chat history cleared for session: " ++ session_id) None in
           ret {| cleared_session_id := session_id; cleared := true |}
         else throw (newNotFoundError (lit "Chat session not found: " ++ session_id))
     end).

End Services.

(** * Further methods of the same classes, and their callers *)

(** What Qdrant tells of a collection. *)
Record CollectionInfo := {
  points_count : option Z;
  info_status : option jsstring
}.

(** The collaborators of the methods below, beside those of [Env]. Their
    calls are not among the events of the trace; a reply may depend, as for
    the others, on the number of events recorded before the call. *)
Record MoreEnv := {
  redis_keys_fault : nat -> option Exn;
  qdrant_retrieve_fault : nat -> option Exn;
  qdrant_delete_fault : nat -> option Exn;
  qdrant_getCollection_reply : nat -> Result CollectionInfo
}.

Record SystemStats := {
  vectorDbCount : Z;
  vectorDbStatus : jsstring;
  activeSessions : Z
}.

(** [s.split(c)] for a separator of one code unit. *)
Fixpoint splitAt (sep : N) (cur : jsstring) (s : jsstring) : list jsstring :=
  match s with
  | [] => [reverse cur]
  | c :: s' =>
      if (c =? sep)%N then reverse cur :: splitAt sep [] s'
      else splitAt sep (c :: cur) s'
  end.

Definition split (sep : N) (s : jsstring) : list jsstring := splitAt sep [] s.

Section MoreServices.

Context (env : Env) (more : MoreEnv).

(** ** [RedisRepository.getSessionCount] *)

(** The keys [KEYS prefix*] lists: the live ones that start with [prefix]. *)
Definition matching (prefix : jsstring) (t : Z) (kv : jsstring * RedisEntry) : Prop :=
  prefix `prefix_of` kv.1 /\ t < entry_expires kv.2.

Definition client_keys (prefix : jsstring) : M (list jsstring) :=
  fun w =>
    match redis_keys_fault more (length (trace w)) with
    | Some e => (Err e, w)
    | None => (Ok ((map_to_list (filter (matching prefix (now w)) (redis w))).*1), w)
    end.

Definition getSessionCount : M nat :=
  try_catch
    (let* keys := client_keys (lit "chat:session:") in
     ret (length keys))
    (fun e =>
       let* _ := logger LogError (lit "Failed to get session count:") (Some e) in
       ret 0%nat).

(** ** [QdrantRepository]: documents by id, collection info *)

Definition stored (p : Point) : ScoredPoint :=
  {| sp_id := point_id p; sp_score := None;
     sp_content := Some (point_content p); sp_metadata := Some (point_metadata p) |}.

Definition client_retrieve (ids : list jsstring) : M (list ScoredPoint) :=
  fun w =>
    match qdrant_retrieve_fault more (length (trace w)) with
    | Some e => (Err e, w)
    | None => (Ok (omap (fun id => stored <$> collection w !! id) ids), w)
    end.

Definition client_delete (ids : list jsstring) : M unit :=
  fun w =>
    match qdrant_delete_fault more (length (trace w)) with
    | Some e => (Err e, w)
    | None => (Ok tt, set_collection (foldl (fun c id => delete id c) (collection w) ids) w)
    end.

Definition client_getCollection : M CollectionInfo :=
  fun w => (qdrant_getCollection_reply more (length (trace w)), w).

Definition getDocumentById (id : jsstring) : M (option DocumentChunk) :=
  try_catch
    (let* result := client_retrieve [id] in
     match result with
     | [] => ret None
     | point :: _ =>
         ret (Some {| chunk_id := sp_id point;
                      chunk_content := orString (sp_content point) [];
                      metadata := default unknownMetadata (sp_metadata point);
                      score := None |})
     end)
    (fun e =>
       let* _ := logger LogError
                   (lit "Failed to get document " ++ id ++ lit " from Qdrant:") (Some e) in
       throw (newInternalServerError
                (lit "Failed to retrieve document from vector database") (Cause e))).

Definition deleteDocument (id : jsstring) : M bool :=
  try_catch
    (let* _ := client_delete [id] in
     let* _ := logger LogDebug (lit "Deleted document " ++ id ++ lit " from Qdrant") None in
     ret true)
    (fun e =>
       let* _ := logger LogError
                   (lit "Failed to delete document " ++ id ++ lit " from Qdrant:") (Some e) in
       throw (newInternalServerError
                (lit "Failed to delete document from vector database") (Cause e))).

Definition getCollectionInfo : M (Z * jsstring) :=
  try_catch
    (let* info := client_getCollection in
     ret (orNumber (points_count info) 0, orString (info_status info) (lit "unknown")))
    (fun e =>
       let* _ := logger LogError (lit "Failed to get collection info from Qdrant:")
                   (Some e) in
       ret (0, lit "error")).

(** ** [LLMService]: summaries and keywords *)

Definition generateSummary (text : jsstring) (maxLength : nat) : M jsstring :=
  try_catch
    (let prompt :=
       lit "Please provide a concise summary of the following text in approximately "
       ++ showNat maxLength ++ lit " characters:

" ++ text ++ lit "

Summary:" in
     let* summary := model_generateContent env prompt in
     let* _ := logger LogDebug
                 (lit "Generated summary of length: " ++ showNat (length summary)) None in
     ret (trim summary))
    (fun e =>
       let* _ := logger LogError (lit "Failed to generate summary:") (Some e) in
       throw (newExternalServiceError (lit "Gemini API")
                (lit "Failed to generate summary") NoDetails)).

Definition extractKeywords (text : jsstring) : M (list jsstring) :=
  try_catch
    (let prompt :=
       lit "Extract the most important keywords and phrases from the following text. Return them as a comma-separated list:

" ++ text ++ lit "

Keywords:" in
     let* keywordsText := model_generateContent env prompt in
     let keywords :=
       slice 0 10
         (List.filter (fun keyword => (0 <? length keyword)%nat)
            (trim <$> split 44 keywordsText)) in
     let* _ := logger LogDebug
                 (lit "Extracted " ++ showNat (length keywords) ++ lit " keywords") None in
     ret keywords)
    (fun e =>
       let* _ := logger LogError (lit "Failed to extract keywords:") (Some e) in
       ret []).

(** ** [RAGService.getSystemStats] *)

Definition getSystemStats : M SystemStats :=
  try_catch
    (let* vectorInfo := getCollectionInfo in
     let* sessionCount := getSessionCount in
     ret {| vectorDbCount := vectorInfo.1; vectorDbStatus := vectorInfo.2;
            activeSessions := Z.of_nat sessionCount |})
    (fun e =>
       let* _ := logger LogError (lit "Failed to get system stats:") (Some e) in
       ret {| vectorDbCount := 0; vectorDbStatus := lit "error"; activeSessions := 0 |}).

(** ** [ChatController.getStats] *)

Definition getStats : World -> Reply SystemStats * World :=
  respond getSystemStats.

End MoreServices.

(** ** The error handler ([utils/middleware.ts]) *)

(** The [name] of what was thrown, when it has one. *)
Definition errorName (e : Exn) : option jsstring :=
  match e with
  | JsError _ | AppError _ _ _ _ _ => Some (lit "Error")
  | AxiosError _ _ _ => Some (lit "AxiosError")
  | NonError => None
  end.

(** What the body of an error response may carry beside message and code. *)
Inductive Disclosed :=
  | Nothing
  | TheDetails (details : Details)
  | TheMessage (message : jsstring)
  | TheStack.

Record ErrorResponse := {
  error_status : Z;
  error_message : jsstring;
  error_code : jsstring;
  error_disclosed : Disclosed
}.

(** [nodeEnv] is [config.nodeEnv]. *)
Definition errorHandler (nodeEnv : jsstring) (err : Exn) : ErrorResponse :=
  let development := bool_decide (nodeEnv = lit "development") in
  match err with
  | AppError _ message statusCode code details =>
      {| error_status := statusCode; error_message := message; error_code := code;
         error_disclosed := if development then TheDetails details else Nothing |}
  | _ =>
      if bool_decide (errorName err = Some (lit "ValidationError")) then
        {| error_status := 400; error_message := lit "Validation failed";
           error_code := lit "VALIDATION_ERROR";
           error_disclosed := if development then TheMessage (errorMessage err)
                              else Nothing |}
      else
        {| error_status := 500;
           error_message := if bool_decide (nodeEnv = lit "production")
                            then lit "Internal server error" else errorMessage err;
           error_code := lit "INTERNAL_SERVER_ERROR";
           error_disclosed := if development then TheStack else Nothing |}
  end.

(** A route: the handler, then the error handler on what it passes to
    [next]. *)
Definition route {A} (nodeEnv : jsstring) (handler : World -> Reply A * World)
  : World -> (Z * A + ErrorResponse) * World :=
  fun w => match handler w with
           | (Sent _ status data, w') => (inl (status, data), w')
           | (Next _ e, w') => (inr (errorHandler nodeEnv e), w')
           end.

(** ** The chunk producer ([services/newsScraper.ts]) *)

Record NewsArticle := {
  article_title : jsstring;
  article_description : jsstring;
  article_url : jsstring;
  article_publishedAt : jsstring;
  article_source : jsstring;
  article_content : option jsstring
}.

(** [s.split(/[.!?]+/)]: the pieces between the maximal runs of the three
    marks; [inRun] tells that the previous code unit was a mark. *)
Definition isMark (c : N) : bool := ((c =? 46) || (c =? 33) || (c =? 63))%N.

Fixpoint splitMarks (inRun : bool) (cur : jsstring) (s : jsstring) : list jsstring :=
  match s with
  | [] => [reverse cur]
  | c :: s' =>
      if isMark c then
        if inRun then splitMarks true [] s'
        else reverse cur :: splitMarks true [] s'
      else splitMarks false (c :: cur) s'
  end.

Definition articleMetadata (article : NewsArticle) : Metadata :=
  {| source := article_source article; title := Some (article_title article);
     url := Some (article_url article);
     meta_timestamp := Some (article_publishedAt article) |}.

Section Scraper.

Context (env : Env).

(** [chunks.push({id: uuidv4(), content, metadata})]. *)
Definition pushChunk (article : NewsArticle) (content : jsstring)
    (chunks : list DocumentChunk) : M (list DocumentChunk) :=
  let* id := uuidv4 env in
  ret (chunks ++ [{| chunk_id := id; chunk_content := content;
                     metadata := articleMetadata article; score := None |}]).

(** The loop over the sentences of a long article. *)
Fixpoint packSentences (article : NewsArticle) (sentences : list jsstring)
    (currentChunk : jsstring) (chunks : list DocumentChunk)
  : M (jsstring * list DocumentChunk) :=
  match sentences with
  | [] => ret (currentChunk, chunks)
  | sentence :: rest =>
      if (800 <? length currentChunk + length sentence)%nat then
        let* chunks' :=
          match trim currentChunk with
          | [] => ret chunks
          | _ => pushChunk article (trim currentChunk) chunks
          end in
        packSentences article rest (trim sentence ++ lit ".") chunks'
      else
        packSentences article rest (currentChunk ++ trim sentence ++ lit ".") chunks
  end.

(** The body of the loop over the articles. *)
Definition convertArticle (article : NewsArticle) (chunks : list DocumentChunk)
  : M (list DocumentChunk) :=
  let* chunks :=
    pushChunk article
      (article_title article ++ lit "

" ++ article_description article) chunks in
  let* chunks :=
    match article_content article with
    | Some content =>
        if (100 <? length content)%nat then pushChunk article content chunks
        else ret chunks
    | None => ret chunks
    end in
  match article_content article with
  | Some content =>
      if (1000 <? length content)%nat then
        let sentences :=
          List.filter (fun s => (0 <? length (trim s))%nat) (splitMarks false [] content) in
        let* packed := packSentences article sentences [] chunks in
        match trim packed.1 with
        | [] => ret packed.2
        | _ => pushChunk article (trim packed.1) packed.2
        end
      else ret chunks
  | None => ret chunks
  end.

Fixpoint convertArticles (articles : list NewsArticle) (chunks : list DocumentChunk)
  : M (list DocumentChunk) :=
  match articles with
  | [] => ret chunks
  | article :: rest =>
      let* chunks := convertArticle article chunks in
      convertArticles rest chunks
  end.

Definition convertToDocumentChunks (articles : list NewsArticle) : M (list DocumentChunk) :=
  let* chunks := convertArticles articles [] in
  let* _ := logger LogInfo
              (lit "Converted " ++ showNat (length articles) ++ lit " articles to "
               ++ showNat (length chunks) ++ lit " document chunks") None in
  ret chunks.

End Scraper.

(** * Vocabulary of the specification *)

Arguments lit : simpl never.

(** A store written by [saveSession] only: the record under the key of a
    session carries that session's id, and was stamped by the clock at or
    before the present instant. *)
Definition stamped (r : gmap jsstring RedisEntry) (t : Z) : Prop :=
  forall sid e, r !! getSessionKey sid = Some e ->
    session_id (entry_value e) = sid /\ updatedAt (entry_value e) <= t.

Definition store_wf (w : World) : Prop := stamped (redis w) (now w).

(** The session [addMessageToSession] writes back. *)
Definition appended (w : World) (sid : jsstring) (m : ChatMessage) : ChatSession :=
  match live w (getSessionKey sid) with
  | Some e => {| session_id := session_id (entry_value e);
                 messages := messages (entry_value e) ++ [m];
                 createdAt := createdAt (entry_value e);
                 updatedAt := now w |}
  | None => {| session_id := sid; messages := [m];
               createdAt := now w; updatedAt := now w |}
  end.

(** The messages of a session as a reader finds them: none when the key is
    absent or has expired. *)
Definition history (w : World) (sid : jsstring) : list ChatMessage :=
  match live w (getSessionKey sid) with
  | Some e => messages (entry_value e)
  | None => []
  end.

(** ** Relations between the world before and after a method *)

(** [always R m]: whatever [m] returns, it takes a world to one related to it
    by [R]. *)
Definition always (R : World -> World -> Prop) {A} (m : M A) : Prop :=
  forall w, R w (snd (m w)).

(** What the combinators of the monad need of such a relation. *)
Record Frame (R : World -> World -> Prop) : Prop := {
  frame_refl : forall w, R w w;
  frame_trans : forall a b c, R a b -> R b c -> R a c;
  frame_log : forall entry w, R w (add_log entry w);
  frame_uuid : forall w, R w (next_uuid w)
}.

(** The method issued calls that satisfy [P], in order, and changed nothing
    but the trace and the log. *)
Definition calls (P : Event -> Prop) (w w' : World) : Prop :=
  redis w' = redis w /\ collection w' = collection w /\ now w' = now w /\
  exists evs, trace w' = trace w ++ evs /\ Forall P evs.

(** The method issued calls that satisfy [P], in order, and left the Qdrant
    collection as it was. *)
Definition emits (P : Event -> Prop) (w w' : World) : Prop :=
  collection w' = collection w /\
  exists evs, trace w' = trace w ++ evs /\ Forall P evs.

(** A property of the session store and the clock that the method keeps. *)
Definition keeps (J : gmap jsstring RedisEntry -> Z -> Prop) (w w' : World) : Prop :=
  J (redis w) (now w) -> J (redis w') (now w').

(** The session of [sid] holds the message [m] and expires a full window
    after the instant [t]. *)
Definition recorded (sid : jsstring) (m : ChatMessage)
    (r : gmap jsstring RedisEntry) (t : Z) : Prop :=
  exists e, r !! getSessionKey sid = Some e /\
            session_id (entry_value e) = sid /\
            m ∈ messages (entry_value e) /\
            entry_expires e = t + SESSION_TTL * 1000.

Definition isUpsert (ev : Event) : Prop :=
  match ev with QdrantUpsert _ => True | _ => False end.

Definition isGenerate (ev : Event) : Prop :=
  match ev with GeminiGenerate _ => True | _ => False end.

(** A search is within the bounds of the boundary. *)
Definition searchBounded (ev : Event) : Prop :=
  match ev with
  | QdrantSearch _ limit threshold => limit <= 20 /\ (double_0_3 <= threshold)%Q
  | _ => True
  end.

(** Two environments that differ at most in the faults of [EXPIRE]. *)
Definition agree_but_expire (env env' : Env) : Prop :=
  (forall n op, op <> EXPIRE -> redis_fault env n op = redis_fault env' n op) /\
  (forall n input, jina_reply env n input = jina_reply env' n input) /\
  (forall n v l t, qdrant_search_reply env n v l t = qdrant_search_reply env' n v l t) /\
  (forall n, qdrant_upsert_fault env n = qdrant_upsert_fault env' n) /\
  (forall n p, gemini_reply env n p = gemini_reply env' n p) /\
  (forall n, uuidv4_value env n = uuidv4_value env' n).

(** A string that is empty or made of white space only. *)
Definition blank (text : jsstring) : Prop :=
  Forall (fun c => isWhiteSpace c = true) text.

(** Every reply of the generation provider is blank. *)
Definition blank_replies (env : Env) : Prop :=
  forall n p, exists text, gemini_reply env n p = Ok text /\ blank text.

(** ** The stages of [processQuery] *)

(** The message [processQuery] builds for the user's turn, in the world it
    is called in. *)
Definition userTurn (env : Env) (w : World) (userMessage : jsstring) : ChatMessage :=
  {| msg_id := uuidv4_value env (uuids w); role := user; content := userMessage;
     timestamp := now w |}.

(** The steps of [processQuery] from the embedding of the query on, given
    the history read after the append. *)
Definition answerFrom (env : Env) (sessionId userMessage : jsstring) (retrievalLimit : Z)
    (similarityThreshold : Q) (chatHistory : list ChatMessage) : M ChatResponse :=
  let* queryEmbedding := generateSingleEmbedding env userMessage in
  let* searchResults :=
    searchSimilar env queryEmbedding retrievalLimit similarityThreshold in
  let retrievedChunks := withScore <$> searchResults in
  let* responseText :=
    generateResponse env userMessage retrievedChunks (slice_last 10 chatHistory) in
  let* assistantMessageId := uuidv4 env in
  let* stamp' := newDate in
  let assistantMessage :=
    {| msg_id := assistantMessageId; role := assistant; content := responseText;
       timestamp := stamp' |} in
  let* _ := addMessageToSession env sessionId assistantMessage in
  let* _ := extendSessionTTL env sessionId in
  let* _ := logger LogDebug (lit "RAG Context:") None in
  ret {| message := responseText; response_session_id := sessionId;
         message_id := assistantMessageId; sources := retrievedChunks |}.

(** The steps of [processQuery] that follow the append of the user's turn. *)
Definition afterAppend (env : Env) (sessionId userMessage : jsstring) (retrievalLimit : Z)
    (similarityThreshold : Q) : M ChatResponse :=
  let* session := getSession env sessionId in
  answerFrom env sessionId userMessage retrievalLimit similarityThreshold
    (match session with Some s => messages s | None => [] end).

(** The [catch] clause of [processQuery]. *)
Definition processQuery_catch (sessionId : jsstring) (e : Exn) : M ChatResponse :=
  let* _ := logger LogError
              (lit "Failed to process query for session " ++ sessionId ++ lit ":")
              (Some e) in
  throw (newInternalServerError (lit "Failed to process chat query") (Cause e)).

(** The error [generateResponse] rejects with on an empty answer. *)
Definition emptyAnswerError : Exn :=
  newExternalServiceError (lit "Gemini API") (lit "Empty response from Gemini API")
    (Cause (JsError (lit "Empty response from Gemini API"))).

Definition newline : jsstring := [10%N].


(** The searches issued carry exactly this limit and this threshold. *)
Definition searchedWith (limit : Z) (threshold : Q) (ev : Event) : Prop :=
  match ev with
  | QdrantSearch _ l t => l = limit /\ t = threshold
  | _ => True
  end.

(** ** The rendering of an article, in the words of the specification *)

(** A string that is there and not empty. *)
Definition present (x : option jsstring) : option jsstring :=
  match x with
  | Some (c :: s) => Some (c :: s)
  | _ => None
  end.

(** The title, or else the source, or else a fixed label. *)
Definition articleLabel (chunk : DocumentChunk) : jsstring :=
  match present (title (metadata chunk)) with
  | Some t => t
  | None =>
      match present (Some (source (metadata chunk))) with
      | Some s => s
      | None => lit "Unknown Source"
      end
  end.

(** The URL in parentheses, when there is one. *)
Definition articleLink (chunk : DocumentChunk) : jsstring :=
  match present (url (metadata chunk)) with
  | Some u => lit " (" ++ u ++ lit ")"
  | None => []
  end.

(** The timestamp after a dash, when there is one. *)
Definition articleStamp (chunk : DocumentChunk) : jsstring :=
  match present (meta_timestamp (metadata chunk)) with
  | Some t => lit " - " ++ t
  | None => []
  end.

(** The article of the chunk at position [i] (from 0): a heading line with
    the index [i + 1], and a content line, closed by a rule. *)
Definition labeledArticle (i : nat) (chunk : DocumentChunk) : jsstring :=
  newline ++ lit "Article " ++ showNat (i + 1) ++ lit ": "
    ++ articleLabel chunk ++ articleLink chunk ++ articleStamp chunk
    ++ newline ++ lit "Content: " ++ chunk_content chunk
    ++ newline ++ lit "---".

(** Inside the [try] of [processQuery], the steps [m] end in a rejection
    with the error of [processQuery]; its cause is [emptyAnswerError] as soon
    as one of the calls issued on the way went to the generation provider. *)
Definition rejects (sid : jsstring) (m : M ChatResponse) (w : World) : Prop :=
  exists e w' evs,
    try_catch m (processQuery_catch sid) w
    = (Err (newInternalServerError (lit "Failed to process chat query") (Cause e)), w') /\
    trace w' = trace w ++ evs /\
    (Exists isGenerate evs -> e = emptyAnswerError).

(** ** Stubs and sample worlds *)

(** Collaborators that never fail: one unit vector per text, one retrieved
    chunk, and a generation provider that always says [answer]. *)
Definition stub_env (answer : jsstring) : Env :=
  {| redis_fault := fun _ _ => None;
     jina_reply := fun _ input => Ok (JinaData ((fun _ => [1%Q]) <$> input));
     qdrant_search_reply := fun _ _ _ _ =>
       Ok [ {| sp_id := lit "d1"; sp_score := Some (9 # 10)%Q;
               sp_content := Some (lit "AI is..."); sp_metadata := None |} ];
     qdrant_upsert_fault := fun _ => None;
     gemini_reply := fun _ _ => Ok answer;
     uuidv4_value := fun n => lit "id-" ++ showNat n |}.

(** The same, with [EXPIRE] failing. *)
Definition stub_env_no_expire (answer : jsstring) : Env :=
  {| redis_fault := fun _ op =>
       match op with EXPIRE => Some (JsError (lit "Connection is closed.")) | _ => None end;
     jina_reply := jina_reply (stub_env answer);
     qdrant_search_reply := qdrant_search_reply (stub_env answer);
     qdrant_upsert_fault := qdrant_upsert_fault (stub_env answer);
     gemini_reply := gemini_reply (stub_env answer);
     uuidv4_value := uuidv4_value (stub_env answer) |}.

(** The same as [stub_env], with a Jina reply that is one vector short. *)
Definition stub_env_short (answer : jsstring) : Env :=
  {| redis_fault := redis_fault (stub_env answer);
     jina_reply := fun _ input => Ok (JinaData ((fun _ => [1%Q]) <$> tail input));
     qdrant_search_reply := qdrant_search_reply (stub_env answer);
     qdrant_upsert_fault := qdrant_upsert_fault (stub_env answer);
     gemini_reply := gemini_reply (stub_env answer);
     uuidv4_value := uuidv4_value (stub_env answer) |}.

Definition empty_world : World :=
  {| redis := ∅; collection := ∅; now := 1000; uuids := 0; trace := []; logs := [] |}.

Definition hello : ChatMessage :=
  {| msg_id := lit "m0"; role := user; content := lit "Hello"; timestamp := 400 |}.

Definition question : ChatMessage :=
  {| msg_id := lit "m1"; role := user; content := lit "What is AI?"; timestamp := 1000 |}.

(** A world in which the session [s1] holds one message. *)
Definition s1_world : World :=
  {| redis := {[ getSessionKey (lit "s1") :=
                  {| entry_value := {| session_id := lit "s1"; messages := [hello];
                                       createdAt := 400; updatedAt := 400 |};
                     entry_expires := 86400400 |} ]};
     collection := ∅; now := 1000; uuids := 0; trace := []; logs := [] |}.

Definition article : DocumentChunk :=
  {| chunk_id := lit "d1"; chunk_content := lit "AI is...";
     metadata := {| source := lit "wire"; title := Some (lit "On AI");
                    url := Some (lit "http://x"); meta_timestamp := None |};
     score := Some (9 # 10)%Q |}.

(** ** Vocabulary of the further properties *)




(** Collaborators that all answer: Redis without faults, embeddings in one
    of the two shapes, search results, and a generated text that is not
    blank. *)
Definition healthy (env : Env) : Prop :=
  (forall n op, redis_fault env n op = None) /\
  (forall n input, exists items,
      jina_reply env n input = Ok (JinaData items) \/
      jina_reply env n input = Ok (JinaEmbeddings items)) /\
  (forall n v l t, exists points, qdrant_search_reply env n v l t = Ok points) /\
  (forall n p, exists text, gemini_reply env n p = Ok text /\ ~ blank text).

(** An embedding provider that embeds every text by [f], one vector for
    each text of the input. *)
Definition embeds (env : Env) (f : jsstring -> list Q) : Prop :=
  forall n input, jina_reply env n input = Ok (JinaData (f <$> input)).

(** The other session [sid'] is as it was. *)
Definition untouched (sid' : jsstring) (entry : option RedisEntry) (t0 : Z)
    (r : gmap jsstring RedisEntry) (t : Z) : Prop :=
  stamped r t /\ r !! getSessionKey sid' = entry /\ t = t0.

(** Collaborators of the further methods that never fail. *)
Definition stub_more : MoreEnv :=
  {| redis_keys_fault := fun _ => None;
     qdrant_retrieve_fault := fun _ => None;
     qdrant_delete_fault := fun _ => None;
     qdrant_getCollection_reply := fun _ =>
       Ok {| points_count := Some 3; info_status := Some (lit "green") |} |}.

(** Collaborators of the further methods that always fail. *)
Definition stub_more_down : MoreEnv :=
  {| redis_keys_fault := fun _ => Some (JsError (lit "Connection is closed."));
     qdrant_retrieve_fault := fun _ => Some (JsError (lit "fetch failed"));
     qdrant_delete_fault := fun _ => Some (JsError (lit "fetch failed"));
     qdrant_getCollection_reply := fun _ => Err (JsError (lit "fetch failed")) |}.

(** [stub_env] with Redis down. *)
Definition stub_env_down (answer : jsstring) : Env :=
  {| redis_fault := fun _ _ => Some (JsError (lit "Connection is closed."));
     jina_reply := jina_reply (stub_env answer);
     qdrant_search_reply := qdrant_search_reply (stub_env answer);
     qdrant_upsert_fault := qdrant_upsert_fault (stub_env answer);
     gemini_reply := gemini_reply (stub_env answer);
     uuidv4_value := uuidv4_value (stub_env answer) |}.

(** [stub_env] with the embedding provider answering 429. *)
Definition stub_env_limited (answer : jsstring) : Env :=
  {| redis_fault := redis_fault (stub_env answer);
     jina_reply := fun _ _ =>
       Err (AxiosError (lit "Request failed with status code 429") (Some 429)
              (Some (lit "Rate limit exceeded")));
     qdrant_search_reply := qdrant_search_reply (stub_env answer);
     qdrant_upsert_fault := qdrant_upsert_fault (stub_env answer);
     gemini_reply := gemini_reply (stub_env answer);
     uuidv4_value := uuidv4_value (stub_env answer) |}.

Definition other_article : DocumentChunk :=
  {| chunk_id := lit "d2"; chunk_content := lit "Clouds are...";
     metadata := {| source := lit "wire"; title := None; url := None;
                    meta_timestamp := None |};
     score := None |}.

(** The number of live sessions: of live keys that start with
    "chat:session:". *)
Definition liveSessions (w : World) : nat :=
  size (filter (matching (lit "chat:session:") (now w)) (redis w)).

(** Batches of at most [batchSize] texts, none empty and all full but the
    last. *)
Definition batched (batchSize : nat) (batches : list (list jsstring)) : Prop :=
  forall j batch, batches !! j = Some batch ->
    (0 < length batch <= batchSize)%nat /\
    (S j < length batches -> length batch = batchSize)%nat.

(** The point [upsertDocuments] stores for a document, given its vector. *)
Definition pointOf (v : list Q) (doc : DocumentChunk) : Point :=
  {| point_id := chunk_id doc; vector := v; point_content := chunk_content doc;
     point_metadata := metadata doc |}.

(** A text with no white space at either end. *)
Definition tight (s : jsstring) : Prop :=
  match s with [] => True | c :: _ => isWhiteSpace c = false end /\
  match reverse s with [] => True | c :: _ => isWhiteSpace c = false end.

(** The world after [n] identifiers were drawn. *)
Definition mint (n : nat) (w : World) : World := Nat.iter n next_uuid w.

(** The text of the first chunk of an article. *)
Definition titleText (article : NewsArticle) : jsstring :=
  article_title article ++ lit "

" ++ article_description article.

(** The sentences of a long content: its pieces between the runs of full
    stops, exclamation and question marks, without the blank ones. *)
Definition sentencesOf (content : jsstring) : list jsstring :=
  List.filter (fun s => (0 <? length (trim s))%nat) (splitMarks false [] content).

(** The texts of the chunks of one article, in order: the title and
    description; the content when it is longer than 100 code units; and for
    a content longer than 1000, packed chunks that put end to end are its
    sentences, each trimmed and closed by a full stop. *)
Definition chunkTexts (article : NewsArticle) (texts : list jsstring) : Prop :=
  exists rest,
    texts = titleText article :: rest /\
    match article_content article with
    | None => rest = []
    | Some content =>
        if (1000 <? length content)%nat then
          exists packed,
            rest = content :: packed /\
            concat packed = concat ((fun s => trim s ++ lit ".") <$> sentencesOf content) /\
            Forall (fun text => text <> [] /\ tight text) packed
        else if (100 <? length content)%nat then rest = [content]
        else rest = []
    end.

(** Chunks of an article added to [chunks] from the world [w]: their
    texts are [texts], their metadata the article's, their ids the next
    identifiers. *)
Definition added (env : Env) (article : NewsArticle) (texts : list jsstring) (w : World)
    (chunks chunks' : list DocumentChunk) (w' : World) : Prop :=
  exists new,
    chunks' = chunks ++ new /\ w' = mint (length new) w /\
    chunk_content <$> new = texts /\
    Forall (fun c => metadata c = articleMetadata article /\ score c = None) new /\
    chunk_id <$> new = (fun k => uuidv4_value env (uuids w + k)) <$> seq 0 (length new).

(** An article of sixty short sentences, 1380 code units long. *)
Definition long_article : NewsArticle :=
  {| article_title := lit "T"; article_description := lit "D"; article_url := lit "u";
     article_publishedAt := lit "p"; article_source := lit "s";
     article_content := Some (concat (replicate 60 (lit " Sentence number one!? "))) |}.

(** ** Vocabulary of the steps of a query *)

(** The vector [generateSingleEmbedding] makes of a reply of the embedding
    provider: the first embedding of a body of either shape, the empty
    vector when the body holds none; and no vector from an error or from a
    body without embeddings. *)
Definition embedded (reply : Result JinaBody) : option (list Q) :=
  match reply with
  | Ok (JinaData items) | Ok (JinaEmbeddings items) => Some (default [] (items !! 0%nat))
  | Ok JinaOther | Err _ => None
  end.

(** A reply of the generation provider that gives no answer: an error, or a
    blank text. *)
Definition unusable (reply : Result jsstring) : Prop :=
  match reply with
  | Ok text => blank text
  | Err _ => True
  end.

(** The error [processQuery] rejects with, around the error of the step
    that failed. *)
Definition queryError (e : Exn) : Exn :=
  AppError InternalServerError (lit "Failed to process chat query") 500
    (lit "INTERNAL_SERVER_ERROR") (Cause e).

(** The prompt of a query in the world [w] whose search returned [points]:
    the chunks of the points, the lines of the last ten messages of the
    history with the user's turn at its end, and the question. *)
Definition queryPrompt (env : Env) (sid msg : jsstring) (w : World)
    (points : list ScoredPoint) : jsstring :=
  systemPrompt (buildContext (withScore <$> (toSearchResult <$> points)))
    (join newline
       (renderMessage <$> slice_last 10 (history w sid ++ [userTurn env w msg])))
    msg.

(** One of the steps of a query that follow the append of the user's turn
    fails. The calls of a query are numbered from [length (trace w)]: the
    two commands of the append, the read of the session, then the
    embedding, the search and the generation. *)
Inductive laterStepFails (env : Env) (sid msg : jsstring) (lim : Z) (thr : Q) (w : World)
  : Prop :=
  | embedding_fails :
      embedded (jina_reply env (length (trace w) + 3) [take 8192 msg]) = None ->
      laterStepFails env sid msg lim thr w
  | retrieval_fails v e :
      embedded (jina_reply env (length (trace w) + 3) [take 8192 msg]) = Some v ->
      qdrant_search_reply env (length (trace w) + 4) v lim thr = Err e ->
      laterStepFails env sid msg lim thr w
  | generation_fails v points :
      embedded (jina_reply env (length (trace w) + 3) [take 8192 msg]) = Some v ->
      qdrant_search_reply env (length (trace w) + 4) v lim thr = Ok points ->
      unusable (gemini_reply env (length (trace w) + 5) (queryPrompt env sid msg w points)) ->
      laterStepFails env sid msg lim thr w.

(** * Properties *)

(** ** Strings *)

Example showNat_ten : showNat 10 = lit "10" /\ showNat 128 = lit "128".
Proof. split; reflexivity. Qed.

Example trim_spaces : trim (lit "  It is.
 ") = lit "It is." /\ trim [32; 160; 8233; 65279]%N = [].
Proof. split; reflexivity. Qed.

Example toUpperCase_role : toUpperCase (roleName assistant) = lit "ASSISTANT".
Proof. reflexivity. Qed.

Example slice_last_three : slice_last 2 [1; 2; 3]%nat = [2; 3]%nat /\
                           slice_last 5 [1; 2; 3]%nat = [1; 2; 3]%nat.
Proof. split; reflexivity. Qed.

Lemma trimStart_nil s : trimStart s = [] <-> blank s.
Proof.
  unfold blank. induction s as [| c s IH]; cbn.
  - split; [constructor | done].
  - destruct (isWhiteSpace c) eqn:E.
    + rewrite IH. split; [intros H; constructor; done |].
      intros H. apply Forall_cons in H as [_ H]. exact H.
    + split; [discriminate |]. intros H. apply Forall_cons in H as [H _]. congruence.
Qed.

Lemma trimStart_head s c rest : trimStart s = c :: rest -> isWhiteSpace c = false.
Proof.
  induction s as [| c' s IH]; cbn; [discriminate |].
  destruct (isWhiteSpace c') eqn:E; [exact IH |]. intros [= <- _]. exact E.
Qed.

(** [trim] leaves nothing exactly of the blank strings. *)
Lemma trim_nil s : trim s = [] <-> blank s.
Proof.
  unfold trim, trimEnd. split.
  - intros H. apply trimStart_nil.
    destruct (trimStart s) as [| c rest] eqn:E; [done |].
    apply (f_equal reverse) in H. rewrite reverse_involutive, reverse_nil in H.
    apply trimStart_nil in H. unfold blank in H.
    rewrite Forall_reverse in H. apply Forall_cons in H as [H _].
    apply trimStart_head in E. congruence.
  - intros H. apply trimStart_nil in H. rewrite H. reflexivity.
Qed.

(** ** The combinators *)

Section Combinators.

Context {R : World -> World -> Prop} (F : Frame R).

Lemma always_ret {A} (a : A) : always R (ret a).
Proof. intros w. apply (frame_refl R F). Qed.

Lemma always_throw {A} (e : Exn) : always R (@throw A e).
Proof. intros w. apply (frame_refl R F). Qed.

Lemma always_bind {A B} (m : M A) (k : A -> M B) :
  always R m -> (forall a, always R (k a)) -> always R (bind m k).
Proof.
  intros Hm Hk w. unfold bind. specialize (Hm w).
  destruct (m w) as [[a | e] w1]; cbn in *.
  - eapply (frame_trans R F); [exact Hm | apply Hk].
  - exact Hm.
Qed.

Lemma always_try_catch {A} (m : M A) (h : Exn -> M A) :
  always R m -> (forall e, always R (h e)) -> always R (try_catch m h).
Proof.
  intros Hm Hh w. unfold try_catch. specialize (Hm w).
  destruct (m w) as [[a | e] w1]; cbn in *.
  - exact Hm.
  - eapply (frame_trans R F); [exact Hm | apply Hh].
Qed.

Lemma always_logger l t a : always R (logger l t a).
Proof. intros w. apply (frame_log R F). Qed.

Lemma always_newDate : always R newDate.
Proof. intros w. apply (frame_refl R F). Qed.

Lemma always_uuidv4 env : always R (uuidv4 env).
Proof. intros w. apply (frame_uuid R F). Qed.

Lemma always_emit ev : (forall w, R w (add_event ev w)) -> always R (emit ev).
Proof. intros Hev w. apply Hev. Qed.

End Combinators.

Lemma always_weaken (R R' : World -> World -> Prop) {A} (m : M A) :
  (forall w w', R w w' -> R' w w') -> always R m -> always R' m.
Proof. intros H Hm w. apply H, Hm. Qed.

Lemma calls_frame P : Frame (calls P).
Proof.
  split.
  - intros w. unfold calls; cbn; split_and!; try done. exists []. rewrite app_nil_r. auto.
  - intros a b c (Hr & Hc & Hn & evs & Ht & Hp) (Hr' & Hc' & Hn' & evs' & Ht' & Hp').
    split_and!; try congruence.
    exists (evs ++ evs'). rewrite Ht', Ht, <- app_assoc. split; [done |].
    apply Forall_app; auto.
  - intros entry w. unfold calls; cbn; split_and!; try done. exists []. cbn. rewrite app_nil_r. auto.
  - intros w. unfold calls; cbn; split_and!; try done. exists []. cbn. rewrite app_nil_r. auto.
Qed.

Lemma emits_frame P : Frame (emits P).
Proof.
  split.
  - intros w. split; [done |]. exists []. rewrite app_nil_r. auto.
  - intros a b c (Hc & evs & Ht & Hp) (Hc' & evs' & Ht' & Hp').
    split; [congruence |].
    exists (evs ++ evs'). rewrite Ht', Ht, <- app_assoc. split; [done |].
    apply Forall_app; auto.
  - intros entry w. split; [done |]. exists []. cbn. rewrite app_nil_r. auto.
  - intros w. split; [done |]. exists []. cbn. rewrite app_nil_r. auto.
Qed.

Lemma keeps_frame J : Frame (keeps J).
Proof. split; unfold keeps; cbn; auto. Qed.

Lemma calls_emits P w w' : calls P w w' -> emits P w w'.
Proof. intros (_ & Hc & _ & H). split; auto. Qed.

Lemma calls_keeps P J w w' : calls P w w' -> keeps J w w'.
Proof. intros (Hr & _ & Hn & _). unfold keeps. rewrite Hr, Hn. auto. Qed.

Lemma calls_event P ev w : P ev -> calls P w (add_event ev w).
Proof. intros H. unfold calls; cbn; split_and!; try done. exists [ev]. cbn. auto. Qed.

Lemma emits_event P ev w : P ev -> emits P w (add_event ev w).
Proof. intros H. apply calls_emits, calls_event, H. Qed.

Lemma emits_set_redis P r w : emits P w (set_redis r w).
Proof. split; [done |]. exists []. cbn. rewrite app_nil_r. auto. Qed.

Lemma emits_elapse P d w : emits P w (elapse d w).
Proof. split; [done |]. exists []. cbn. rewrite app_nil_r. auto. Qed.

Ltac always_step F :=
  lazymatch goal with
  | |- always _ (bind _ _) => apply (always_bind F); [| intros ?]
  | |- always _ (try_catch _ _) => apply (always_try_catch F); [| intros ?]
  | |- always _ (ret _) => apply (always_ret F)
  | |- always _ (throw _) => apply (always_throw F)
  | |- always _ (logger _ _ _) => apply (always_logger F)
  | |- always _ newDate => apply (always_newDate F)
  | |- always _ (uuidv4 _) => apply (always_uuidv4 F)
  | |- always _ (match ?x with _ => _ end) => destruct x
  end.

Ltac always_steps F := cbv zeta; repeat always_step F.

(** ** The session store *)

Lemma live_add_event ev w key : live (add_event ev w) key = live w key.
Proof. reflexivity. Qed.

Lemma getSessionKey_inj a b : getSessionKey a = getSessionKey b -> a = b.
Proof. unfold getSessionKey. apply app_inv_head. Qed.

Section RedisFacts.

Context (env : Env).

Lemma always_redis_call {R} (F : Frame R) {A} c (run : M A) :
  (forall w, R w (add_event (RedisCall c) w)) ->
  always R run -> always R (redis_call env c run).
Proof.
  intros Hev Hrun w. unfold redis_call, bind, emit. cbn.
  destruct (redis_fault env (length (trace w)) (op_of c)); cbn.
  - apply Hev.
  - eapply (frame_trans R F); [apply Hev | apply Hrun].
Qed.

Lemma getSession_calls P sid :
  P (RedisCall (CmdGet (getSessionKey sid))) -> always (calls P) (getSession env sid).
Proof.
  intros HP. unfold getSession, client_get. always_steps (calls_frame P).
  apply (always_redis_call (calls_frame P)).
  - intros w. apply calls_event, HP.
  - intros w. apply (frame_refl _ (calls_frame P)).
Qed.

Lemma saveSession_emits P s :
  P (RedisCall (CmdSetex (getSessionKey (session_id s)) SESSION_TTL s)) ->
  always (emits P) (saveSession env s).
Proof.
  intros HP. unfold saveSession, client_setex. always_steps (emits_frame P).
  apply (always_redis_call (emits_frame P)).
  - intros w. apply emits_event, HP.
  - intros w. apply emits_set_redis.
Qed.

Lemma addMessageToSession_emits P sid m :
  (forall c, P (RedisCall c)) -> always (emits P) (addMessageToSession env sid m).
Proof.
  intros HP. unfold addMessageToSession. always_steps (emits_frame P).
  - apply (always_weaken (calls P)); [apply calls_emits | apply getSession_calls, HP].
  - apply saveSession_emits, HP.
  - apply saveSession_emits, HP.
Qed.

Lemma extendSessionTTL_emits P sid :
  (forall c, P (RedisCall c)) -> always (emits P) (extendSessionTTL env sid).
Proof.
  intros HP. unfold extendSessionTTL, client_expire. always_steps (emits_frame P).
  apply (always_redis_call (emits_frame P)).
  - intros w. apply emits_event, HP.
  - intros w. cbn. destruct (live w (getSessionKey sid)); cbn.
    + apply emits_set_redis.
    + apply (frame_refl _ (emits_frame P)).
Qed.

(** Without a fault, [getSession] returns the live record of the key. *)
Lemma getSession_run sid w :
  redis_fault env (length (trace w)) GET = None ->
  exists w', getSession env sid w = (Ok (entry_value <$> live w (getSessionKey sid)), w')
    /\ redis w' = redis w /\ now w' = now w
    /\ trace w' = trace w ++ [RedisCall (CmdGet (getSessionKey sid))].
Proof.
  intros H. unfold getSession, client_get, redis_call, try_catch, bind, emit. cbn.
  rewrite H. cbn. rewrite live_add_event.
  destruct (live w (getSessionKey sid)); cbn.
  all: eexists; split; [reflexivity |]; cbn; auto.
Qed.

Lemma saveSession_run s w :
  redis_fault env (length (trace w)) SETEX = None ->
  exists w', saveSession env s w = (Ok tt, w')
    /\ redis w' = <[getSessionKey (session_id s) :=
                     {| entry_value := s;
                        entry_expires := now w + SESSION_TTL * 1000 |}]> (redis w)
    /\ now w' = now w
    /\ trace w' = trace w ++
         [RedisCall (CmdSetex (getSessionKey (session_id s)) SESSION_TTL s)].
Proof.
  intros H. unfold saveSession, client_setex, redis_call, try_catch, bind, emit. cbn.
  rewrite H. cbn. eexists; split; [reflexivity |]; cbn; auto.
Qed.

(** Without a fault, [addMessageToSession] reads the session and writes
    [appended] back, for a full window. *)
Lemma addMessageToSession_run sid m w :
  redis_fault env (length (trace w)) GET = None ->
  redis_fault env (S (length (trace w))) SETEX = None ->
  exists w', addMessageToSession env sid m w = (Ok tt, w')
    /\ redis w' = <[getSessionKey (session_id (appended w sid m)) :=
                     {| entry_value := appended w sid m;
                        entry_expires := now w + SESSION_TTL * 1000 |}]> (redis w)
    /\ now w' = now w
    /\ trace w' = trace w ++
         [RedisCall (CmdGet (getSessionKey sid));
          RedisCall (CmdSetex (getSessionKey (session_id (appended w sid m)))
                       SESSION_TTL (appended w sid m))].
Proof.
  intros Hg Hs. unfold addMessageToSession.
  destruct (getSession_run sid w Hg) as (w1 & E1 & Hr1 & Hn1 & Ht1).
  unfold try_catch at 1. unfold bind at 1. rewrite E1.
  assert (Hs1 : redis_fault env (length (trace w1)) SETEX = None).
  { rewrite Ht1, length_app. cbn. rewrite Nat.add_1_r. exact Hs. }
  unfold appended.
  destruct (live w (getSessionKey sid)) as [e |]; cbn [fmap option_fmap option_map].
  - unfold bind at 1. unfold bind at 1. cbn [newDate].
    destruct (saveSession_run
                {| session_id := session_id (entry_value e);
                   messages := messages (entry_value e) ++ [m];
                   createdAt := createdAt (entry_value e);
                   updatedAt := now w1 |} w1 Hs1) as (w2 & E2 & Hr2 & Hn2 & Ht2).
    rewrite E2. unfold logger. cbn. eexists; split; [reflexivity |]. cbn.
    rewrite Hr2, Hn2, Ht2, Hr1, Hn1, Ht1. cbn. rewrite <- app_assoc. auto.
  - unfold bind at 1. unfold bind at 1. cbn [newDate]. unfold bind at 1. cbn [newDate].
    destruct (saveSession_run
                {| session_id := sid; messages := [m];
                   createdAt := now w1; updatedAt := now w1 |} w1 Hs1)
      as (w2 & E2 & Hr2 & Hn2 & Ht2).
    rewrite E2. unfold logger. cbn. eexists; split; [reflexivity |]. cbn.
    rewrite Hr2, Hn2, Ht2, Hr1, Hn1, Ht1. cbn. rewrite <- app_assoc. auto.
Qed.

(** Without a fault, [deleteSession] removes the key and tells whether it was
    live. *)
Lemma deleteSession_run sid w :
  redis_fault env (length (trace w)) DEL = None ->
  exists w', deleteSession env sid w
             = (Ok (bool_decide (is_Some (live w (getSessionKey sid)))), w')
    /\ redis w' = delete (getSessionKey sid) (redis w)
    /\ now w' = now w
    /\ trace w' = trace w ++ [RedisCall (CmdDel (getSessionKey sid))].
Proof.
  intros H. unfold deleteSession, client_del, redis_call, try_catch, bind, emit. cbn.
  rewrite H. cbn. rewrite live_add_event.
  destruct (live w (getSessionKey sid)); cbn.
  all: eexists; split; [reflexivity |]; cbn; auto.
Qed.

(** Whatever happens, [addMessageToSession] either returns with [appended]
    written back, or rejects with the store as it was. *)
Lemma addMessageToSession_store sid m w :
  let out := addMessageToSession env sid m w in
  now (snd out) = now w /\
  ((fst out = Ok tt /\
    redis (snd out) = <[getSessionKey (session_id (appended w sid m)) :=
                         {| entry_value := appended w sid m;
                            entry_expires := now w + SESSION_TTL * 1000 |}]> (redis w)) \/
   ((exists e, fst out = Err e) /\ redis (snd out) = redis w)).
Proof.
  unfold addMessageToSession, getSession, saveSession, client_get, client_setex,
    redis_call, try_catch, bind, emit, logger, newDate, update_world, ret, throw, appended.
  cbn.
  destruct (redis_fault env (length (trace w)) GET); cbn; [eauto |].
  rewrite live_add_event.
  destruct (live w (getSessionKey sid)); cbn;
    destruct (redis_fault env _ SETEX); cbn; eauto.
Qed.


(** Whatever happens, [extendSessionTTL] returns, and leaves the store as it
    was or with the expiry of the live session moved. *)
Lemma extendSessionTTL_store sid w :
  exists w', extendSessionTTL env sid w = (Ok tt, w') /\
  now w' = now w /\
  (redis w' = redis w \/
   exists e, live w (getSessionKey sid) = Some e /\
     redis w' = <[getSessionKey sid :=
                   {| entry_value := entry_value e;
                      entry_expires := now w + SESSION_TTL * 1000 |}]> (redis w)).
Proof.
  unfold extendSessionTTL, client_expire, redis_call, try_catch, bind, emit, logger,
    ret, throw.
  cbn.
  destruct (redis_fault env (length (trace w)) EXPIRE); cbn.
  - eexists; split; [reflexivity |]; cbn; auto.
  - rewrite live_add_event. destruct (live w (getSessionKey sid)) as [e |]; cbn.
    + eexists; split; [reflexivity |]; cbn; eauto.
    + eexists; split; [reflexivity |]; cbn; auto.
Qed.

End RedisFacts.

Lemma live_Some w key e :
  live w key = Some e <-> redis w !! key = Some e /\ now w < entry_expires e.
Proof.
  unfold live. destruct (redis w !! key) as [e' |].
  - destruct (Z.ltb_spec (now w) (entry_expires e')); split.
    + intros [= ->]. auto.
    + intros [[= ->] _]. auto.
    + discriminate.
    + intros [[= ->] ?]. lia.
  - split; [discriminate | intros [? _]; discriminate].
Qed.

Lemma appended_id w sid m : store_wf w -> session_id (appended w sid m) = sid.
Proof.
  intros Hwf. unfold appended.
  destruct (live w (getSessionKey sid)) as [e |] eqn:E; [| done].
  apply live_Some in E as [E _]. apply Hwf in E as [E _]. exact E.
Qed.

Lemma appended_messages w sid m : messages (appended w sid m) = history w sid ++ [m].
Proof. unfold appended, history. destruct (live w (getSessionKey sid)); done. Qed.

(** ** The store stays well formed *)

Lemma stamped_empty t : stamped ∅ t.
Proof. intros sid e H. rewrite lookup_empty in H. discriminate. Qed.

Lemma stamped_later r t d : 0 <= d -> stamped r t -> stamped r (t + d).
Proof. intros Hd H sid e E. apply H in E as [? ?]. split; [done | lia]. Qed.

Lemma addMessageToSession_stamped env sid m :
  always (keeps stamped) (addMessageToSession env sid m).
Proof.
  intros w Hwf.
  pose proof (appended_id w sid m Hwf) as Hid.
  destruct (addMessageToSession_store env sid m w) as [Hn [[_ Hr] | [_ Hr]]];
    rewrite Hn, Hr; [| exact Hwf].
  intros sid' e. rewrite Hid.
  destruct (decide (sid' = sid)) as [-> | Hne].
  - rewrite lookup_insert_eq. intros [= <-]. cbn. split; [exact Hid |].
    unfold appended. destruct (live w (getSessionKey sid)); cbn; lia.
  - rewrite lookup_insert_ne; [apply Hwf |].
    intros Heq. apply getSessionKey_inj in Heq. congruence.
Qed.

Lemma extendSessionTTL_stamped env sid :
  always (keeps stamped) (extendSessionTTL env sid).
Proof.
  intros w Hwf.
  destruct (extendSessionTTL_store env sid w) as (w' & E & Hn & Hr).
  rewrite E. cbn. rewrite Hn. destruct Hr as [-> | (e & El & ->)]; [exact Hwf |].
  apply live_Some in El as [El _].
  intros sid' e'. destruct (decide (sid' = sid)) as [-> | Hne].
  - rewrite lookup_insert_eq. intros [= <-]. cbn. apply Hwf, El.
  - rewrite lookup_insert_ne; [apply Hwf |].
    intros Heq. apply getSessionKey_inj in Heq. congruence.
Qed.

(** ** Append and get *)

Lemma s1_world_wf : store_wf s1_world.
Proof.
  intros sid e H. cbn in H.
  apply lookup_singleton_Some in H as [Hk <-].
  apply getSessionKey_inj in Hk. subst sid. cbn. split; [reflexivity | lia].
Qed.

(** C3. In a well-formed store, when the three Redis commands involved do
    not fail and less than the 24-hour window elapses in between,
    [addMessageToSession] followed by [getSession] returns a present session
    whose messages are the previous ones followed by the appended message;
    its [updatedAt] is at least that of the session a [getSession] before
    the append returns; if that earlier [getSession] returns none, the
    session is new and holds exactly the appended message; and the append
    writes the session back with [SETEX] for 24 * 60 * 60 seconds. *)
Theorem append_then_get env sid m w d :
  store_wf w ->
  redis_fault env (length (trace w)) GET = None ->
  redis_fault env (S (length (trace w))) SETEX = None ->
  redis_fault env (S (S (length (trace w)))) GET = None ->
  0 <= d < 24 * 60 * 60 * 1000 ->
  exists w1 w2 s,
    addMessageToSession env sid m w = (Ok tt, w1) /\
    getSession env sid (elapse d w1) = (Ok (Some s), w2) /\
    last (messages s) = Some m /\
    messages s = history w sid ++ [m] /\
    (forall old, fst (getSession env sid w) = Ok (Some old) ->
                 updatedAt old <= updatedAt s /\ createdAt s = createdAt old) /\
    (fst (getSession env sid w) = Ok None ->
     s = {| session_id := sid; messages := [m];
            createdAt := now w; updatedAt := now w |}) /\
    redis w1 !! getSessionKey sid
      = Some {| entry_value := s; entry_expires := now w + 24 * 60 * 60 * 1000 |} /\
    trace w1 = trace w ++ [RedisCall (CmdGet (getSessionKey sid));
                           RedisCall (CmdSetex (getSessionKey sid) (24 * 60 * 60) s)].
Proof.
  intros Hwf Hg Hs Hg' Hd.
  destruct (addMessageToSession_run env sid m w Hg Hs) as (w1 & E1 & Hr1 & Hn1 & Ht1).
  rewrite (appended_id w sid m Hwf) in Hr1, Ht1.
  assert (Hlook : redis w1 !! getSessionKey sid
                  = Some {| entry_value := appended w sid m;
                            entry_expires := now w + SESSION_TTL * 1000 |}).
  { rewrite Hr1. apply lookup_insert_eq. }
  assert (Hlive : live (elapse d w1) (getSessionKey sid)
                  = Some {| entry_value := appended w sid m;
                            entry_expires := now w + SESSION_TTL * 1000 |}).
  { apply live_Some. cbn. rewrite Hn1. split; [exact Hlook |].
    unfold SESSION_TTL. lia. }
  destruct (getSession_run env sid (elapse d w1)) as (w2 & E2 & _).
  { cbn. rewrite Ht1, length_app. cbn. rewrite Nat.add_comm. exact Hg'. }
  rewrite Hlive in E2. cbn in E2.
  exists w1, w2, (appended w sid m). split_and!; try done.
  - rewrite appended_messages. apply last_snoc.
  - apply appended_messages.
  - destruct (getSession_run env sid w Hg) as (w0 & E0 & _). rewrite E0. cbn.
    unfold appended. destruct (live w (getSessionKey sid)) as [e |] eqn:El; [| done].
    cbn. intros old [= <-]. split; [| done].
    apply live_Some in El as [El _]. apply Hwf in El as [_ El]. exact El.
  - destruct (getSession_run env sid w Hg) as (w0 & E0 & _). rewrite E0. cbn.
    unfold appended. destruct (live w (getSessionKey sid)) as [e |]; [discriminate | done].
Qed.

Lemma append_then_get_witness :
  exists w1 w2 s,
    addMessageToSession (stub_env []) (lit "s1") question s1_world = (Ok tt, w1) /\
    getSession (stub_env []) (lit "s1") (elapse 5000 w1) = (Ok (Some s), w2) /\
    last (messages s) = Some question /\
    messages s = history s1_world (lit "s1") ++ [question] /\
    (forall old, fst (getSession (stub_env []) (lit "s1") s1_world) = Ok (Some old) ->
                 updatedAt old <= updatedAt s /\ createdAt s = createdAt old) /\
    (fst (getSession (stub_env []) (lit "s1") s1_world) = Ok None ->
     s = {| session_id := lit "s1"; messages := [question];
            createdAt := now s1_world; updatedAt := now s1_world |}) /\
    redis w1 !! getSessionKey (lit "s1")
      = Some {| entry_value := s;
                entry_expires := now s1_world + 24 * 60 * 60 * 1000 |} /\
    trace w1 = trace s1_world ++
                 [RedisCall (CmdGet (getSessionKey (lit "s1")));
                  RedisCall (CmdSetex (getSessionKey (lit "s1")) (24 * 60 * 60) s)].
Proof.
  apply (append_then_get (stub_env []) (lit "s1") question s1_world 5000).
  - exact s1_world_wf.
  - reflexivity.
  - reflexivity.
  - reflexivity.
  - lia.
Defined.

(** ** Delete *)

(** C9. When the two [DEL] commands do not fail, [deleteSession] returns
    [true] exactly when the session is live at the call (a [getSession] at
    that point returns a session), and a later [deleteSession] of the same
    session returns [false], however much time has passed. *)
Theorem delete_true_once env sid w d :
  redis_fault env (length (trace w)) DEL = None ->
  redis_fault env (S (length (trace w))) DEL = None ->
  exists w1 w2,
    deleteSession env sid w
      = (Ok (bool_decide (is_Some (live w (getSessionKey sid)))), w1) /\
    (redis_fault env (length (trace w)) GET = None ->
     forall b, fst (deleteSession env sid w) = Ok b ->
               (b = true <-> exists s, fst (getSession env sid w) = Ok (Some s))) /\
    live w1 (getSessionKey sid) = None /\
    deleteSession env sid (elapse d w1) = (Ok false, w2).
Proof.
  intros H1 H2.
  destruct (deleteSession_run env sid w H1) as (w1 & E1 & Hr1 & Hn1 & Ht1).
  assert (Hgone : forall t, live (elapse t w1) (getSessionKey sid) = None).
  { intros t. unfold live. cbn. rewrite Hr1, lookup_delete_eq. done. }
  destruct (deleteSession_run env sid (elapse d w1)) as (w2 & E2 & _).
  { cbn. rewrite Ht1, length_app. cbn. rewrite Nat.add_comm. exact H2. }
  rewrite Hgone in E2.
  exists w1, w2. split_and!.
  - exact E1.
  - intros Hg b. rewrite E1. cbn. intros [= <-].
    destruct (getSession_run env sid w Hg) as (w0 & E0 & _). rewrite E0. cbn.
    destruct (live w (getSessionKey sid)) as [e |]; cbn.
    + split; eauto.
    + split; [discriminate | intros [s [=]]].
  - specialize (Hgone 0). unfold live in *. cbn in Hgone.
    rewrite Z.add_0_r in Hgone. exact Hgone.
  - exact E2.
Qed.

Lemma delete_true_once_witness :
  exists w1 w2,
    deleteSession (stub_env []) (lit "s1") s1_world
      = (Ok (bool_decide (is_Some (live s1_world (getSessionKey (lit "s1"))))), w1) /\
    (redis_fault (stub_env []) (length (trace s1_world)) GET = None ->
     forall b, fst (deleteSession (stub_env []) (lit "s1") s1_world) = Ok b ->
               (b = true <->
                exists s, fst (getSession (stub_env []) (lit "s1") s1_world) = Ok (Some s))) /\
    live w1 (getSessionKey (lit "s1")) = None /\
    deleteSession (stub_env []) (lit "s1") (elapse 10 w1) = (Ok false, w2).
Proof.
  apply (delete_true_once (stub_env []) (lit "s1") s1_world 10); reflexivity.
Defined.

(** ** Calls issued by the services *)

Section ServiceCalls.

Context (env : Env).

Lemma generateEmbeddings_calls P texts :
  P (JinaPost ((fun text => slice 0 8192 text) <$> texts)) ->
  always (calls P) (generateEmbeddings env texts).
Proof.
  intros HP. unfold generateEmbeddings, axios_post.
  always_steps (calls_frame P).
  apply always_emit. intros w. apply calls_event, HP.
Qed.

Lemma generateSingleEmbedding_calls P text :
  P (JinaPost [slice 0 8192 text]) ->
  always (calls P) (generateSingleEmbedding env text).
Proof.
  intros HP. unfold generateSingleEmbedding. always_steps (calls_frame P).
  apply generateEmbeddings_calls, HP.
Qed.

Lemma batchLoop_emits P fuel texts batchSize i results :
  (forall input, P (JinaPost input)) ->
  always (emits P) (batchLoop env fuel texts batchSize i results).
Proof.
  intros HP. revert i results.
  induction fuel as [| fuel IH]; intros i results; cbn [batchLoop].
  - apply (always_ret (emits_frame P)).
  - always_steps (emits_frame P).
    + apply (always_weaken (calls P)); [apply calls_emits |].
      apply generateEmbeddings_calls, HP.
    + intros w. apply emits_elapse.
    + apply IH.
Qed.

Lemma batchEmbeddings_emits P texts batchSize :
  (forall input, P (JinaPost input)) ->
  always (emits P) (batchEmbeddings env texts batchSize).
Proof.
  intros HP. unfold batchEmbeddings. always_steps (emits_frame P).
  apply batchLoop_emits, HP.
Qed.

Lemma searchSimilar_calls P v limit threshold :
  P (QdrantSearch v limit threshold) ->
  always (calls P) (searchSimilar env v limit threshold).
Proof.
  intros HP. unfold searchSimilar, client_search. always_steps (calls_frame P).
  apply always_emit. intros w. apply calls_event, HP.
Qed.

Lemma generateResponse_calls P userQuery chunks chatHistory :
  P (GeminiGenerate (systemPrompt (buildContext chunks) (formatChatHistory chatHistory)
                       userQuery)) ->
  always (calls P) (generateResponse env userQuery chunks chatHistory).
Proof.
  intros HP. unfold generateResponse, model_generateContent.
  always_steps (calls_frame P).
  apply always_emit. intros w. apply calls_event, HP.
Qed.

End ServiceCalls.

(** ** The stages of [processQuery] *)

Lemma processQuery_unfold env sid msg lim thr w :
  processQuery env sid msg lim thr w
  = try_catch (let* _ := addMessageToSession env sid (userTurn env w msg) in
               afterAppend env sid msg lim thr)
      (processQuery_catch sid) (next_uuid w).
Proof. reflexivity. Qed.

Lemma try_catch_bind_ok {A B} (m : M A) (k : A -> M B) h w a w1 :
  m w = (Ok a, w1) -> try_catch (bind m k) h w = try_catch (k a) h w1.
Proof. intros E. unfold try_catch, bind. rewrite E. reflexivity. Qed.

Lemma try_catch_bind_err {A B} (m : M A) (k : A -> M B) h w e w1 :
  m w = (Err e, w1) -> try_catch (bind m k) h w = h e w1.
Proof. intros E. unfold try_catch, bind. rewrite E. reflexivity. Qed.

Section Stages.

Context (env : Env).

Lemma answerFrom_emits P sid msg lim thr h :
  (forall c, P (RedisCall c)) ->
  P (JinaPost [slice 0 8192 msg]) ->
  (forall v, P (QdrantSearch v lim thr)) ->
  (forall chunks,
     P (GeminiGenerate (systemPrompt (buildContext chunks)
                          (formatChatHistory (slice_last 10 h)) msg))) ->
  always (emits P) (answerFrom env sid msg lim thr h).
Proof.
  intros Hr Hj Hq Hg. unfold answerFrom. always_steps (emits_frame P).
  - apply (always_weaken (calls P)); [apply calls_emits |].
    apply generateSingleEmbedding_calls, Hj.
  - apply (always_weaken (calls P)); [apply calls_emits |].
    apply searchSimilar_calls, Hq.
  - apply (always_weaken (calls P)); [apply calls_emits |].
    apply generateResponse_calls, Hg.
  - apply addMessageToSession_emits, Hr.
  - apply extendSessionTTL_emits, Hr.
Qed.

Lemma processQuery_catch_emits P sid e : always (emits P) (processQuery_catch sid e).
Proof. unfold processQuery_catch. always_steps (emits_frame P). Qed.

(** The calls of [processQuery]: Redis commands, one embedding of the
    truncated question, searches with the limit and the threshold it was
    given, and prompts built from some chunks and some history. *)
Lemma processQuery_emits P sid msg lim thr :
  (forall c, P (RedisCall c)) ->
  P (JinaPost [slice 0 8192 msg]) ->
  (forall v, P (QdrantSearch v lim thr)) ->
  (forall chunks h,
     P (GeminiGenerate (systemPrompt (buildContext chunks)
                          (formatChatHistory (slice_last 10 h)) msg))) ->
  always (emits P) (processQuery env sid msg lim thr).
Proof.
  intros Hr Hj Hq Hg w. rewrite processQuery_unfold.
  eapply (frame_trans _ (emits_frame P)); [apply (frame_uuid _ (emits_frame P)) |].
  generalize (userTurn env w msg). intros um. generalize (next_uuid w). clear w.
  change (always (emits P)
            (try_catch (let* _ := addMessageToSession env sid um in
                        afterAppend env sid msg lim thr) (processQuery_catch sid))).
  unfold afterAppend. always_steps (emits_frame P).
  - apply addMessageToSession_emits, Hr.
  - apply (always_weaken (calls P)); [apply calls_emits |].
    apply getSession_calls, Hr.
  - apply answerFrom_emits; auto.
  - apply processQuery_catch_emits.
Qed.

End Stages.

(** ** The last ten messages *)

Lemma slice_last_length {A} n (xs : list A) :
  length (slice_last n xs) = Nat.min n (length xs).
Proof. unfold slice_last. rewrite length_drop. lia. Qed.

Lemma slice_last_all {A} n (xs : list A) :
  (length xs <= n)%nat -> slice_last n xs = xs.
Proof.
  intros H. unfold slice_last. replace (length xs - n)%nat with 0%nat by lia. reflexivity.
Qed.

Lemma slice_last_idem {A} n (xs : list A) :
  slice_last n (slice_last n xs) = slice_last n xs.
Proof. apply slice_last_all. rewrite slice_last_length. lia. Qed.


Lemma formatChatHistory_recent h :
  h <> [] ->
  formatChatHistory (slice_last 10 h) = join newline (renderMessage <$> slice_last 10 h).
Proof.
  intros Hne. unfold formatChatHistory.
  rewrite bool_decide_false.
  - rewrite slice_last_idem. reflexivity.
  - rewrite slice_last_length. destruct h; [done |]. cbn [length]. lia.
Qed.

(** ** The steps of a query, one at a time *)

Section Steps.

Context (env : Env).

Lemma generateSingleEmbedding_step text w :
  match embedded (jina_reply env (length (trace w)) [take 8192 text]) with
  | Some v =>
      exists w', generateSingleEmbedding env text w = (Ok v, w') /\
                 trace w' = trace w ++ [JinaPost [take 8192 text]]
  | None =>
      exists e w', generateSingleEmbedding env text w = (Err e, w') /\
                   trace w' = trace w ++ [JinaPost [take 8192 text]]
  end.
Proof.
  assert (Hsent : (fun text => slice 0 8192 text) <$> [text] = [take 8192 text]).
  { cbn [fmap list_fmap]. unfold slice. rewrite Nat.sub_0_r. reflexivity. }
  revert Hsent. generalize (take 8192 text). intros cut Hsent.
  unfold generateSingleEmbedding, generateEmbeddings, axios_post, try_catch, emit, logger,
    ret, throw, bind.
  rewrite bool_decide_false by discriminate.
  rewrite Hsent. cbv beta iota.
  destruct (jina_reply env (length (trace w)) [cut]) as [[items | items |] | e]; cbn.
  - eexists. split; reflexivity.
  - eexists. split; reflexivity.
  - eexists _, _. split; reflexivity.
  - destruct e; eexists _, _; split; reflexivity.
Qed.

Lemma searchSimilar_step v limit threshold w :
  match qdrant_search_reply env (length (trace w)) v limit threshold with
  | Ok points =>
      exists w', searchSimilar env v limit threshold w = (Ok (toSearchResult <$> points), w') /\
                 trace w' = trace w ++ [QdrantSearch v limit threshold]
  | Err e =>
      exists w',
        searchSimilar env v limit threshold w
        = (Err (newInternalServerError (lit "Failed to search vector database") (Cause e)),
           w') /\
        trace w' = trace w ++ [QdrantSearch v limit threshold]
  end.
Proof.
  unfold searchSimilar, client_search, try_catch, emit, logger, ret, throw, bind.
  cbv beta iota.
  destruct (qdrant_search_reply env (length (trace w)) v limit threshold) as [points | e];
    cbn; eexists; split; reflexivity.
Qed.

Lemma generateResponse_step userQuery chunks chatHistory w :
  let prompt :=
    systemPrompt (buildContext chunks) (formatChatHistory chatHistory) userQuery in
  match gemini_reply env (length (trace w)) prompt with
  | Ok text =>
      match trim text with
      | [] =>
          exists w', generateResponse env userQuery chunks chatHistory w
                     = (Err emptyAnswerError, w') /\
                     trace w' = trace w ++ [GeminiGenerate prompt]
      | _ :: _ =>
          exists w', generateResponse env userQuery chunks chatHistory w
                     = (Ok (trim text), w') /\
                     trace w' = trace w ++ [GeminiGenerate prompt]
      end
  | Err _ =>
      exists e w', generateResponse env userQuery chunks chatHistory w = (Err e, w') /\
                   trace w' = trace w ++ [GeminiGenerate prompt]
  end.
Proof.
  intros prompt.
  unfold generateResponse, model_generateContent, try_catch, emit, logger, ret, throw, bind.
  cbv beta iota zeta. fold prompt. clearbody prompt.
  destruct (gemini_reply env (length (trace w)) prompt) as [text | e]; cbv beta iota.
  - destruct (trim text) as [| c rest] eqn:Etrim.
    + rewrite orb_true_r. cbn. eexists. split; reflexivity.
    + rewrite bool_decide_false.
      * cbn. eexists. split; reflexivity.
      * intros ->. discriminate Etrim.
  - destruct e; cbn; eexists _, _; split; reflexivity.
Qed.

(** The last steps of a query only add calls. *)
Lemma recordAnswer_emits sid responseText retrievedChunks :
  always (emits (fun _ => True))
    (try_catch
       (let* assistantMessageId := uuidv4 env in
        let* stamp' := newDate in
        let assistantMessage :=
          {| msg_id := assistantMessageId; role := assistant; content := responseText;
             timestamp := stamp' |} in
        let* _ := addMessageToSession env sid assistantMessage in
        let* _ := extendSessionTTL env sid in
        let* _ := logger LogDebug (lit "RAG Context:") None in
        ret {| message := responseText; response_session_id := sid;
               message_id := assistantMessageId; sources := retrievedChunks |})
       (processQuery_catch sid)).
Proof.
  always_steps (emits_frame (fun _ : Event => True)).
  - apply addMessageToSession_emits. done.
  - apply extendSessionTTL_emits. done.
  - apply processQuery_catch_emits.
Qed.

Lemma processQuery_catch_run sid e w :
  processQuery_catch sid e w
  = (Err (queryError e),
     add_log {| level := LogError;
                text := lit "Failed to process query for session " ++ sid ++ lit ":";
                attached := Some e |} w).
Proof. reflexivity. Qed.

(** The steps from the embedding on, call by call: the embedding of the
    question cut to 8192 code units, the search with the vector, the limit
    and the threshold, the prompt; a step that fails ends the query. *)
Lemma answerFrom_steps sid msg lim thr h w :
  let out := try_catch (answerFrom env sid msg lim thr h) (processQuery_catch sid) w in
  let n := length (trace w) in
  match embedded (jina_reply env n [take 8192 msg]) with
  | None =>
      (exists e, fst out = Err (queryError e)) /\
      trace (snd out) = trace w ++ [JinaPost [take 8192 msg]]
  | Some v =>
      match qdrant_search_reply env (S n) v lim thr with
      | Err _ =>
          (exists e, fst out = Err (queryError e)) /\
          trace (snd out) = trace w ++ [JinaPost [take 8192 msg]; QdrantSearch v lim thr]
      | Ok points =>
          let prompt :=
            systemPrompt (buildContext (withScore <$> (toSearchResult <$> points)))
              (formatChatHistory (slice_last 10 h)) msg in
          (exists rest,
              trace (snd out)
              = trace w ++ [JinaPost [take 8192 msg]; QdrantSearch v lim thr;
                            GeminiGenerate prompt] ++ rest) /\
          (unusable (gemini_reply env (S (S n)) prompt) ->
           exists e, fst out = Err (queryError e))
      end
  end.
Proof.
  intros out n. subst out n. unfold answerFrom.
  pose proof (generateSingleEmbedding_step msg w) as H1.
  revert H1. generalize (take 8192 msg). intros cut H1.
  destruct (embedded (jina_reply env (length (trace w)) [cut])) as [v |].
  2: { destruct H1 as (e & w1 & E1 & Ht1).
       rewrite (try_catch_bind_err _ _ _ _ _ _ E1), processQuery_catch_run. cbn.
       split; [eauto | exact Ht1]. }
  destruct H1 as (w1 & E1 & Ht1). rewrite (try_catch_bind_ok _ _ _ _ _ _ E1).
  pose proof (searchSimilar_step v lim thr w1) as H2.
  assert (Hn1 : length (trace w1) = S (length (trace w))).
  { rewrite Ht1, length_app. cbn. lia. }
  rewrite Hn1 in H2.
  destruct (qdrant_search_reply env (S (length (trace w))) v lim thr) as [points | e].
  2: { destruct H2 as (w2 & E2 & Ht2).
       rewrite (try_catch_bind_err _ _ _ _ _ _ E2), processQuery_catch_run. cbn.
       split; [eauto |]. rewrite Ht2, Ht1, <- app_assoc. reflexivity. }
  destruct H2 as (w2 & E2 & Ht2). rewrite (try_catch_bind_ok _ _ _ _ _ _ E2).
  cbv zeta.
  pose proof (generateResponse_step msg (withScore <$> (toSearchResult <$> points))
                (slice_last 10 h) w2) as H3.
  cbv zeta in H3.
  assert (Hn2 : length (trace w2) = S (S (length (trace w)))).
  { rewrite Ht2, length_app, Hn1. cbn. lia. }
  rewrite Hn2 in H3.
  revert H3.
  generalize (systemPrompt (buildContext (withScore <$> (toSearchResult <$> points)))
                (formatChatHistory (slice_last 10 h)) msg).
  intros prompt H3.
  assert (Ht' : forall w3, trace w3 = trace w2 ++ [GeminiGenerate prompt] ->
                  trace w3 = trace w ++ [JinaPost [cut]; QdrantSearch v lim thr;
                                         GeminiGenerate prompt]).
  { intros w3 ->. rewrite Ht2, Ht1, <- !app_assoc. reflexivity. }
  destruct (gemini_reply env (S (S (length (trace w)))) prompt) as [text | e].
  - destruct (trim text) as [| c rest] eqn:Etrim.
    + destruct H3 as (w3 & E3 & Ht3).
      rewrite (try_catch_bind_err _ _ _ _ _ _ E3), processQuery_catch_run. cbn.
      split; [exists []; apply Ht', Ht3 | eauto].
    + destruct H3 as (w3 & E3 & Ht3). rewrite (try_catch_bind_ok _ _ _ _ _ _ E3).
      split.
      * match goal with
        | |- context [try_catch ?m ?h w3] =>
            destruct (recordAnswer_emits sid (c :: rest)
                        (withScore <$> (toSearchResult <$> points)) w3)
              as (_ & rest' & Hrest & _)
        end.
        exists rest'. cbv zeta in Hrest. rewrite Hrest, (Ht' w3 Ht3), <- app_assoc.
        reflexivity.
      * intros Hblank. cbn in Hblank. apply trim_nil in Hblank. congruence.
  - destruct H3 as (e' & w3 & E3 & Ht3).
    rewrite (try_catch_bind_err _ _ _ _ _ _ E3), processQuery_catch_run. cbn.
    split; [exists []; apply Ht', Ht3 | eauto].
Qed.

(** The same from the call of [processQuery], when the append of the
    user's turn and the read that follows it do not fail. *)
Lemma processQuery_steps sid msg lim thr w :
  store_wf w ->
  redis_fault env (length (trace w)) GET = None ->
  redis_fault env (S (length (trace w))) SETEX = None ->
  redis_fault env (length (trace w) + 2) GET = None ->
  let out := processQuery env sid msg lim thr w in
  let n := length (trace w) in
  let key := getSessionKey sid in
  let head :=
    [RedisCall (CmdGet key);
     RedisCall (CmdSetex key SESSION_TTL (appended w sid (userTurn env w msg)));
     RedisCall (CmdGet key); JinaPost [take 8192 msg]] in
  match embedded (jina_reply env (n + 3) [take 8192 msg]) with
  | None =>
      (exists e, fst out = Err (queryError e)) /\ trace (snd out) = trace w ++ head
  | Some v =>
      match qdrant_search_reply env (n + 4) v lim thr with
      | Err _ =>
          (exists e, fst out = Err (queryError e)) /\
          trace (snd out) = trace w ++ head ++ [QdrantSearch v lim thr]
      | Ok points =>
          (exists rest,
              trace (snd out)
              = trace w ++ head ++ [QdrantSearch v lim thr;
                                    GeminiGenerate (queryPrompt env sid msg w points)]
                ++ rest) /\
          (unusable (gemini_reply env (n + 5) (queryPrompt env sid msg w points)) ->
           exists e, fst out = Err (queryError e))
      end
  end.
Proof.
  intros Hwf Hg Hs Hg2 out n key head. subst out n key head.
  set (um := userTurn env w msg).
  assert (Hwf0 : store_wf (next_uuid w)) by exact Hwf.
  rewrite processQuery_unfold. fold um.
  destruct (addMessageToSession_run env sid um (next_uuid w) Hg Hs)
    as (w1 & E1 & Hr1 & Hn1 & Ht1).
  rewrite (appended_id _ sid um Hwf0) in Hr1, Ht1.
  change (appended (next_uuid w) sid um) with (appended w sid um) in Hr1, Ht1.
  change (trace (next_uuid w)) with (trace w) in Ht1.
  change (now (next_uuid w)) with (now w) in Hr1, Hn1.
  change (redis (next_uuid w)) with (redis w) in Hr1.
  rewrite (try_catch_bind_ok _ _ _ _ _ _ E1). unfold afterAppend.
  assert (Hlen1 : length (trace w1) = (length (trace w) + 2)%nat).
  { rewrite Ht1, length_app. cbn. lia. }
  destruct (getSession_run env sid w1) as (w2 & E2 & Hr2 & Hn2 & Ht2);
    [rewrite Hlen1; exact Hg2 |].
  assert (Hlive : live w1 (getSessionKey sid)
                  = Some {| entry_value := appended w sid um;
                            entry_expires := now w + SESSION_TTL * 1000 |}).
  { apply live_Some. rewrite Hr1, lookup_insert_eq. split; [done |]. cbn.
    rewrite Hn1. unfold SESSION_TTL. lia. }
  rewrite Hlive in E2. cbn [fmap option_fmap option_map entry_value] in E2.
  rewrite (try_catch_bind_ok _ _ _ _ _ _ E2). rewrite (appended_messages w sid um).
  assert (Hlen2 : length (trace w2) = (length (trace w) + 3)%nat).
  { rewrite Ht2, length_app, Hlen1. cbn. lia. }
  assert (Htr2 : trace w2 = trace w ++ [RedisCall (CmdGet (getSessionKey sid));
                                         RedisCall (CmdSetex (getSessionKey sid) SESSION_TTL
                                                      (appended w sid um));
                                         RedisCall (CmdGet (getSessionKey sid))]).
  { rewrite Ht2, Ht1, <- app_assoc. reflexivity. }
  pose proof (answerFrom_steps sid msg lim thr (history w sid ++ [um]) w2) as Hsteps.
  cbv zeta in Hsteps. rewrite Hlen2 in Hsteps.
  replace (S (length (trace w) + 3)) with (length (trace w) + 4)%nat in Hsteps by lia.
  replace (S (length (trace w) + 4)) with (length (trace w) + 5)%nat in Hsteps by lia.
  rewrite formatChatHistory_recent in Hsteps
    by (intros Heq; apply app_eq_nil in Heq as [_ [=]]).
  fold um in Hsteps. unfold queryPrompt. fold um.
  revert Hsteps. generalize (take 8192 msg). intros cut Hsteps.
  destruct (embedded (jina_reply env (length (trace w) + 3) [cut])) as [v |].
  - destruct (qdrant_search_reply env (length (trace w) + 4) v lim thr) as [points | e].
    + destruct Hsteps as [(rest & Hrest) Hfail]. split; [| exact Hfail].
      exists rest. rewrite Hrest, Htr2, <- !app_assoc. reflexivity.
    + destruct Hsteps as [Herr Htr]. split; [exact Herr |].
      rewrite Htr, Htr2, <- !app_assoc. reflexivity.
  - destruct Hsteps as [Herr Htr]. split; [exact Herr |].
    rewrite Htr, Htr2, <- !app_assoc. reflexivity.
Qed.

(** A failing read of the session after the append ends the query. *)
Lemma processQuery_read_fails sid msg lim thr w e :
  redis_fault env (length (trace w)) GET = None ->
  redis_fault env (S (length (trace w))) SETEX = None ->
  redis_fault env (length (trace w) + 2) GET = Some e ->
  exists e', fst (processQuery env sid msg lim thr w) = Err (queryError e').
Proof.
  intros Hg Hs Hg2. rewrite processQuery_unfold.
  destruct (addMessageToSession_run env sid (userTurn env w msg) (next_uuid w) Hg Hs)
    as (w1 & E1 & _ & _ & Ht1).
  rewrite (try_catch_bind_ok _ _ _ _ _ _ E1). unfold afterAppend.
  assert (Hlen1 : length (trace w1) = (length (trace w) + 2)%nat).
  { rewrite Ht1, length_app. cbn. lia. }
  assert (E2 : exists e2 w2, getSession env sid w1 = (Err e2, w2)).
  { unfold getSession, client_get, redis_call, try_catch, emit, logger, throw, bind.
    cbn. rewrite Hlen1, Hg2. cbn. eauto. }
  destruct E2 as (e2 & w2 & E2).
  rewrite (try_catch_bind_err _ _ _ _ _ _ E2), processQuery_catch_run. cbn. eauto.
Qed.

(** Whenever one of the steps that follow the append fails, the query
    rejects with its error. *)
Lemma processQuery_aborts sid msg lim thr w :
  store_wf w ->
  redis_fault env (length (trace w)) GET = None ->
  redis_fault env (S (length (trace w))) SETEX = None ->
  laterStepFails env sid msg lim thr w ->
  exists e, fst (processQuery env sid msg lim thr w) = Err (queryError e).
Proof.
  intros Hwf Hg Hs Hfail.
  destruct (redis_fault env (length (trace w) + 2) GET) as [e |] eqn:Hg2.
  { exact (processQuery_read_fails sid msg lim thr w e Hg Hs Hg2). }
  pose proof (processQuery_steps sid msg lim thr w Hwf Hg Hs Hg2) as Hsteps.
  cbv zeta in Hsteps.
  destruct Hfail as [He | v e He Hq | v points He Hq Hu].
  - rewrite He in Hsteps. apply Hsteps.
  - rewrite He, Hq in Hsteps. apply Hsteps.
  - rewrite He, Hq in Hsteps. apply Hsteps, Hu.
Qed.

(** The calls of [searchSimilarDocuments]: the embedding of the query, then
    the search with the limit and the threshold it was given. *)
Lemma searchSimilarDocuments_steps query limit threshold w v :
  embedded (jina_reply env (length (trace w)) [take 8192 query]) = Some v ->
  trace (snd (searchSimilarDocuments env query limit threshold w))
  = trace w ++ [JinaPost [take 8192 query]; QdrantSearch v limit threshold].
Proof.
  intros He. unfold searchSimilarDocuments.
  pose proof (generateSingleEmbedding_step query w) as H1. rewrite He in H1.
  destruct H1 as (w1 & E1 & Ht1).
  pose proof (searchSimilar_step v limit threshold w1) as H2.
  unfold try_catch, bind at 1. rewrite E1.
  destruct (qdrant_search_reply env (length (trace w1)) v limit threshold) as [points | e];
    destruct H2 as (w2 & E2 & Ht2); rewrite E2; cbn;
    rewrite Ht2, Ht1, <- app_assoc; reflexivity.
Qed.

End Steps.

(** ** The bounds imposed at the HTTP boundary *)

Lemma searchSimilarDocuments_emits env P query limit threshold :
  P (JinaPost [slice 0 8192 query]) ->
  (forall v, P (QdrantSearch v limit threshold)) ->
  always (emits P) (searchSimilarDocuments env query limit threshold).
Proof.
  intros Hj Hq. unfold searchSimilarDocuments. always_steps (emits_frame P).
  - apply (always_weaken (calls P)); [apply calls_emits |].
    apply generateSingleEmbedding_calls, Hj.
  - apply (always_weaken (calls P)); [apply calls_emits |].
    apply searchSimilar_calls, Hq.
Qed.

Lemma snd_respond {A} (m : M A) w : snd (respond m w) = snd (m w).
Proof. unfold respond. destruct (m w) as [[a | e] w']; reflexivity. Qed.

Lemma checkValidation_emits P errors : always (emits P) (checkValidation errors).
Proof. unfold checkValidation. always_steps (emits_frame P). Qed.

Lemma searchDocuments_trace env req w :
  search_errors req = [] ->
  trace (snd (searchDocuments env req w))
  = trace (snd (searchSimilarDocuments env (req_query req)
                  (Z.min (default 10 (req_limit req)) 20)
                  (Qmax (default double_0_6 (req_threshold req)) double_0_3) w)).
Proof.
  intros Hv. unfold searchDocuments, respond, checkValidation, bind, ret. cbv zeta.
  rewrite bool_decide_true by exact Hv.
  match goal with
  | |- context [searchSimilarDocuments env ?q ?l ?t w] =>
      destruct (searchSimilarDocuments env q l t w) as [[rs | e] w1]
  end; reflexivity.
Qed.

Lemma chat_trace env req w :
  chat_errors req = [] ->
  trace (snd (chat env req w))
  = trace (snd (processQuery env (req_session_id req) (req_user_message req) 5
                  double_0_7 w)).
Proof.
  intros Hv. unfold chat, respond, checkValidation, bind, logger, ret.
  rewrite bool_decide_true by exact Hv.
  destruct (processQuery env (req_session_id req) (req_user_message req) 5 double_0_7 w)
    as [[resp | e] w1]; reflexivity.
Qed.

(** The fifth call of a query is the search, with the vector of the
    question and the limit and the threshold [processQuery] was given. *)
Lemma processQuery_searches env sid msg lim thr w v :
  store_wf w ->
  redis_fault env (length (trace w)) GET = None ->
  redis_fault env (S (length (trace w))) SETEX = None ->
  redis_fault env (length (trace w) + 2) GET = None ->
  embedded (jina_reply env (length (trace w) + 3) [take 8192 msg]) = Some v ->
  exists evs,
    trace (snd (processQuery env sid msg lim thr w)) = trace w ++ evs /\
    evs !! 4%nat = Some (QdrantSearch v lim thr).
Proof.
  intros Hwf Hg Hs Hg2 He.
  pose proof (processQuery_steps env sid msg lim thr w Hwf Hg Hs Hg2) as Hsteps.
  cbv zeta in Hsteps. rewrite He in Hsteps. revert Hsteps.
  generalize (take 8192 msg). intros cut Hsteps.
  destruct (qdrant_search_reply env (length (trace w) + 4) v lim thr) as [points | e].
  - destruct Hsteps as [(rest & Hrest) _]. eexists. split; [exact Hrest | reflexivity].
  - destruct Hsteps as [_ Htr]. eexists. split; [exact Htr | reflexivity].
Qed.

(** C6. The cap and the floor are those of the handler [searchDocuments],
    and of no other place. Whatever limit and threshold a request carries
    (or omits), every search the handler [searchDocuments] issues to the
    vector store carries the limit [min(limit, 20)] and the threshold
    [max(threshold, 0.3)], hence a limit of at most 20 and a threshold of at
    least 0.3, and it does issue this search, right after the embedding of
    the query, when the request is valid and the embedding provider gives a
    vector. Every search the handler [chat] issues carries the limit 5 and
    the threshold 0.7, the defaults of [processQuery], and it is the fifth
    call of a valid request when the calls before it succeed. The methods
    [processQuery] and [searchSimilarDocuments] of the service pass the
    limit and the threshold they are given to the search as they are,
    whatever their values. *)
Theorem search_bounded_at_boundary env w :
  (forall req, exists evs,
      trace (snd (searchDocuments env req w)) = trace w ++ evs /\
      Forall (searchedWith (Z.min (default 10 (req_limit req)) 20)
                (Qmax (default double_0_6 (req_threshold req)) double_0_3)) evs /\
      Forall searchBounded evs /\
      (search_errors req = [] ->
       forall v,
         embedded (jina_reply env (length (trace w)) [take 8192 (req_query req)]) = Some v ->
         evs = [JinaPost [take 8192 (req_query req)];
                QdrantSearch v (Z.min (default 10 (req_limit req)) 20)
                  (Qmax (default double_0_6 (req_threshold req)) double_0_3)])) /\
  (forall req, exists evs,
      trace (snd (chat env req w)) = trace w ++ evs /\
      Forall (searchedWith 5 double_0_7) evs /\
      Forall searchBounded evs /\
      (chat_errors req = [] ->
       store_wf w ->
       redis_fault env (length (trace w)) GET = None ->
       redis_fault env (S (length (trace w))) SETEX = None ->
       redis_fault env (length (trace w) + 2) GET = None ->
       forall v,
         embedded (jina_reply env (length (trace w) + 3) [take 8192 (req_user_message req)])
         = Some v ->
         evs !! 4%nat = Some (QdrantSearch v 5 double_0_7))) /\
  (forall sid msg lim thr v,
      store_wf w ->
      redis_fault env (length (trace w)) GET = None ->
      redis_fault env (S (length (trace w))) SETEX = None ->
      redis_fault env (length (trace w) + 2) GET = None ->
      embedded (jina_reply env (length (trace w) + 3) [take 8192 msg]) = Some v ->
      exists evs,
        trace (snd (processQuery env sid msg lim thr w)) = trace w ++ evs /\
        evs !! 4%nat = Some (QdrantSearch v lim thr)) /\
  (forall query lim thr v,
      embedded (jina_reply env (length (trace w)) [take 8192 query]) = Some v ->
      trace (snd (searchSimilarDocuments env query lim thr w))
      = trace w ++ [JinaPost [take 8192 query]; QdrantSearch v lim thr]).
Proof.
  split_and!.
  - intros req.
    set (l := Z.min (default 10 (req_limit req)) 20).
    set (t := Qmax (default double_0_6 (req_threshold req)) double_0_3).
    set (P := fun ev => searchedWith l t ev /\ searchBounded ev).
    assert (H : exists evs, trace (snd (searchDocuments env req w)) = trace w ++ evs /\
                            Forall P evs).
    { unfold searchDocuments. rewrite snd_respond. cbv zeta. fold l t.
      match goal with
      | |- context [snd (?m w)] => assert (H : always (emits P) m)
      end.
      { always_steps (emits_frame P).
        - apply checkValidation_emits.
        - apply searchSimilarDocuments_emits; [done |].
          intros v. split; [done |]. split; [apply Z.le_min_r | apply Q.le_max_r]. }
      destruct (H w) as (_ & evs & Ht & Hp). exists evs. done. }
    destruct H as (evs & Ht & Hp).
    exists evs. split; [exact Ht |]. apply Forall_and in Hp.
    split; [apply Hp |]. split; [apply Hp |].
    intros Hv v He. rewrite (searchDocuments_trace env req w Hv) in Ht. fold l t in Ht.
    rewrite (searchSimilarDocuments_steps env (req_query req) l t w v He) in Ht.
    apply app_inv_head in Ht. symmetry. exact Ht.
  - intros req.
    set (P := fun ev => searchedWith 5 double_0_7 ev /\ searchBounded ev).
    assert (H : exists evs, trace (snd (chat env req w)) = trace w ++ evs /\ Forall P evs).
    { unfold chat. rewrite snd_respond.
      match goal with
      | |- context [snd (?m w)] => assert (H : always (emits P) m)
      end.
      { always_steps (emits_frame P).
        - apply checkValidation_emits.
        - apply processQuery_emits; done. }
      destruct (H w) as (_ & evs & Ht & Hp). exists evs. done. }
    destruct H as (evs & Ht & Hp).
    exists evs. split; [exact Ht |]. apply Forall_and in Hp.
    split; [apply Hp |]. split; [apply Hp |].
    intros Hv Hwf Hg Hs Hg2 v He. rewrite (chat_trace env req w Hv) in Ht.
    destruct (processQuery_searches env (req_session_id req) (req_user_message req) 5
                double_0_7 w v Hwf Hg Hs Hg2 He) as (evs' & Ht' & Hsearch).
    rewrite Ht' in Ht. apply app_inv_head in Ht. rewrite <- Ht. exact Hsearch.
  - intros sid msg lim thr v. apply processQuery_searches.
  - intros query lim thr v. apply searchSimilarDocuments_steps.
Qed.

Lemma search_bounded_at_boundary_witness :
  let req := {| search_errors := []; req_query := lit "What is AI?";
                req_limit := Some 50; req_threshold := Some (1 # 10) |} in
  exists evs,
    trace (snd (searchDocuments (stub_env (lit "It is.")) req empty_world))
    = trace empty_world ++ evs /\
    evs = [JinaPost [take 8192 (lit "What is AI?")]; QdrantSearch [1%Q] 20 double_0_3].
Proof.
  intros req.
  destruct (search_bounded_at_boundary (stub_env (lit "It is.")) empty_world)
    as (Hsearch & _).
  destruct (Hsearch req) as (evs & Ht & _ & _ & Hevs).
  exists evs. split; [exact Ht |].
  rewrite (Hevs eq_refl [1%Q] eq_refl). reflexivity.
Defined.

(** The service does not bound what it is given: [processQuery] called with
    the limit 100 and the threshold 0.1 searches with them, and
    [searchSimilarDocuments] called with the threshold 0 searches with it. *)
Lemma search_not_bounded_by_service :
  ~ Forall searchBounded
      (trace (snd (processQuery (stub_env (lit "It is.")) (lit "s1") (lit "What is AI?")
                     100 (1 # 10) empty_world))) /\
  ~ Forall searchBounded
      (trace (snd (searchSimilarDocuments (stub_env (lit "It is.")) (lit "What is AI?")
                     5 0 empty_world))).
Proof.
  split; intros H.
  - apply (Forall_lookup_1 _ _ 4 (QdrantSearch [1%Q] 100 (1 # 10))) in H;
      [| vm_compute; reflexivity].
    destruct H as [H _]. lia.
  - apply (Forall_lookup_1 _ _ 1 (QdrantSearch [1%Q] 5 0)) in H;
      [| vm_compute; reflexivity].
    destruct H as [_ H]. vm_compute in H. apply H. reflexivity.
Qed.

(** ** Context assembly *)

Lemma renderArticle_labeled i chunk : renderArticle i chunk = labeledArticle i chunk.
Proof.
  unfold renderArticle, labeledArticle, articleLabel, articleLink, articleStamp,
    orString, present.
  destruct (title (metadata chunk)) as [[| ? ?] |];
    destruct (source (metadata chunk)) as [| ? ?];
    destruct (url (metadata chunk)) as [[| ? ?] |];
    destruct (meta_timestamp (metadata chunk)) as [[| ? ?] |]; reflexivity.
Qed.

Lemma join_cons sep p rest :
  join sep (p :: rest) = p ++ match rest with [] => [] | _ => sep ++ join sep rest end.
Proof. destruct rest; cbn; [rewrite app_nil_r |]; reflexivity. Qed.

Lemma buildContext_starts c cs : exists rest, buildContext (c :: cs) = 10%N :: rest.
Proof.
  unfold buildContext. cbn [length bool_decide decide_rel]. rewrite bool_decide_false by done.
  cbn [imap]. rewrite join_cons, renderArticle_labeled. eexists. reflexivity.
Qed.

(** C5. [buildContext] is a function of the chunk sequence alone. For the
    empty sequence it returns the sentence "No relevant articles found for
    this query."; it never returns the empty string, and returns that
    sentence for the empty sequence only. For a non-empty sequence it
    returns the articles of the chunks, joined by line breaks, in the order
    of the input: the article of the chunk at position [i] is numbered
    [i + 1], labeled with the title (or else the source, or else "Unknown
    Source"), followed by the URL and the timestamp when present, and by the
    content. *)
Theorem buildContext_spec (chunks : list DocumentChunk) :
  buildContext [] = lit "No relevant articles found for this query." /\
  buildContext chunks <> [] /\
  (buildContext chunks = buildContext [] <-> chunks = []) /\
  (chunks <> [] ->
   buildContext chunks = join newline (imap labeledArticle chunks) /\
   length (imap labeledArticle chunks) = length chunks /\
   forall i c, chunks !! i = Some c ->
               imap labeledArticle chunks !! i = Some (labeledArticle i c)).
Proof.
  split_and!.
  - reflexivity.
  - destruct chunks as [| c cs]; [discriminate |].
    destruct (buildContext_starts c cs) as [rest ->]. discriminate.
  - split; [| intros ->; reflexivity].
    destruct chunks as [| c cs]; [done |].
    destruct (buildContext_starts c cs) as [rest ->]. discriminate.
  - intros Hne. split_and!.
    + unfold buildContext. rewrite bool_decide_false.
      * f_equal. apply imap_ext. intros i c _. apply renderArticle_labeled.
      * destruct chunks; [done | discriminate].
    + apply length_imap.
    + intros i c Hc. rewrite list_lookup_imap, Hc. reflexivity.
Qed.

Lemma buildContext_spec_witness :
  buildContext [article; article]
  = join newline (imap labeledArticle [article; article]) /\
  length (imap labeledArticle [article; article]) = length [article; article] /\
  forall i c, [article; article] !! i = Some c ->
              imap labeledArticle [article; article] !! i = Some (labeledArticle i c).
Proof.
  destruct (buildContext_spec [article; article]) as (_ & _ & _ & H).
  apply H. discriminate.
Defined.

Example buildContext_article :
  buildContext [article] = lit "
Article 1: On AI (http://x)
Content: AI is...
---".
Proof. reflexivity. Qed.

(** ** Embeddings *)

Lemma slice_0 {A} n (xs : list A) : slice 0 n xs = take n xs.
Proof. unfold slice. rewrite Nat.sub_0_r. reflexivity. Qed.

(** C10. [generateEmbeddings] on the empty sequence returns the empty
    sequence and leaves the world as it is: no call, no log entry. On a
    non-empty sequence it issues exactly one call to the embedding provider,
    whose input is the sequence of the texts cut to their first 8192 code
    units (shorter texts are sent whole); an over-length text is not
    rejected: when the provider answers the truncated input with
    embeddings, these are returned. *)
Theorem generateEmbeddings_truncates env texts w :
  generateEmbeddings env [] w = (Ok [], w) /\
  (texts <> [] ->
   let sent := (fun text => take 8192 text) <$> texts in
   trace (snd (generateEmbeddings env texts w)) = trace w ++ [JinaPost sent] /\
   Forall2 (fun text cut => cut `prefix_of` text /\
                            length cut = Nat.min 8192 (length text)) texts sent /\
   (forall items, jina_reply env (length (trace w)) sent = Ok (JinaData items) ->
                  fst (generateEmbeddings env texts w) = Ok items) /\
   (forall embeddings, jina_reply env (length (trace w)) sent = Ok (JinaEmbeddings embeddings) ->
                  fst (generateEmbeddings env texts w) = Ok embeddings)).
Proof.
  split; [reflexivity |].
  intros Hne sent.
  assert (Hsent : (fun text => slice 0 8192 text) <$> texts = sent).
  { apply list_fmap_ext. intros i x _. apply slice_0. }
  assert (Hcut : Forall2 (fun text cut => cut `prefix_of` text /\
                            length cut = Nat.min 8192 (length text)) texts sent).
  { subst sent. apply Forall2_fmap_r, Forall_Forall2_diag, Forall_true.
    intros text. split; [apply prefix_take | apply length_take]. }
  split_and!; [| exact Hcut | |]; clear Hcut; clearbody sent;
    unfold generateEmbeddings, axios_post, try_catch, bind, emit, logger, ret, throw;
    rewrite bool_decide_false by (destruct texts; [done | discriminate]);
    rewrite Hsent; cbn.
  - destruct (jina_reply env (length (trace w)) sent) as [[items | embeddings |] | e]; cbn.
    1-3: reflexivity.
    destruct e; reflexivity.
  - intros items ->. reflexivity.
  - intros embeddings ->. reflexivity.
Qed.

Lemma generateEmbeddings_truncates_witness :
  let texts := [replicate 9000 97%N; lit "short"] in
  let sent := (fun text => take 8192 text) <$> texts in
  trace (snd (generateEmbeddings (stub_env []) texts empty_world))
  = trace empty_world ++ [JinaPost sent] /\
  Forall2 (fun text cut => cut `prefix_of` text /\
                           length cut = Nat.min 8192 (length text)) texts sent /\
  (forall items,
     jina_reply (stub_env []) (length (trace empty_world)) sent = Ok (JinaData items) ->
     fst (generateEmbeddings (stub_env []) texts empty_world) = Ok items) /\
  (forall embeddings,
     jina_reply (stub_env []) (length (trace empty_world)) sent
     = Ok (JinaEmbeddings embeddings) ->
     fst (generateEmbeddings (stub_env []) texts empty_world) = Ok embeddings).
Proof.
  destruct (generateEmbeddings_truncates (stub_env [])
              [replicate 9000 97%N; lit "short"] empty_world) as [_ H].
  apply H. discriminate.
Defined.

(** ** Batch indexing *)

(** The error [upsertDocuments] rejects with on a count mismatch. *)
Lemma upsertDocuments_mismatch env documents embeddings w :
  length documents <> length embeddings ->
  exists w',
    upsertDocuments env documents embeddings w
    = (Err (newInternalServerError (lit "Failed to store documents in vector database")
              (Cause (JsError
                 (lit "Documents and embeddings arrays must have the same length")))), w')
    /\ trace w' = trace w /\ collection w' = collection w.
Proof.
  intros Hne. unfold upsertDocuments, try_catch, bind, logger, throw.
  rewrite bool_decide_true by exact Hne. cbn.
  eexists. split; [reflexivity |]. cbn. auto.
Qed.

(** C4. When the count of documents differs from the count of embeddings,
    [upsertDocuments] rejects at once, with no call to the vector store and
    the collection as it was; and [indexDocuments], when the embeddings
    [batchEmbeddings] returns are not as many as the documents, rejects
    without any upsert call, the collection unchanged. In both cases the
    error is an [InternalServerError] (status 500), not a
    [ValidationError]. *)
Theorem indexDocuments_mismatch env documents w :
  (forall embeddings,
     length documents <> length embeddings ->
     exists e w',
       upsertDocuments env documents embeddings w = (Err e, w') /\
       errorClass e = Some InternalServerError /\
       trace w' = trace w /\ collection w' = collection w) /\
  (forall embeddings w1,
     batchEmbeddings env (chunk_content <$> documents) 10 w = (Ok embeddings, w1) ->
     length documents <> length embeddings ->
     exists w',
       indexDocuments env documents w
       = (Err (AppError InternalServerError (lit "Failed to index documents") 500
                 (lit "INTERNAL_SERVER_ERROR")
                 (Cause (AppError InternalServerError
                           (lit "Failed to store documents in vector database") 500
                           (lit "INTERNAL_SERVER_ERROR")
                           (Cause (JsError
                              (lit "Documents and embeddings arrays must have the same length")))))),
          w') /\
       collection w' = collection w /\
       exists evs, trace w' = trace w ++ evs /\ Forall (fun ev => ~ isUpsert ev) evs).
Proof.
  split.
  - intros embeddings Hne.
    destruct (upsertDocuments_mismatch env documents embeddings w Hne) as (w' & E & Ht & Hc).
    eexists _, w'. split; [exact E |]. auto.
  - intros embeddings w1 Eb Hne.
    destruct (upsertDocuments_mismatch env documents embeddings w1 Hne) as (w2 & E & Ht & Hc).
    assert (Hb : emits (fun ev => ~ isUpsert ev) w w1).
    { pose proof (batchEmbeddings_emits env (fun ev => ~ isUpsert ev)
                    (chunk_content <$> documents) 10) as H.
      specialize (H (fun input => id) w). rewrite Eb in H. exact H. }
    destruct Hb as (Hc1 & evs & Ht1 & Hp).
    unfold indexDocuments, try_catch. unfold bind at 1.
    destruct (bool_decide (length documents = 0%nat)) eqn:Hz.
    { apply bool_decide_eq_true in Hz. destruct documents; [| discriminate].
      cbn in Eb. injection Eb as <- _. done. }
    unfold bind at 1. rewrite Eb. unfold bind at 1. rewrite E.
    unfold logger, throw. cbn.
    eexists. split; [reflexivity |]. cbn.
    split; [congruence |]. exists evs. split; [congruence | exact Hp].
Qed.

Lemma indexDocuments_mismatch_witness :
  exists w',
    indexDocuments (stub_env_short []) [article; article] empty_world
    = (Err (AppError InternalServerError (lit "Failed to index documents") 500
              (lit "INTERNAL_SERVER_ERROR")
              (Cause (AppError InternalServerError
                        (lit "Failed to store documents in vector database") 500
                        (lit "INTERNAL_SERVER_ERROR")
                        (Cause (JsError
                           (lit "Documents and embeddings arrays must have the same length")))))),
       w') /\
    collection w' = collection empty_world /\
    exists evs, trace w' = trace empty_world ++ evs /\
                Forall (fun ev => ~ isUpsert ev) evs.
Proof.
  destruct (indexDocuments_mismatch (stub_env_short []) [article; article] empty_world)
    as [_ H].
  apply (H [[1%Q]]
           (snd (batchEmbeddings (stub_env_short [])
                   (chunk_content <$> [article; article]) 10 empty_world))).
  - reflexivity.
  - cbn. lia.
Defined.

(** ** The user's turn stays recorded *)

Lemma recorded_live sid w e :
  redis w !! getSessionKey sid = Some e ->
  entry_expires e = now w + SESSION_TTL * 1000 ->
  live w (getSessionKey sid) = Some e.
Proof. intros Hl He. apply live_Some. split; [done |]. unfold SESSION_TTL in He. lia. Qed.

Lemma addMessageToSession_recorded env sid um m :
  always (keeps (recorded sid um)) (addMessageToSession env sid m).
Proof.
  intros w (e & Hl & Hid & Hin & He).
  destruct (addMessageToSession_store env sid m w) as [Hn [[_ Hr] | [_ Hr]]];
    rewrite Hn, Hr; [| exists e; done].
  unfold appended. rewrite (recorded_live sid w e Hl He). cbn. rewrite Hid.
  eexists. rewrite lookup_insert_eq. split; [reflexivity |]. cbn.
  split_and!; [done | | done]. apply elem_of_app. auto.
Qed.

Lemma extendSessionTTL_recorded env sid um :
  always (keeps (recorded sid um)) (extendSessionTTL env sid).
Proof.
  intros w (e & Hl & Hid & Hin & He).
  destruct (extendSessionTTL_store env sid w) as (w' & E & Hn & Hr).
  rewrite E. cbn. rewrite Hn.
  destruct Hr as [-> | (e' & El & ->)]; [exists e; done |].
  rewrite (recorded_live sid w e Hl He) in El. injection El as <-.
  eexists. rewrite lookup_insert_eq. split; [reflexivity |]. cbn. done.
Qed.

Lemma afterAppend_recorded env sid um msg lim thr :
  always (keeps (recorded sid um))
    (try_catch (afterAppend env sid msg lim thr) (processQuery_catch sid)).
Proof.
  set (J := recorded sid um).
  unfold afterAppend, answerFrom, processQuery_catch. always_steps (keeps_frame J).
  - apply (always_weaken (calls (fun _ => True))); [apply calls_keeps |].
    apply getSession_calls. done.
  - apply (always_weaken (calls (fun _ => True))); [apply calls_keeps |].
    apply generateSingleEmbedding_calls. done.
  - apply (always_weaken (calls (fun _ => True))); [apply calls_keeps |].
    apply searchSimilar_calls. done.
  - apply (always_weaken (calls (fun _ => True))); [apply calls_keeps |].
    apply generateResponse_calls. done.
  - apply addMessageToSession_recorded.
  - apply extendSessionTTL_recorded.
Qed.

Lemma afterAppend_emits env P sid msg lim thr :
  (forall ev, P ev) ->
  always (emits P) (try_catch (afterAppend env sid msg lim thr) (processQuery_catch sid)).
Proof.
  intros HP. unfold afterAppend. always_steps (emits_frame P).
  - apply (always_weaken (calls P)); [apply calls_emits |]. apply getSession_calls, HP.
  - apply answerFrom_emits; intros; apply HP.
  - apply processQuery_catch_emits.
Qed.

(** [processQuery] returns a response or rejects with its own error. *)
Lemma processQuery_outcome env sid msg lim thr w :
  (exists resp, fst (processQuery env sid msg lim thr w) = Ok resp) \/
  (exists e, fst (processQuery env sid msg lim thr w)
             = Err (newInternalServerError (lit "Failed to process chat query") (Cause e))).
Proof.
  rewrite processQuery_unfold. unfold try_catch.
  destruct ((let* _ := addMessageToSession env sid (userTurn env w msg) in
             afterAppend env sid msg lim thr) (next_uuid w)) as [[a | e] w1]; cbn; eauto.
Qed.

(** C2. In a well-formed store, when the two Redis commands of the first
    append do not fail, [processQuery] writes the session with the user's
    message at its end as its second call, before any call to the embedding
    provider, the vector store or the generation provider; it returns a
    response or rejects with its [InternalServerError]; it does reject
    whenever a later step fails, be it the embedding (an error of the
    provider or a body without embeddings), the search (an error of the
    vector store) or the generation (an error of the provider or a blank
    text); and in either case, whatever failed later, the message is still
    recorded: a [getChatHistory] within the 24-hour window, if its own Redis
    command does not fail, returns a sequence that contains it. *)
Theorem user_message_recorded env sid msg lim thr w d :
  store_wf w ->
  redis_fault env (length (trace w)) GET = None ->
  redis_fault env (S (length (trace w))) SETEX = None ->
  0 <= d < 24 * 60 * 60 * 1000 ->
  let um := userTurn env w msg in
  let out := processQuery env sid msg lim thr w in
  (exists s rest,
      trace (snd out) = trace w ++
        [RedisCall (CmdGet (getSessionKey sid));
         RedisCall (CmdSetex (getSessionKey sid) (24 * 60 * 60) s)] ++ rest /\
      messages s = history w sid ++ [um]) /\
  ((exists resp, fst out = Ok resp) \/
   (exists e, fst out = Err (AppError InternalServerError
                               (lit "Failed to process chat query") 500
                               (lit "INTERNAL_SERVER_ERROR") (Cause e)))) /\
  (laterStepFails env sid msg lim thr w ->
   exists e, fst out = Err (AppError InternalServerError
                              (lit "Failed to process chat query") 500
                              (lit "INTERNAL_SERVER_ERROR") (Cause e))) /\
  (redis_fault env (length (trace (snd out))) GET = None ->
   exists h w', getChatHistory env sid (elapse d (snd out)) = (Ok h, w') /\ um ∈ h).
Proof.
  intros Hwf Hg Hs Hd um out.
  assert (Hwf0 : store_wf (next_uuid w)) by exact Hwf.
  pose proof (processQuery_outcome env sid msg lim thr w) as Hout.
  pose proof (processQuery_aborts env sid msg lim thr w Hwf Hg Hs) as Habort.
  remember (processQuery env sid msg lim thr w) as query eqn:Equery in Habort.
  subst out. rewrite processQuery_unfold in *. fold um in Hout |- *.
  destruct (addMessageToSession_run env sid um (next_uuid w) Hg Hs)
    as (w1 & E1 & Hr1 & Hn1 & Ht1).
  rewrite (appended_id _ sid um Hwf0) in Hr1, Ht1.
  rewrite (try_catch_bind_ok _ _ _ _ _ _ E1) in *.
  assert (Hrec : recorded sid um (redis w1) (now w1)).
  { eexists. rewrite Hr1, lookup_insert_eq. split; [reflexivity |]. cbn.
    split_and!.
    - apply (appended_id _ sid um Hwf0).
    - rewrite appended_messages. apply elem_of_app. right. apply list_elem_of_singleton. done.
    - rewrite Hn1. reflexivity. }
  apply (afterAppend_recorded env sid um msg lim thr w1) in Hrec.
  destruct (afterAppend_emits env (fun _ => True) sid msg lim thr (fun _ => I) w1)
    as (_ & evs & Ht & _).
  set (w' := snd (try_catch (afterAppend env sid msg lim thr) (processQuery_catch sid) w1))
    in *.
  split_and!.
  - exists (appended (next_uuid w) sid um), evs. split.
    + rewrite Ht, Ht1. cbn. rewrite <- app_assoc. reflexivity.
    + exact (appended_messages (next_uuid w) sid um).
  - exact Hout.
  - intros Hfail. destruct (Habort Hfail) as (e & He). exists e.
    rewrite Equery in He. fold um in He.
    rewrite (try_catch_bind_ok _ _ _ _ _ _ E1) in He. exact He.
  - intros Hg'. destruct Hrec as (e & Hl & Hid & Hin & He).
    destruct (getSession_run env sid (elapse d w')) as (w2 & E2 & _); [exact Hg' |].
    assert (Hlive : live (elapse d w') (getSessionKey sid) = Some e).
    { apply live_Some. cbn. split; [exact Hl |]. rewrite He. unfold SESSION_TTL. lia. }
    rewrite Hlive in E2. unfold getChatHistory, try_catch, bind, ret. rewrite E2. cbn.
    eauto.
Qed.

Lemma user_message_recorded_witness :
  let env := stub_env [] in
  let um := userTurn env empty_world (lit "What is AI?") in
  let out := processQuery env (lit "s1") (lit "What is AI?") 5 double_0_7 empty_world in
  (exists s rest,
      trace (snd out) = trace empty_world ++
        [RedisCall (CmdGet (getSessionKey (lit "s1")));
         RedisCall (CmdSetex (getSessionKey (lit "s1")) (24 * 60 * 60) s)] ++ rest /\
      messages s = history empty_world (lit "s1") ++ [um]) /\
  ((exists resp, fst out = Ok resp) \/
   (exists e, fst out = Err (AppError InternalServerError
                               (lit "Failed to process chat query") 500
                               (lit "INTERNAL_SERVER_ERROR") (Cause e)))) /\
  (exists e, fst out = Err (AppError InternalServerError
                              (lit "Failed to process chat query") 500
                              (lit "INTERNAL_SERVER_ERROR") (Cause e))) /\
  exists h w', getChatHistory env (lit "s1") (elapse 60000 (snd out)) = (Ok h, w') /\
               um ∈ h.
Proof.
  destruct (user_message_recorded (stub_env []) (lit "s1") (lit "What is AI?") 5 double_0_7
              empty_world 60000) as (H1 & H2 & H3 & H4).
  - exact (stamped_empty 1000).
  - reflexivity.
  - reflexivity.
  - lia.
  - split; [exact H1 |]. split; [exact H2 |]. split.
    + apply H3.
      eapply generation_fails; [reflexivity | reflexivity | constructor].
    + apply H4. reflexivity.
Defined.

(** The second end-to-end scenario: the generation provider returns the empty
    string; the query is rejected and the history holds the user's message. *)
Example empty_answer_history :
  let out := processQuery (stub_env []) (lit "s1") (lit "What is AI?") 5 double_0_7
               empty_world in
  (exists e, fst out = Err e) /\
  fst (getChatHistory (stub_env []) (lit "s1") (snd out))
  = Ok [userTurn (stub_env []) empty_world (lit "What is AI?")].
Proof. split; [eexists |]; vm_compute; reflexivity. Qed.

(** The first end-to-end scenario: the answer comes back trimmed, with the
    retrieved chunk and its score, and the history holds the two turns. *)
Example fixed_answer_history :
  let out := processQuery (stub_env (lit " It is. ")) (lit "s1") (lit "What is AI?")
               5 double_0_7 empty_world in
  fst out = Ok {| message := lit "It is."; response_session_id := lit "s1";
                  message_id := lit "id-1";
                  sources := [ {| chunk_id := lit "d1"; chunk_content := lit "AI is...";
                                  metadata := unknownMetadata;
                                  score := Some (9 # 10)%Q |} ] |} /\
  match fst (getChatHistory (stub_env (lit " It is. ")) (lit "s1") (snd out)) with
  | Ok h => (fun m => (role m, content m)) <$> h
  | Err _ => []
  end = [(user, lit "What is AI?"); (assistant, lit "It is.")].
Proof. split; vm_compute; reflexivity. Qed.

(** ** An empty answer *)

Lemma Exists_not_Forall_neg {A} (P : A -> Prop) l :
  Forall (fun x => ~ P x) l -> Exists P l -> False.
Proof. intros H. apply Forall_Exists_neg, H. Qed.

Section EmptyAnswer.

Context (env : Env) (Hblank : blank_replies env).

Lemma generateResponse_blank q chunks h w :
  exists w', generateResponse env q chunks h w = (Err emptyAnswerError, w') /\
             exists evs, trace w' = trace w ++ evs.
Proof.
  unfold generateResponse, model_generateContent, try_catch, bind, emit, logger, ret, throw.
  cbn.
  destruct (Hblank (length (trace w))
              (systemPrompt (buildContext chunks) (formatChatHistory h) q))
    as (text & -> & Ht).
  apply trim_nil in Ht.
  cbn. rewrite Ht. cbn. rewrite orb_true_r. cbn.
  eexists. split; [reflexivity |]. cbn. eauto.
Qed.

Lemma rejects_bind {A} sid (m : M A) (k : A -> M ChatResponse) w :
  always (emits (fun ev => ~ isGenerate ev)) m ->
  (forall a w1, rejects sid (k a) w1) ->
  rejects sid (bind m k) w.
Proof.
  intros Hm Hk. destruct (Hm w) as (_ & evs1 & Ht1 & Hp1).
  destruct (m w) as [[a | e] w1] eqn:E; cbn in Ht1.
  - destruct (Hk a w1) as (e & w' & evs & E' & Ht & Himp).
    exists e, w', (evs1 ++ evs). rewrite (try_catch_bind_ok _ _ _ _ _ _ E).
    split_and!; [exact E' | rewrite Ht, Ht1, <- app_assoc; done |].
    intros Hex. apply Exists_app in Hex as [Hex | Hex]; [| auto].
    destruct (Exists_not_Forall_neg _ _ Hp1 Hex).
  - eexists e, _, evs1. rewrite (try_catch_bind_err _ _ _ _ _ _ E).
    unfold processQuery_catch, bind, logger, throw. cbn.
    split_and!; [reflexivity | exact Ht1 |].
    intros Hex. destruct (Exists_not_Forall_neg _ _ Hp1 Hex).
Qed.

Lemma rejects_generate sid q chunks h (k : jsstring -> M ChatResponse) w :
  rejects sid (bind (generateResponse env q chunks h) k) w.
Proof.
  destruct (generateResponse_blank q chunks h w) as (w1 & E & evs & Ht).
  eexists emptyAnswerError, _, evs. rewrite (try_catch_bind_err _ _ _ _ _ _ E).
  unfold processQuery_catch, bind, logger, throw. cbn.
  split_and!; [reflexivity | exact Ht | done].
Qed.

Lemma processQuery_rejects sid msg lim thr w :
  exists e w' evs,
    processQuery env sid msg lim thr w
    = (Err (newInternalServerError (lit "Failed to process chat query") (Cause e)), w') /\
    trace w' = trace w ++ evs /\
    (Exists isGenerate evs -> e = emptyAnswerError).
Proof.
  rewrite processQuery_unfold.
  change (rejects sid (let* _ := addMessageToSession env sid (userTurn env w msg) in
                       afterAppend env sid msg lim thr) (next_uuid w)).
  apply rejects_bind; [apply addMessageToSession_emits; intros c []|].
  intros _ w1. unfold afterAppend.
  apply rejects_bind.
  { apply (always_weaken (calls (fun ev => ~ isGenerate ev))); [apply calls_emits |].
    apply getSession_calls. intros []. }
  intros session w2. unfold answerFrom.
  apply rejects_bind.
  { apply (always_weaken (calls (fun ev => ~ isGenerate ev))); [apply calls_emits |].
    apply generateSingleEmbedding_calls. intros []. }
  intros queryEmbedding w3.
  apply rejects_bind.
  { apply (always_weaken (calls (fun ev => ~ isGenerate ev))); [apply calls_emits |].
    apply searchSimilar_calls. intros []. }
  intros searchResults w4. cbv zeta.
  apply rejects_generate.
Qed.

End EmptyAnswer.

(** C1, as the code has it. When the generation provider returns an empty or
    all-white-space string, [generateResponse] rejects with the
    [ExternalServiceError] "Gemini API: Empty response from Gemini API"
    (status 502); [processQuery] never returns a response: it rejects with
    its [InternalServerError] "Failed to process chat query" (status 500),
    whose details are the error of the step that failed, hence that
    [ExternalServiceError] whenever the generation provider was called. *)
Theorem empty_answer_rejected env sid msg lim thr w :
  blank_replies env ->
  (forall q chunks h w0, exists w1,
      generateResponse env q chunks h w0
      = (Err (AppError ExternalServiceError
                (lit "Gemini API: Empty response from Gemini API") 502
                (lit "EXTERNAL_SERVICE_ERROR")
                (Cause (JsError (lit "Empty response from Gemini API")))), w1)) /\
  exists e w' evs,
    processQuery env sid msg lim thr w
    = (Err (AppError InternalServerError (lit "Failed to process chat query") 500
              (lit "INTERNAL_SERVER_ERROR") (Cause e)), w') /\
    trace w' = trace w ++ evs /\
    (Exists isGenerate evs ->
     e = AppError ExternalServiceError
           (lit "Gemini API: Empty response from Gemini API") 502
           (lit "EXTERNAL_SERVICE_ERROR")
           (Cause (JsError (lit "Empty response from Gemini API")))).
Proof.
  intros Hblank. split.
  - intros q chunks h w0.
    destruct (generateResponse_blank env Hblank q chunks h w0) as (w1 & E & _).
    exists w1. exact E.
  - exact (processQuery_rejects env Hblank sid msg lim thr w).
Qed.

Lemma empty_answer_rejected_witness :
  (forall q chunks h w0, exists w1,
      generateResponse (stub_env []) q chunks h w0
      = (Err (AppError ExternalServiceError
                (lit "Gemini API: Empty response from Gemini API") 502
                (lit "EXTERNAL_SERVICE_ERROR")
                (Cause (JsError (lit "Empty response from Gemini API")))), w1)) /\
  exists w',
    processQuery (stub_env []) (lit "s1") (lit "What is AI?") 5 double_0_7 empty_world
    = (Err (AppError InternalServerError (lit "Failed to process chat query") 500
              (lit "INTERNAL_SERVER_ERROR")
              (Cause (AppError ExternalServiceError
                        (lit "Gemini API: Empty response from Gemini API") 502
                        (lit "EXTERNAL_SERVICE_ERROR")
                        (Cause (JsError (lit "Empty response from Gemini API")))))), w').
Proof.
  destruct (empty_answer_rejected (stub_env []) (lit "s1") (lit "What is AI?") 5 double_0_7
              empty_world) as (Hgen & e & w' & evs & E & Ht & Himp).
  { intros n p. exists []. split; [reflexivity | constructor]. }
  split; [exact Hgen |].
  exists w'. rewrite E. rewrite Himp; [reflexivity |].
  assert (Hw : w' = snd (processQuery (stub_env []) (lit "s1") (lit "What is AI?") 5
                           double_0_7 empty_world)) by (rewrite E; reflexivity).
  rewrite Hw in Ht. vm_compute in Ht. rewrite <- Ht.
  do 5 apply Exists_cons_tl. apply Exists_cons_hd. exact I.
Defined.

(** The generation provider returns the empty string: what [processQuery]
    rejects with is not an [ExternalServiceError]. *)
Lemma empty_answer_not_external_error :
  ~ exists e,
      fst (processQuery (stub_env []) (lit "s1") (lit "What is AI?") 5 double_0_7
             empty_world) = Err e /\
      errorClass e = Some ExternalServiceError.
Proof.
  intros (e & He & Hc). vm_compute in He. injection He as <-. discriminate Hc.
Qed.

(** ** A failing TTL refresh *)

Section Agreement.

Context (env env' : Env) (Hagree : agree_but_expire env env').

Lemma agree_getSession sid w : getSession env sid w = getSession env' sid w.
Proof.
  destruct Hagree as (Hr & _).
  unfold getSession, client_get, redis_call, try_catch, bind, emit. cbn.
  rewrite (Hr _ GET) by discriminate. reflexivity.
Qed.

Lemma agree_saveSession s w : saveSession env s w = saveSession env' s w.
Proof.
  destruct Hagree as (Hr & _).
  unfold saveSession, client_setex, redis_call, try_catch, bind, emit. cbn.
  rewrite (Hr _ SETEX) by discriminate. reflexivity.
Qed.

Lemma agree_addMessageToSession sid m w :
  addMessageToSession env sid m w = addMessageToSession env' sid m w.
Proof.
  unfold addMessageToSession, try_catch, bind, newDate. rewrite agree_getSession.
  destruct (getSession env' sid w) as [[[s |] | e] w1]; cbv beta iota;
    rewrite ?agree_saveSession; reflexivity.
Qed.

Lemma agree_generateEmbeddings texts w :
  generateEmbeddings env texts w = generateEmbeddings env' texts w.
Proof.
  destruct Hagree as (_ & Hj & _).
  unfold generateEmbeddings, axios_post, try_catch, bind, emit.
  destruct (bool_decide (length texts = 0%nat)); [reflexivity |].
  cbv beta iota. rewrite Hj. reflexivity.
Qed.

Lemma agree_generateSingleEmbedding text w :
  generateSingleEmbedding env text w = generateSingleEmbedding env' text w.
Proof.
  unfold generateSingleEmbedding, bind. rewrite agree_generateEmbeddings. reflexivity.
Qed.

Lemma agree_searchSimilar v lim thr w :
  searchSimilar env v lim thr w = searchSimilar env' v lim thr w.
Proof.
  destruct Hagree as (_ & _ & Hq & _).
  unfold searchSimilar, client_search, try_catch, bind, emit. cbn.
  rewrite Hq. reflexivity.
Qed.

Lemma agree_generateResponse q chunks h w :
  generateResponse env q chunks h w = generateResponse env' q chunks h w.
Proof.
  destruct Hagree as (_ & _ & _ & _ & Hg & _).
  unfold generateResponse, model_generateContent, try_catch, bind, emit. cbn.
  rewrite Hg. reflexivity.
Qed.

Lemma agree_uuidv4 w : uuidv4 env w = uuidv4 env' w.
Proof.
  destruct Hagree as (_ & _ & _ & _ & _ & Hu). unfold uuidv4. rewrite Hu. reflexivity.
Qed.

Lemma agree_answerFrom sid msg lim thr h w :
  fst (try_catch (answerFrom env sid msg lim thr h) (processQuery_catch sid) w)
  = fst (try_catch (answerFrom env' sid msg lim thr h) (processQuery_catch sid) w).
Proof.
  unfold answerFrom, try_catch, bind, newDate. cbv zeta.
  rewrite agree_generateSingleEmbedding.
  destruct (generateSingleEmbedding env' msg w) as [[queryEmbedding | e] w1];
    cbv beta iota; [| reflexivity].
  rewrite agree_searchSimilar.
  destruct (searchSimilar env' queryEmbedding lim thr w1) as [[searchResults | e] w2];
    cbv beta iota; [| reflexivity].
  rewrite agree_generateResponse.
  destruct (generateResponse env' msg (withScore <$> searchResults) (slice_last 10 h) w2)
    as [[responseText | e] w3]; cbv beta iota; [| reflexivity].
  rewrite agree_uuidv4.
  destruct (uuidv4 env' w3) as [[assistantMessageId | e] w4]; cbv beta iota;
    [| reflexivity].
  rewrite agree_addMessageToSession.
  destruct (addMessageToSession env' sid _ w4) as [[[] | e] w5]; cbv beta iota;
    [| reflexivity].
  destruct (extendSessionTTL_store env sid w5) as (w6 & -> & _).
  destruct (extendSessionTTL_store env' sid w5) as (w6' & -> & _).
  reflexivity.
Qed.

Lemma agree_processQuery sid msg lim thr w :
  fst (processQuery env sid msg lim thr w) = fst (processQuery env' sid msg lim thr w).
Proof.
  rewrite !processQuery_unfold.
  assert (Hum : userTurn env w msg = userTurn env' w msg).
  { destruct Hagree as (_ & _ & _ & _ & _ & Hu). unfold userTurn. rewrite Hu. done. }
  rewrite Hum.
  destruct (addMessageToSession env' sid (userTurn env' w msg) (next_uuid w))
    as [[[] | e] w1] eqn:E1.
  - rewrite (try_catch_bind_ok _ _ _ _ _ _ E1).
    rewrite <- agree_addMessageToSession in E1.
    rewrite (try_catch_bind_ok _ _ _ _ _ _ E1).
    unfold afterAppend.
    destruct (getSession env' sid w1) as [[session | e] w2] eqn:E2.
    + rewrite (try_catch_bind_ok _ _ _ _ _ _ E2).
      rewrite <- agree_getSession in E2.
      rewrite (try_catch_bind_ok _ _ _ _ _ _ E2).
      apply agree_answerFrom.
    + rewrite (try_catch_bind_err _ _ _ _ _ _ E2).
      rewrite <- agree_getSession in E2.
      rewrite (try_catch_bind_err _ _ _ _ _ _ E2). reflexivity.
  - rewrite (try_catch_bind_err _ _ _ _ _ _ E1).
    rewrite <- agree_addMessageToSession in E1.
    rewrite (try_catch_bind_err _ _ _ _ _ _ E1). reflexivity.
Qed.

End Agreement.

(** C7. A failure of the TTL refresh is swallowed. [extendSessionTTL]
    always returns, whatever Redis does; when [EXPIRE] fails it logs the
    failure as an error and leaves the store as it was. And the outcome of
    [processQuery] (the response it returns, or the error it rejects with)
    is the same in two environments that differ only in whether [EXPIRE]
    fails: a failing refresh neither changes the response nor makes the call
    reject. *)
Theorem ttl_failure_swallowed env env' sid msg lim thr w :
  agree_but_expire env env' ->
  fst (processQuery env sid msg lim thr w) = fst (processQuery env' sid msg lim thr w) /\
  (forall w0, exists w1, extendSessionTTL env sid w0 = (Ok tt, w1)) /\
  (forall w0 e,
     redis_fault env (length (trace w0)) EXPIRE = Some e ->
     exists w1,
       extendSessionTTL env sid w0 = (Ok tt, w1) /\
       redis w1 = redis w0 /\
       logs w1 = logs w0 ++
                   [{| level := LogError;
                       text := lit "Failed to extend TTL for session " ++ sid ++ lit ":";
                       attached := Some e |}]).
Proof.
  intros Hagree. split_and!.
  - apply agree_processQuery, Hagree.
  - intros w0. destruct (extendSessionTTL_store env sid w0) as (w1 & E & _). eauto.
  - intros w0 e He.
    unfold extendSessionTTL, client_expire, redis_call, try_catch, bind, emit, logger, throw.
    cbn. rewrite He. cbn. eexists. split; [reflexivity |]. cbn. auto.
Qed.

Lemma ttl_failure_swallowed_witness :
  let env := stub_env_no_expire (lit "It is.") in
  let env' := stub_env (lit "It is.") in
  fst (processQuery env (lit "s1") (lit "What is AI?") 5 double_0_7 empty_world)
  = fst (processQuery env' (lit "s1") (lit "What is AI?") 5 double_0_7 empty_world) /\
  (forall w0, exists w1, extendSessionTTL env (lit "s1") w0 = (Ok tt, w1)) /\
  (forall w0 e,
     redis_fault env (length (trace w0)) EXPIRE = Some e ->
     exists w1,
       extendSessionTTL env (lit "s1") w0 = (Ok tt, w1) /\
       redis w1 = redis w0 /\
       logs w1 = logs w0 ++
                   [{| level := LogError;
                       text := lit "Failed to extend TTL for session " ++ lit "s1" ++ lit ":";
                       attached := Some e |}]).
Proof.
  apply (ttl_failure_swallowed (stub_env_no_expire (lit "It is.")) (stub_env (lit "It is."))
           (lit "s1") (lit "What is AI?") 5 double_0_7 empty_world).
  split_and!; try reflexivity.
  intros n op Hop. destruct op; [reflexivity | reflexivity | reflexivity | congruence].
Defined.

(** With [EXPIRE] failing, the query is still answered. *)
Example answered_without_refresh :
  exists sources,
    fst (processQuery (stub_env_no_expire (lit "It is.")) (lit "s1") (lit "What is AI?")
           5 double_0_7 empty_world)
    = Ok {| message := lit "It is."; response_session_id := lit "s1";
            message_id := lit "id-1"; sources := sources |}.
Proof. eexists. vm_compute. reflexivity. Qed.

(** ** The history in the prompt *)





(** The history of two messages, as the prompt carries it. *)
Example formatChatHistory_two :
  formatChatHistory [hello; question] = lit "USER: Hello
USER: What is AI?".
Proof. reflexivity. Qed.

(** Of twelve messages, the first two are left out. *)
Example formatChatHistory_twelve :
  formatChatHistory (replicate 2 hello ++ replicate 10 question)
  = join newline (replicate 10 (lit "USER: What is AI?")).
Proof. reflexivity. Qed.

(** ** Reachable stores are well formed *)

Lemma store_wf_empty w : redis w = ∅ -> store_wf w.
Proof. intros H. unfold store_wf. rewrite H. apply stamped_empty. Qed.

Lemma store_wf_elapse d w : 0 <= d -> store_wf w -> store_wf (elapse d w).
Proof. intros Hd H. apply (stamped_later _ _ d Hd H). Qed.

Lemma deleteSession_stamped env sid : always (keeps stamped) (deleteSession env sid).
Proof.
  intros w Hwf.
  unfold deleteSession, client_del, redis_call, try_catch, bind, emit, logger, ret, throw.
  cbn. destruct (redis_fault env (length (trace w)) DEL); cbn; [exact Hwf |].
  intros sid' e. destruct (decide (getSessionKey sid' = getSessionKey sid)) as [-> | Hne].
  - rewrite lookup_delete_eq. discriminate.
  - rewrite lookup_delete_ne by done. apply Hwf.
Qed.

Lemma processQuery_stamped env sid msg lim thr :
  always (keeps stamped) (processQuery env sid msg lim thr).
Proof.
  unfold processQuery. always_steps (keeps_frame stamped).
  - apply addMessageToSession_stamped.
  - apply (always_weaken (calls (fun _ => True))); [apply calls_keeps |].
    apply getSession_calls. done.
  - apply (always_weaken (calls (fun _ => True))); [apply calls_keeps |].
    apply generateSingleEmbedding_calls. done.
  - apply (always_weaken (calls (fun _ => True))); [apply calls_keeps |].
    apply searchSimilar_calls. done.
  - apply (always_weaken (calls (fun _ => True))); [apply calls_keeps |].
    apply generateResponse_calls. done.
  - apply addMessageToSession_stamped.
  - apply extendSessionTTL_stamped.
Qed.

(** ** The loop of [batchEmbeddings] runs to its end *)

Lemma batchLoop_fuel env fuel extra texts batchSize i results w :
  (0 < batchSize)%nat ->
  (length texts <= i + fuel)%nat ->
  batchLoop env (fuel + extra) texts batchSize i results w
  = batchLoop env fuel texts batchSize i results w.
Proof.
  intros Hb. revert i results w.
  induction fuel as [| fuel IH]; intros i results w Hlen.
  - destruct extra as [| extra]; [reflexivity |]. cbn [Nat.add batchLoop].
    destruct (Nat.ltb_spec i (length texts)); [lia | reflexivity].
  - cbn [Nat.add batchLoop].
    destruct (Nat.ltb_spec i (length texts)); [| reflexivity].
    unfold bind.
    destruct (generateEmbeddings env (slice i (i + batchSize) texts) w)
      as [[embeddings | e] w1]; [| reflexivity].
    destruct (i + batchSize <? length texts)%nat; cbn; apply IH; lia.
Qed.

(** * Further properties *)

(** ** What [trim] returns *)

Lemma trimStart_suffix s : exists p, s = p ++ trimStart s /\ blank p.
Proof.
  induction s as [| c s (p & Hs & Hp)]; cbn.
  - exists []. split; [done | constructor].
  - destruct (isWhiteSpace c) eqn:E.
    + exists (c :: p). split; [cbn; congruence | constructor; done].
    + exists []. split; [done | constructor].
Qed.

Lemma trimStart_fixed c s : isWhiteSpace c = false -> trimStart (c :: s) = c :: s.
Proof. intros H. cbn. rewrite H. reflexivity. Qed.

(** A string is its trimmed part between two blank margins. *)
Lemma trim_margins s : exists p q, s = p ++ trim s ++ q /\ blank p /\ blank q.
Proof.
  destruct (trimStart_suffix s) as (p & Hs & Hp).
  destruct (trimStart_suffix (reverse (trimStart s))) as (q & Hr & Hq).
  exists p, (reverse q). split_and!; [| done | by apply Forall_reverse].
  unfold trim, trimEnd. rewrite <- reverse_app, <- Hr, reverse_involutive. exact Hs.
Qed.

Lemma trim_head s c rest : trim s = c :: rest -> isWhiteSpace c = false.
Proof.
  intros H. destruct (trimStart_suffix (reverse (trimStart s))) as (q & Hr & Hq).
  apply (f_equal reverse) in Hr. rewrite reverse_involutive, reverse_app in Hr.
  fold (trimEnd (trimStart s)) in Hr. fold (trim s) in Hr. rewrite H in Hr.
  apply (trimStart_head s c (rest ++ reverse q)). exact Hr.
Qed.

Lemma trim_last s c front : trim s = front ++ [c] -> isWhiteSpace c = false.
Proof.
  unfold trim, trimEnd. intros H. apply (f_equal reverse) in H.
  rewrite reverse_involutive, reverse_app in H. cbn in H.
  apply trimStart_head in H. exact H.
Qed.

Lemma trim_idem s : trim (trim s) = trim s.
Proof.
  destruct (trim s) as [| c rest] eqn:E; [reflexivity |].
  unfold trim at 1. rewrite (trimStart_fixed c rest (trim_head s c rest E)).
  unfold trimEnd.
  destruct (reverse (c :: rest)) as [| c' rest'] eqn:Er.
  - apply (f_equal reverse) in Er. rewrite reverse_involutive in Er. discriminate.
  - assert (Hl : isWhiteSpace c' = false).
    { apply (trim_last s c' (reverse rest')). rewrite E.
      apply (f_equal reverse) in Er. rewrite reverse_involutive, reverse_cons in Er.
      exact Er. }
    rewrite (trimStart_fixed c' rest' Hl), <- Er. apply reverse_involutive.
Qed.

(** ** What a returned response is made of *)






(** ** The history after a query *)



Section Settles.

Context (env : Env).




End Settles.



(** The two outcomes, on the session of one message. *)
Example history_after_answer :
  content <$> history (snd (processQuery (stub_env (lit "It is.")) (lit "s1")
                              (lit "What is AI?") 5 double_0_7 s1_world)) (lit "s1")
  = [lit "Hello"; lit "What is AI?"; lit "It is."] /\
  content <$> history (snd (processQuery (stub_env_limited (lit "It is.")) (lit "s1")
                              (lit "What is AI?") 5 double_0_7 s1_world)) (lit "s1")
  = [lit "Hello"; lit "What is AI?"].
Proof. split; vm_compute; reflexivity. Qed.

(** ** When every collaborator answers *)

Section Healthy.

Context (env : Env) (Hhealthy : healthy env).

Lemma generateSingleEmbedding_healthy text w :
  exists v w', generateSingleEmbedding env text w = (Ok v, w').
Proof.
  destruct Hhealthy as (_ & Hj & _).
  unfold generateSingleEmbedding, generateEmbeddings, axios_post, try_catch, bind, emit,
    logger, ret.
  cbn [length bool_decide decide_rel]. rewrite bool_decide_false by done.
  cbv beta iota.
  destruct (Hj (length (trace w)) ((fun text => slice 0 8192 text) <$> [text]))
    as (items & [-> | ->]); cbv beta iota; eauto.
Qed.

Lemma searchSimilar_healthy v lim thr w :
  exists rs w', searchSimilar env v lim thr w = (Ok rs, w').
Proof.
  destruct Hhealthy as (_ & _ & Hq & _).
  unfold searchSimilar, client_search, try_catch, bind, emit, logger, ret.
  cbv beta iota.
  destruct (Hq (length (trace w)) v lim thr) as (points & ->); cbv beta iota; eauto.
Qed.

Lemma generateResponse_healthy q chunks h w :
  exists r w', generateResponse env q chunks h w = (Ok r, w').
Proof.
  destruct Hhealthy as (_ & _ & _ & Hg).
  unfold generateResponse, model_generateContent, try_catch, bind, emit, logger, ret.
  cbv beta iota zeta.
  destruct (Hg (length (trace w))
              (systemPrompt (buildContext chunks) (formatChatHistory h) q))
    as (text & -> & Hnb).
  cbv beta iota.
  assert (Ht : trim text <> []) by (intros Ht; apply Hnb, trim_nil, Ht).
  rewrite bool_decide_false.
  2: { intros ->. apply Ht. reflexivity. }
  rewrite bool_decide_false.
  2: { intros Hl. apply Ht. destruct (trim text); [done | discriminate]. }
  cbn. eauto.
Qed.

(** X3. When Redis does not fail, the embedding provider answers with
    embeddings, the vector store with points and the generation provider
    with a text that is not blank, [processQuery] returns a response: it
    rejects for no reason of its own. *)
Theorem healthy_query_answered sid msg lim thr w :
  exists resp, fst (processQuery env sid msg lim thr w) = Ok resp.
Proof.
  pose proof Hhealthy as (Hr & _).
  rewrite processQuery_unfold.
  destruct (addMessageToSession_run env sid (userTurn env w msg) (next_uuid w))
    as (w1 & E1 & _); [apply Hr | apply Hr |].
  rewrite (try_catch_bind_ok _ _ _ _ _ _ E1). unfold afterAppend.
  destruct (getSession_run env sid w1) as (w2 & E2 & _); [apply Hr |].
  rewrite (try_catch_bind_ok _ _ _ _ _ _ E2). unfold answerFrom.
  destruct (generateSingleEmbedding_healthy msg w2) as (v & w3 & E3).
  rewrite (try_catch_bind_ok _ _ _ _ _ _ E3).
  destruct (searchSimilar_healthy v lim thr w3) as (rs & w4 & E4).
  rewrite (try_catch_bind_ok _ _ _ _ _ _ E4). cbv zeta.
  match goal with
  | |- context [generateResponse env msg ?c ?h] =>
      destruct (generateResponse_healthy msg c h w4) as (r & w5 & E5)
  end.
  rewrite (try_catch_bind_ok _ _ _ _ _ _ E5).
  unfold try_catch, bind, uuidv4, newDate. cbv beta iota.
  match goal with
  | |- context [addMessageToSession env sid ?am (next_uuid w5)] =>
      destruct (addMessageToSession_run env sid am (next_uuid w5)) as (w6 & E6 & _);
        [apply Hr | apply Hr |]
  end.
  rewrite E6. cbv beta iota.
  destruct (extendSessionTTL_store env sid w6) as (w7 & -> & _).
  cbn. eauto.
Qed.

End Healthy.

Lemma healthy_query_answered_witness :
  exists resp,
    fst (processQuery (stub_env (lit "It is.")) (lit "s1") (lit "What is AI?") 5 double_0_7
           s1_world) = Ok resp.
Proof.
  apply (healthy_query_answered (stub_env (lit "It is."))).
  split_and!; try reflexivity.
  - intros n input. eexists. left. reflexivity.
  - intros n v l t. eexists. reflexivity.
  - intros n p. eexists. split; [reflexivity |]. intros H. apply trim_nil in H.
    discriminate H.
Defined.

(** ** Other sessions *)

Lemma addMessageToSession_untouched env sid sid' entry t0 m :
  sid' <> sid ->
  always (keeps (untouched sid' entry t0)) (addMessageToSession env sid m).
Proof.
  intros Hne w (Hwf & Hl & Ht).
  pose proof (addMessageToSession_stamped env sid m w Hwf) as Hwf'.
  pose proof (appended_id w sid m Hwf) as Hid.
  destruct (addMessageToSession_store env sid m w) as [Hn [[_ Hr] | [_ Hr]]].
  - split_and!; [exact Hwf' | | congruence].
    rewrite Hr, Hid, lookup_insert_ne; [exact Hl |].
    intros Heq. apply getSessionKey_inj in Heq. congruence.
  - split_and!; [exact Hwf' | congruence | congruence].
Qed.

Lemma extendSessionTTL_untouched env sid sid' entry t0 :
  sid' <> sid ->
  always (keeps (untouched sid' entry t0)) (extendSessionTTL env sid).
Proof.
  intros Hne w (Hwf & Hl & Ht).
  pose proof (extendSessionTTL_stamped env sid w Hwf) as Hwf'.
  destruct (extendSessionTTL_store env sid w) as (w' & E & Hn & Hr).
  rewrite E in Hwf' |- *. cbn in Hwf' |- *.
  split_and!; [exact Hwf' | | congruence].
  destruct Hr as [-> | (e & _ & ->)]; [exact Hl |].
  rewrite lookup_insert_ne; [exact Hl |].
  intros Heq. apply getSessionKey_inj in Heq. congruence.
Qed.

Lemma deleteSession_untouched env sid sid' entry t0 :
  sid' <> sid ->
  always (keeps (untouched sid' entry t0)) (deleteSession env sid).
Proof.
  intros Hne w (Hwf & Hl & Ht).
  pose proof (deleteSession_stamped env sid w Hwf) as Hwf'.
  split; [exact Hwf' |]. revert Hl Ht. clear Hwf Hwf'.
  unfold deleteSession, client_del, redis_call, try_catch, bind, emit, logger, ret, throw.
  cbn. destruct (redis_fault env (length (trace w)) DEL); cbn; [done |].
  intros Hl Ht. split; [| done].
  destruct (decide (getSessionKey sid' = getSessionKey sid)) as [Heq | Hk].
  - apply getSessionKey_inj in Heq. congruence.
  - rewrite lookup_delete_ne by done. exact Hl.
Qed.

Lemma untouched_history sid' w w' :
  untouched sid' (redis w !! getSessionKey sid') (now w) (redis w') (now w') ->
  history w' sid' = history w sid'.
Proof. intros (_ & Hl & Ht). unfold history, live. rewrite Hl, Ht. reflexivity. Qed.

(** X4. In a well-formed store, a query, or the clearing of the history, of
    one session leaves every other session as it was: its history reads
    the same after as before. *)
Theorem other_sessions_untouched env sid sid' msg lim thr w :
  store_wf w ->
  sid' <> sid ->
  history (snd (processQuery env sid msg lim thr w)) sid' = history w sid' /\
  history (snd (clearChatHistory env sid w)) sid' = history w sid'.
Proof.
  intros Hwf Hne.
  set (J := untouched sid' (redis w !! getSessionKey sid') (now w)).
  assert (HJ : J (redis w) (now w)) by (split_and!; done).
  split; apply untouched_history.
  - assert (H : always (keeps J) (processQuery env sid msg lim thr)).
    { unfold processQuery. always_steps (keeps_frame J).
      - apply addMessageToSession_untouched, Hne.
      - apply (always_weaken (calls (fun _ => True))); [apply calls_keeps |].
        apply getSession_calls. done.
      - apply (always_weaken (calls (fun _ => True))); [apply calls_keeps |].
        apply generateSingleEmbedding_calls. done.
      - apply (always_weaken (calls (fun _ => True))); [apply calls_keeps |].
        apply searchSimilar_calls. done.
      - apply (always_weaken (calls (fun _ => True))); [apply calls_keeps |].
        apply generateResponse_calls. done.
      - apply addMessageToSession_untouched, Hne.
      - apply extendSessionTTL_untouched, Hne. }
    apply (H w HJ).
  - assert (H : always (keeps J) (clearChatHistory env sid)).
    { unfold clearChatHistory. always_steps (keeps_frame J).
      apply deleteSession_untouched, Hne. }
    apply (H w HJ).
Qed.

Lemma other_sessions_untouched_witness :
  history (snd (processQuery (stub_env (lit "It is.")) (lit "s2") (lit "What is AI?") 5
                  double_0_7 s1_world)) (lit "s1") = history s1_world (lit "s1") /\
  history (snd (clearChatHistory (stub_env (lit "It is.")) (lit "s2") s1_world)) (lit "s1")
  = history s1_world (lit "s1").
Proof.
  apply (other_sessions_untouched (stub_env (lit "It is.")) (lit "s2") (lit "s1")
           (lit "What is AI?") 5 double_0_7 s1_world).
  - exact s1_world_wf.
  - discriminate.
Defined.

(** ** Saving, reading and expiry *)

(** X5. When the two Redis commands do not fail, a session saved by
    [saveSession] is read back unchanged by [getSession] under its own id
    as long as less than 24 hours have passed, and is absent once more than
    24 hours have passed. *)
Theorem saved_session_expires env s w d :
  redis_fault env (length (trace w)) SETEX = None ->
  redis_fault env (S (length (trace w))) GET = None ->
  exists w1,
    saveSession env s w = (Ok tt, w1) /\
    (0 <= d < 24 * 60 * 60 * 1000 ->
     fst (getSession env (session_id s) (elapse d w1)) = Ok (Some s)) /\
    (24 * 60 * 60 * 1000 < d ->
     fst (getSession env (session_id s) (elapse d w1)) = Ok None).
Proof.
  intros Hs Hg.
  destruct (saveSession_run env s w Hs) as (w1 & E1 & Hr1 & Hn1 & Ht1).
  exists w1. split; [exact E1 |].
  destruct (getSession_run env (session_id s) (elapse d w1)) as (w2 & E2 & _).
  { cbn. rewrite Ht1, length_app. cbn. rewrite Nat.add_comm. exact Hg. }
  rewrite E2. cbn [fst]. unfold live. cbn [redis now elapse].
  rewrite Hr1, lookup_insert_eq, Hn1. cbn [entry_expires entry_value]. unfold SESSION_TTL.
  split; intros Hd.
  - destruct (Z.ltb_spec (now w + d) (now w + 24 * 60 * 60 * 1000)); [reflexivity | lia].
  - destruct (Z.ltb_spec (now w + d) (now w + 24 * 60 * 60 * 1000)); [lia | reflexivity].
Qed.

Lemma saved_session_expires_witness :
  let s := {| session_id := lit "s1"; messages := [hello]; createdAt := 400;
              updatedAt := 400 |} in
  (exists w1, saveSession (stub_env []) s empty_world = (Ok tt, w1) /\
              fst (getSession (stub_env []) (lit "s1") (elapse 5000 w1)) = Ok (Some s)) /\
  (exists w1, saveSession (stub_env []) s empty_world = (Ok tt, w1) /\
              fst (getSession (stub_env []) (lit "s1") (elapse 90000000 w1)) = Ok None).
Proof.
  intros s. split.
  - destruct (saved_session_expires (stub_env []) s empty_world 5000 eq_refl eq_refl)
      as (w1 & E & H & _).
    exists w1. split; [exact E | apply H; lia].
  - destruct (saved_session_expires (stub_env []) s empty_world 90000000 eq_refl eq_refl)
      as (w1 & E & _ & H).
    exists w1. split; [exact E | apply H; lia].
Defined.

(** ** A failed append *)

(** X6. When [addMessageToSession] rejects, its error is the
    [InternalServerError] "Failed to add message to session" around that of
    [getSession] or of [saveSession], itself around the error of the Redis
    client, and nothing was written: the store is as before, and so is
    the history of every session. *)
Theorem failed_append_writes_nothing env sid m w e :
  fst (addMessageToSession env sid m w) = Err e ->
  (exists inner cause,
      e = AppError InternalServerError (lit "Failed to add message to session") 500
            (lit "INTERNAL_SERVER_ERROR")
            (Cause (AppError InternalServerError inner 500 (lit "INTERNAL_SERVER_ERROR")
                      (Cause cause))) /\
      (inner = lit "Failed to retrieve chat session" \/
       inner = lit "Failed to save chat session")) /\
  redis (snd (addMessageToSession env sid m w)) = redis w /\
  forall sid', history (snd (addMessageToSession env sid m w)) sid' = history w sid'.
Proof.
  intros H.
  assert (Hfact :
    (exists inner cause,
        e = AppError InternalServerError (lit "Failed to add message to session") 500
              (lit "INTERNAL_SERVER_ERROR")
              (Cause (AppError InternalServerError inner 500 (lit "INTERNAL_SERVER_ERROR")
                        (Cause cause))) /\
        (inner = lit "Failed to retrieve chat session" \/
         inner = lit "Failed to save chat session")) /\
    redis (snd (addMessageToSession env sid m w)) = redis w /\
    now (snd (addMessageToSession env sid m w)) = now w).
  { revert H.
    unfold addMessageToSession, getSession, saveSession, client_get, client_setex,
      redis_call, try_catch, bind, emit, logger, newDate, update_world, ret, throw.
    cbn.
    destruct (redis_fault env (length (trace w)) GET) as [c |]; cbn.
    - intros [= <-]. split_and!; [| done | done]. eexists _, c. split; [reflexivity |]. auto.
    - rewrite live_add_event.
      destruct (live w (getSessionKey sid)); cbn;
        destruct (redis_fault env _ SETEX) as [c |]; cbn; try discriminate.
      all: intros [= <-]; split_and!; [| done | done].
      all: eexists _, c; split; [reflexivity |]; auto. }
  destruct Hfact as (He & Hr & Hn). split_and!; [exact He | exact Hr |].
  intros sid'. unfold history, live. rewrite Hr, Hn. reflexivity.
Qed.

Lemma failed_append_writes_nothing_witness :
  (exists inner cause,
      AppError InternalServerError (lit "Failed to add message to session") 500
        (lit "INTERNAL_SERVER_ERROR")
        (Cause (AppError InternalServerError (lit "Failed to retrieve chat session") 500
                  (lit "INTERNAL_SERVER_ERROR")
                  (Cause (JsError (lit "Connection is closed.")))))
      = AppError InternalServerError (lit "Failed to add message to session") 500
          (lit "INTERNAL_SERVER_ERROR")
          (Cause (AppError InternalServerError inner 500 (lit "INTERNAL_SERVER_ERROR")
                    (Cause cause))) /\
      (inner = lit "Failed to retrieve chat session" \/
       inner = lit "Failed to save chat session")) /\
  redis (snd (addMessageToSession (stub_env_down []) (lit "s1") question s1_world))
  = redis s1_world /\
  forall sid',
    history (snd (addMessageToSession (stub_env_down []) (lit "s1") question s1_world)) sid'
    = history s1_world sid'.
Proof.
  apply (failed_append_writes_nothing (stub_env_down []) (lit "s1") question s1_world).
  reflexivity.
Defined.

(** ** The errors of the embedding client *)

(** X7. Every rejection of [generateEmbeddings] is an [ExternalServiceError]
    (status 502) of the service "Jina Embeddings API". When the HTTP client
    failed, its message is the message of the response body, or else that of
    the client error, and its details hold the status of the response, or
    else 500. In every other case (a reply without embeddings included) the
    message is "Unknown error occurred" and there are no details. *)
Theorem generateEmbeddings_rejections env texts w e :
  fst (generateEmbeddings env texts w) = Err e ->
  exists m d,
    e = AppError ExternalServiceError (lit "Jina Embeddings API: " ++ m) 502
          (lit "EXTERNAL_SERVICE_ERROR") d /\
    match jina_reply env (length (trace w)) ((fun text => take 8192 text) <$> texts) with
    | Err (AxiosError msg status dataMessage) =>
        m = match dataMessage with Some (c :: rest) => c :: rest | _ => msg end /\
        d = StatusInfo (match status with
                        | Some code => if code =? 0 then 500 else code
                        | None => 500
                        end) msg
    | _ => m = lit "Unknown error occurred" /\ d = NoDetails
    end.
Proof.
  assert (Hsent : (fun text => slice 0 8192 text) <$> texts
                  = (fun text => take 8192 text) <$> texts).
  { apply list_fmap_ext. intros i x _. apply slice_0. }
  revert Hsent. generalize ((fun text : jsstring => take 8192 text) <$> texts).
  intros sent Hsent.
  unfold generateEmbeddings, axios_post, try_catch, bind, emit, logger, ret, throw.
  destruct (bool_decide (length texts = 0%nat)); [discriminate |].
  rewrite Hsent. cbn.
  destruct (jina_reply env (length (trace w)) sent) as [[items | embeddings |] | c]; cbn;
    try discriminate.
  - intros [= <-]. eexists _, _. split; [reflexivity |]. done.
  - destruct c as [msg | msg status dataMessage | | ]; cbn; intros [= <-];
      eexists _, _; (split; [reflexivity |]); try done.
    split; [destruct dataMessage as [[| ? ?] |]; reflexivity |].
    destruct status as [code |]; reflexivity.
Qed.

Lemma generateEmbeddings_rejections_witness :
  exists m d,
    newExternalServiceError (lit "Jina Embeddings API") (lit "Rate limit exceeded")
      (StatusInfo 429 (lit "Request failed with status code 429"))
    = AppError ExternalServiceError (lit "Jina Embeddings API: " ++ m) 502
        (lit "EXTERNAL_SERVICE_ERROR") d /\
    m = lit "Rate limit exceeded" /\
    d = StatusInfo 429 (lit "Request failed with status code 429").
Proof.
  destruct (generateEmbeddings_rejections (stub_env_limited []) [lit "What is AI?"]
              empty_world _ eq_refl) as (m & d & He & Hm & Hd).
  exists m, d. split_and!; [exact He | exact Hm | exact Hd].
Defined.

(** ** What the routes answer *)

(** X8. The chat route is decided by the validation and by [processQuery]
    called with the limit 5 and the threshold 0.7. When the validation found
    errors it answers 400 "Invalid request data" with the code
    VALIDATION_ERROR, the world left exactly as it was. When it found none,
    it answers 200 with the response of [processQuery] whenever
    [processQuery] returns one, and 500 "Failed to process chat query" with
    the code INTERNAL_SERVER_ERROR whenever [processQuery] rejects. Outside
    development an error body discloses nothing beside message and code. *)
Theorem chat_route_answers nodeEnv env req w :
  let out := route nodeEnv (chat env req) w in
  (chat_errors req <> [] ->
   exists r,
     fst out = inr r /\ error_status r = 400 /\
     error_code r = lit "VALIDATION_ERROR" /\
     error_message r = lit "Invalid request data" /\ snd out = w /\
     (nodeEnv <> lit "development" -> error_disclosed r = Nothing)) /\
  (chat_errors req = [] ->
   match fst (processQuery env (req_session_id req) (req_user_message req) 5
                double_0_7 w) with
   | Ok resp => fst out = inl (200, resp)
   | Err _ =>
       exists r,
         fst out = inr r /\ error_status r = 500 /\
         error_code r = lit "INTERNAL_SERVER_ERROR" /\
         error_message r = lit "Failed to process chat query" /\
         (nodeEnv <> lit "development" -> error_disclosed r = Nothing)
   end).
Proof.
  unfold route, chat, respond, checkValidation, bind, logger, ret, throw.
  split; intros Hv.
  - rewrite bool_decide_false by exact Hv. cbn. eexists. split; [reflexivity |].
    split_and!; try reflexivity.
    intros Hd. cbn. rewrite bool_decide_false by exact Hd. reflexivity.
  - rewrite bool_decide_true by exact Hv.
    pose proof (processQuery_outcome env (req_session_id req) (req_user_message req) 5
                  double_0_7 w) as Hout.
    destruct (processQuery env (req_session_id req) (req_user_message req) 5 double_0_7 w)
      as [[resp | e] w1]; cbn in Hout |- *.
    + reflexivity.
    + destruct Hout as [[resp [=]] | [c [= ->]]]. cbn.
      eexists. split; [reflexivity |]. split_and!; try reflexivity.
      intros Hd. cbn. rewrite bool_decide_false by exact Hd. reflexivity.
Qed.

Lemma searchSimilarDocuments_outcome env query limit threshold w :
  (exists rs, fst (searchSimilarDocuments env query limit threshold w) = Ok rs) \/
  (exists c, fst (searchSimilarDocuments env query limit threshold w)
             = Err (newInternalServerError (lit "Failed to search documents") (Cause c))).
Proof.
  unfold searchSimilarDocuments, try_catch, logger, throw.
  match goal with
  | |- context [bind ?m ?k w] => destruct (bind m k w) as [[rs | e] w1]
  end; cbn; eauto.
Qed.

(** X9. The search route is decided by the validation and by
    [searchSimilarDocuments] called with the query, the limit
    [min(limit, 20)] and the threshold [max(threshold, 0.3)], 10 and 0.6
    standing for a missing limit and threshold. When the validation found
    errors it answers 400 "Invalid request data" with the code
    VALIDATION_ERROR, the world left exactly as it was. When it found none,
    it answers 200 with the query, the results and their count whenever the
    search returns, and 500 "Failed to search documents" with the code
    INTERNAL_SERVER_ERROR whenever the search rejects. *)
Theorem search_route_answers nodeEnv env req w :
  let out := route nodeEnv (searchDocuments env req) w in
  (search_errors req <> [] ->
   exists r,
     fst out = inr r /\ error_status r = 400 /\
     error_code r = lit "VALIDATION_ERROR" /\
     error_message r = lit "Invalid request data" /\ snd out = w) /\
  (search_errors req = [] ->
   match fst (searchSimilarDocuments env (req_query req)
                (Z.min (default 10 (req_limit req)) 20)
                (Qmax (default double_0_6 (req_threshold req)) double_0_3) w) with
   | Ok results =>
       fst out = inl (200, {| search_query := req_query req; search_results := results;
                              result_count := length results |})
   | Err _ =>
       exists r,
         fst out = inr r /\ error_status r = 500 /\
         error_code r = lit "INTERNAL_SERVER_ERROR" /\
         error_message r = lit "Failed to search documents"
   end).
Proof.
  unfold route, searchDocuments, respond, checkValidation, bind, ret, throw. cbv zeta.
  split; intros Hv.
  - rewrite bool_decide_false by exact Hv. cbn. eexists. split; [reflexivity |].
    split_and!; reflexivity.
  - rewrite bool_decide_true by exact Hv.
    match goal with
    | |- context [searchSimilarDocuments env ?q ?l ?t w] =>
        pose proof (searchSimilarDocuments_outcome env q l t w) as Hout;
        destruct (searchSimilarDocuments env q l t w) as [[rs | e] w1]
    end; cbn in Hout |- *; [reflexivity |].
    destruct Hout as [[rs [=]] | [c [= ->]]]. cbn.
    eexists. split; [reflexivity |]. split_and!; reflexivity.
Qed.

Lemma chat_route_answers_witness :
  let req := {| chat_errors := []; req_session_id := lit "s1";
                req_user_message := lit "What is AI?" |} in
  fst (route (lit "production") (chat (stub_env (lit "It is.")) req) empty_world)
  = inl (200, {| message := lit "It is."; response_session_id := lit "s1";
                 message_id := lit "id-1";
                 sources := [ {| chunk_id := lit "d1"; chunk_content := lit "AI is...";
                                 metadata := unknownMetadata;
                                 score := Some (9 # 10)%Q |} ] |}) /\
  (exists r,
      fst (route (lit "production") (chat (stub_env []) req) empty_world) = inr r /\
      error_status r = 500 /\ error_code r = lit "INTERNAL_SERVER_ERROR" /\
      error_message r = lit "Failed to process chat query" /\
      error_disclosed r = Nothing) /\
  (exists r,
      fst (route (lit "production")
             (chat (stub_env (lit "It is."))
                {| chat_errors := [lit "user_message is required"];
                   req_session_id := lit "s1"; req_user_message := [] |}) empty_world)
      = inr r /\
      error_status r = 400 /\ error_code r = lit "VALIDATION_ERROR").
Proof.
  intros req. split_and!.
  - assert (E : fst (processQuery (stub_env (lit "It is.")) (lit "s1") (lit "What is AI?") 5
                       double_0_7 empty_world)
                = Ok {| message := lit "It is."; response_session_id := lit "s1";
                        message_id := lit "id-1";
                        sources := [ {| chunk_id := lit "d1";
                                        chunk_content := lit "AI is...";
                                        metadata := unknownMetadata;
                                        score := Some (9 # 10)%Q |} ] |})
      by (vm_compute; reflexivity).
    destruct (chat_route_answers (lit "production") (stub_env (lit "It is.")) req
                empty_world) as [_ H].
    specialize (H eq_refl). cbn [req_session_id req_user_message req] in H.
    rewrite E in H. exact H.
  - assert (E : exists e, fst (processQuery (stub_env []) (lit "s1") (lit "What is AI?") 5
                                 double_0_7 empty_world) = Err e)
      by (eexists; vm_compute; reflexivity).
    destruct E as (e & E).
    destruct (chat_route_answers (lit "production") (stub_env []) req empty_world)
      as [_ H].
    specialize (H eq_refl). cbn [req_session_id req_user_message req] in H.
    rewrite E in H. destruct H as (r & Hr & Hs & Hc & Hm & Hd).
    exists r. split_and!; try assumption. apply Hd. discriminate.
  - destruct (chat_route_answers (lit "production") (stub_env (lit "It is."))
                {| chat_errors := [lit "user_message is required"];
                   req_session_id := lit "s1"; req_user_message := [] |} empty_world)
      as [H _].
    destruct H as (r & Hr & Hs & Hc & _); [discriminate |].
    exists r. done.
Defined.

Lemma search_route_answers_witness :
  let req := {| search_errors := []; req_query := lit "What is AI?";
                req_limit := Some 50; req_threshold := None |} in
  exists results,
    fst (route (lit "production") (searchDocuments (stub_env (lit "It is.")) req)
           empty_world)
    = inl (200, {| search_query := lit "What is AI?"; search_results := results;
                   result_count := 1 |}).
Proof.
  intros req.
  assert (E : exists result,
             fst (searchSimilarDocuments (stub_env (lit "It is.")) (lit "What is AI?")
                    (Z.min (default 10 (Some 50)) 20)
                    (Qmax (default double_0_6 None) double_0_3) empty_world)
             = Ok [result])
    by (eexists; vm_compute; reflexivity).
  destruct E as (result & E).
  destruct (search_route_answers (lit "production") (stub_env (lit "It is.")) req
              empty_world) as [_ H].
  specialize (H eq_refl). cbn [req_query req_limit req_threshold req] in H.
  rewrite E in H. exists [result]. exact H.
Defined.

(** ** History and clearing, through the routes *)

Lemma getChatHistory_run env sid w :
  redis_fault env (length (trace w)) GET = None ->
  exists w', getChatHistory env sid w = (Ok (history w sid), w') /\
             redis w' = redis w /\ now w' = now w.
Proof.
  intros Hg. destruct (getSession_run env sid w Hg) as (w1 & E & Hr & Hn & _).
  unfold getChatHistory, try_catch, bind, ret. rewrite E. cbn.
  eexists. split; [| done]. unfold history.
  destruct (live w (getSessionKey sid)); reflexivity.
Qed.

(** X10. The history route, given a session id, answers 200 with the messages
    of the session and their count when the Redis command does not fail; for
    a session that is absent or has expired this is the empty sequence and
    the count 0, not an error. When the command fails it answers 500
    "Failed to retrieve chat history". Without a session id it answers 400
    "Session ID is required" and leaves the world exactly as it was. *)
Theorem history_route_answers nodeEnv env sid w :
  fst (route nodeEnv (getHistory env None) w)
  = inr (errorHandler nodeEnv (newValidationError (lit "Session ID is required") NoDetails))
  /\ snd (route nodeEnv (getHistory env None) w) = w /\
  error_status (errorHandler nodeEnv
                  (newValidationError (lit "Session ID is required") NoDetails)) = 400 /\
  (sid <> [] ->
   match redis_fault env (length (trace w)) GET with
   | None =>
       fst (route nodeEnv (getHistory env (Some sid)) w)
       = inl (200, {| history_session_id := sid; history_messages := history w sid;
                      message_count := length (history w sid) |}) /\
       (live w (getSessionKey sid) = None ->
        fst (route nodeEnv (getHistory env (Some sid)) w)
        = inl (200, {| history_session_id := sid; history_messages := [];
                       message_count := 0 |}))
   | Some _ =>
       exists r, fst (route nodeEnv (getHistory env (Some sid)) w) = inr r /\
                 error_status r = 500 /\
                 error_message r = lit "Failed to retrieve chat history"
   end).
Proof.
  split_and!; [reflexivity | reflexivity | reflexivity |].
  intros Hne. destruct sid as [| c sid]; [done |].
  destruct (redis_fault env (length (trace w)) GET) as [e |] eqn:Hg.
  - unfold route, getHistory, respond, getChatHistory, getSession, client_get, redis_call,
      try_catch, bind, emit, logger, throw.
    cbn. rewrite Hg. cbn. eexists. split; [reflexivity |]. done.
  - destruct (getChatHistory_run env (c :: sid) w Hg) as (w' & E & _).
    assert (H : fst (route nodeEnv (getHistory env (Some (c :: sid))) w)
                = inl (200, {| history_session_id := c :: sid;
                               history_messages := history w (c :: sid);
                               message_count := length (history w (c :: sid)) |})).
    { unfold route, getHistory, respond, bind, ret. rewrite E. reflexivity. }
    split; [exact H |]. intros Hl. rewrite H. unfold history. rewrite Hl. reflexivity.
Qed.

Lemma history_route_answers_witness :
  fst (route (lit "production") (getHistory (stub_env []) (Some (lit "nobody"))) s1_world)
  = inl (200, {| history_session_id := lit "nobody"; history_messages := [];
                 message_count := 0 |}).
Proof.
  destruct (history_route_answers (lit "production") (stub_env []) (lit "nobody") s1_world)
    as (_ & _ & _ & H).
  specialize (H ltac:(discriminate)). cbn in H. destruct H as [_ H].
  apply H. reflexivity.
Defined.

(** X11. The clearing route, given a session id and when the Redis command
    does not fail, answers 200 with [cleared] set when the session was live,
    and from then on the history route answers 200 with no message; when
    the session was absent or had expired it answers 404 "Chat session not
    found: " followed by the id, with the code NOT_FOUND. *)
Theorem clear_route_answers nodeEnv env sid w :
  sid <> [] ->
  redis_fault env (length (trace w)) DEL = None ->
  let out := route nodeEnv (clearHistory env (Some sid)) w in
  match live w (getSessionKey sid) with
  | Some _ =>
      fst out = inl (200, {| cleared_session_id := sid; cleared := true |}) /\
      (redis_fault env (length (trace (snd out))) GET = None ->
       fst (route nodeEnv (getHistory env (Some sid)) (snd out))
       = inl (200, {| history_session_id := sid; history_messages := [];
                      message_count := 0 |}))
  | None =>
      exists r, fst out = inr r /\ error_status r = 404 /\
                error_code r = lit "NOT_FOUND" /\
                error_message r = lit "Chat session not found: " ++ sid
  end.
Proof.
  intros Hne Hd out.
  destruct sid as [| c sid]; [done |]. set (id := c :: sid) in *.
  destruct (deleteSession_run env id w Hd) as (w1 & E1 & Hr1 & Hn1 & Ht1).
  assert (Hout : out = route nodeEnv (clearHistory env (Some id)) w) by reflexivity.
  unfold route, clearHistory, respond, clearChatHistory, try_catch, bind in Hout.
  subst id. cbv beta iota in Hout. rewrite E1 in Hout. cbv beta iota in Hout.
  destruct (live w (getSessionKey (c :: sid))) as [e |] eqn:El.
  - rewrite bool_decide_true in Hout by eauto. cbn in Hout. rewrite Hout. cbn [fst snd].
    split; [reflexivity |]. intros Hg.
    assert (Hgone : history (add_log {| level := LogInfo;
                                        text := lit "Chat history cleared for session: "
                                                ++ c :: sid;
                                        attached := None |} w1) (c :: sid) = []).
    { unfold history, live. cbn. rewrite Hr1, lookup_delete_eq. reflexivity. }
    destruct (getChatHistory_run env (c :: sid) _ Hg) as (w2 & E2 & _).
    unfold route, getHistory, respond, bind, ret. rewrite E2, Hgone. reflexivity.
  - rewrite bool_decide_false in Hout by (intros [? ?]; discriminate).
    cbn in Hout. rewrite Hout. cbn. eexists. split; [reflexivity |]. done.
Qed.

Lemma clear_route_answers_witness :
  (let out := route (lit "production") (clearHistory (stub_env []) (Some (lit "s1")))
                s1_world in
   fst out = inl (200, {| cleared_session_id := lit "s1"; cleared := true |}) /\
   fst (route (lit "production") (getHistory (stub_env []) (Some (lit "s1"))) (snd out))
   = inl (200, {| history_session_id := lit "s1"; history_messages := [];
                  message_count := 0 |})) /\
  (exists r,
      fst (route (lit "production") (clearHistory (stub_env []) (Some (lit "s1")))
             empty_world) = inr r /\
      error_status r = 404 /\ error_code r = lit "NOT_FOUND" /\
      error_message r = lit "Chat session not found: " ++ lit "s1").
Proof.
  split.
  - pose proof (clear_route_answers (lit "production") (stub_env []) (lit "s1") s1_world
                  ltac:(discriminate) eq_refl) as H.
    cbn zeta in H.
    change (live s1_world (getSessionKey (lit "s1")))
      with (Some {| entry_value := {| session_id := lit "s1"; messages := [hello];
                                      createdAt := 400; updatedAt := 400 |};
                    entry_expires := 86400400 |}) in H.
    destruct H as [H1 H2]. split; [exact H1 | apply H2; reflexivity].
  - exact (clear_route_answers (lit "production") (stub_env []) (lit "s1") empty_world
             ltac:(discriminate) eq_refl).
Defined.

(** ** Batches of embeddings *)

Section Batches.

Context (env : Env) (f : jsstring -> list Q) (Hembeds : embeds env f).

Lemma generateEmbeddings_embeds texts w :
  texts <> [] ->
  exists w',
    generateEmbeddings env texts w = (Ok (f <$> ((fun t => take 8192 t) <$> texts)), w') /\
    trace w' = trace w ++ [JinaPost ((fun t => take 8192 t) <$> texts)] /\
    now w' = now w /\ collection w' = collection w /\ redis w' = redis w.
Proof.
  intros Hne.
  assert (Hsent : (fun text => slice 0 8192 text) <$> texts
                  = (fun t => take 8192 t) <$> texts).
  { apply list_fmap_ext. intros i x _. apply slice_0. }
  revert Hsent. generalize ((fun t : jsstring => take 8192 t) <$> texts). intros sent Hsent.
  unfold generateEmbeddings, axios_post, try_catch, bind, emit, logger, ret, throw.
  rewrite bool_decide_false by (destruct texts; [done | discriminate]).
  rewrite Hsent. cbv beta iota. rewrite Hembeds. cbv beta iota.
  eexists. split; [reflexivity |]. cbn. done.
Qed.

Lemma batched_cons batchSize batch batches :
  (0 < length batch <= batchSize)%nat ->
  (batches <> [] -> length batch = batchSize) ->
  batched batchSize batches ->
  batched batchSize (batch :: batches).
Proof.
  intros Hb Hfull Hrest [| j] b; cbn.
  - intros [= <-]. split; [exact Hb |]. intros Hj. apply Hfull.
    destruct batches; [cbn in Hj; lia | done].
  - intros Hj. destruct (Hrest j b Hj) as [H1 H2]. split; [exact H1 |].
    intros Hlt. apply H2. lia.
Qed.

Lemma batchLoop_embeds texts batchSize fuel :
  (0 < batchSize)%nat ->
  forall i results w,
    (length texts <= i + fuel)%nat ->
    exists w' batches,
      batchLoop env fuel texts batchSize i results w
      = (Ok (results ++ (f <$> ((fun t => take 8192 t) <$> drop i texts))), w') /\
      trace w' = trace w ++ (JinaPost <$> batches) /\
      concat batches = (fun t => take 8192 t) <$> drop i texts /\
      batched batchSize batches /\
      (batches = [] <-> (length texts <= i)%nat) /\
      now w' = now w + 100 * Z.of_nat (length batches - 1) /\
      collection w' = collection w /\ redis w' = redis w.
Proof.
  intros Hbs. induction fuel as [| fuel IH]; intros i results w Hlen.
  - exists w, []. cbn [batchLoop]. rewrite drop_ge by lia. cbn.
    rewrite !app_nil_r. split_and!; try done; try lia; try (split; [lia | done]).
  - cbn [batchLoop]. destruct (Nat.ltb_spec i (length texts)) as [Hi | Hi].
    2: { exists w, []. rewrite drop_ge by lia. cbn. rewrite !app_nil_r.
         split_and!; try done; try lia; try (split; [lia | done]). }
    set (rest := drop i texts).
    assert (Hbatch : slice i (i + batchSize) texts = take batchSize rest).
    { unfold slice. replace (i + batchSize - i)%nat with batchSize by lia. reflexivity. }
    assert (Hrest : length rest = (length texts - i)%nat) by apply length_drop.
    assert (Hne : take batchSize rest <> []).
    { intros Hnil. apply (f_equal length) in Hnil. rewrite length_take in Hnil.
      cbn in Hnil. lia. }
    rewrite Hbatch.
    destruct (generateEmbeddings_embeds (take batchSize rest) w Hne)
      as (w1 & E1 & Ht1 & Hn1 & Hc1 & Hr1).
    unfold bind at 1. rewrite E1.
    set (w2 := if (i + batchSize <? length texts)%nat then elapse 100 w1 else w1).
    assert (Estep :
      bind (if (i + batchSize <? length texts)%nat
            then update_world (elapse 100) else ret tt)
           (fun _ => batchLoop env fuel texts batchSize (i + batchSize)
                       (results ++ (f <$> ((fun t => take 8192 t) <$> take batchSize rest))))
           w1
      = batchLoop env fuel texts batchSize (i + batchSize)
          (results ++ (f <$> ((fun t => take 8192 t) <$> take batchSize rest))) w2).
    { subst w2. unfold bind. destruct (i + batchSize <? length texts)%nat; reflexivity. }
    rewrite Estep.
    destruct (IH (i + batchSize)%nat
                (results ++ (f <$> ((fun t => take 8192 t) <$> take batchSize rest))) w2)
      as (w' & batches & E & Ht & Hcat & Hbd & Hnil & Hn & Hc & Hr); [lia |].
    assert (Hdrop : drop (i + batchSize) texts = drop batchSize rest).
    { subst rest. rewrite drop_drop. reflexivity. }
    assert (Htr2 : trace w2 = trace w1).
    { subst w2. destruct (i + batchSize <? length texts)%nat; reflexivity. }
    assert (Hc2 : collection w2 = collection w1).
    { subst w2. destruct (i + batchSize <? length texts)%nat; reflexivity. }
    assert (Hr2 : redis w2 = redis w1).
    { subst w2. destruct (i + batchSize <? length texts)%nat; reflexivity. }
    exists w', (((fun t => take 8192 t) <$> take batchSize rest) :: batches).
    split_and!.
    + rewrite E, Hdrop, <- app_assoc, <- !fmap_app, take_drop. reflexivity.
    + rewrite Ht, Htr2, Ht1, <- app_assoc. reflexivity.
    + cbn [concat]. rewrite Hcat, Hdrop, <- fmap_app, take_drop. reflexivity.
    + apply batched_cons; [| | exact Hbd].
      * rewrite length_fmap, length_take. lia.
      * intros Hb. rewrite length_fmap, length_take.
        destruct (Nat.le_gt_cases (length texts) (i + batchSize)) as [Hle | Hgt];
          [apply Hnil in Hle; done | lia].
    + split; [discriminate | lia].
    + rewrite Hn. subst w2. cbn [length].
      destruct (Nat.ltb_spec (i + batchSize) (length texts)) as [Hlt | Hge].
      * cbn [now elapse]. rewrite Hn1.
        destruct batches as [| b bs]; [destruct Hnil as [Hnil _]; specialize (Hnil eq_refl); lia |].
        cbn [length]. lia.
      * apply Hnil in Hge. subst batches. cbn. rewrite Hn1. lia.
    + congruence.
    + congruence.
Qed.

End Batches.

Lemma batchEmbeddings_embeds env f texts batchSize w :
  embeds env f ->
  (0 < batchSize)%nat ->
  exists w' batches,
    batchEmbeddings env texts batchSize w
    = (Ok (f <$> ((fun t => take 8192 t) <$> texts)), w') /\
    trace w' = trace w ++ (JinaPost <$> batches) /\
    concat batches = (fun t => take 8192 t) <$> texts /\
    batched batchSize batches /\
    now w' = now w + 100 * Z.of_nat (length batches - 1) /\
    collection w' = collection w /\ redis w' = redis w.
Proof.
  intros Hembeds Hbs. unfold batchEmbeddings.
  destruct (bool_decide (length texts = 0%nat)) eqn:Hz.
  - apply bool_decide_eq_true in Hz. destruct texts; [| discriminate].
    exists w, []. cbn. rewrite app_nil_r. split_and!; try done. lia.
  - destruct (batchLoop_embeds env f Hembeds texts batchSize (length texts) Hbs 0%nat [] w)
      as (w' & batches & E & Ht & Hcat & Hbd & _ & Hn & Hc & Hr); [lia |].
    unfold bind, logger, ret. rewrite E. cbn.
    eexists _, batches. split; [reflexivity |]. cbn. done.
Qed.

(** X12. With an embedding provider that answers every call with one vector
    for each text, [batchEmbeddings] with a positive batch size returns the
    vectors of all the texts, each cut to 8192 code units, in the order of
    the texts. It calls the provider once for each batch; the batches, put
    end to end, are the cut texts; none is empty and all hold [batchSize]
    texts but possibly the last; and it waits 100 ms between two batches:
    the clock ends 100 ms times the number of batches less one later. *)
Theorem batchEmbeddings_batches env f texts batchSize w :
  embeds env f ->
  (0 < batchSize)%nat ->
  exists w' batches,
    batchEmbeddings env texts batchSize w
    = (Ok (f <$> ((fun t => take 8192 t) <$> texts)), w') /\
    trace w' = trace w ++ (JinaPost <$> batches) /\
    concat batches = (fun t => take 8192 t) <$> texts /\
    batched batchSize batches /\
    now w' = now w + 100 * Z.of_nat (length batches - 1).
Proof.
  intros Hembeds Hbs.
  destruct (batchEmbeddings_embeds env f texts batchSize w Hembeds Hbs)
    as (w' & batches & E & Ht & Hcat & Hbd & Hn & _).
  exists w', batches. done.
Qed.

Lemma batchEmbeddings_batches_witness :
  exists w' batches,
    batchEmbeddings (stub_env []) (replicate 25 (lit "text")) 10 empty_world
    = (Ok ((fun _ => [1%Q]) <$> ((fun t => take 8192 t) <$> replicate 25 (lit "text"))), w')
    /\ trace w' = trace empty_world ++ (JinaPost <$> batches) /\
    concat batches = (fun t => take 8192 t) <$> replicate 25 (lit "text") /\
    batched 10 batches /\
    now w' = now empty_world + 100 * Z.of_nat (length batches - 1).
Proof.
  apply (batchEmbeddings_batches (stub_env []) (fun _ => [1%Q]) (replicate 25 (lit "text"))
           10 empty_world).
  - intros n input. reflexivity.
  - lia.
Defined.

(** Twenty-five texts in batches of ten: three calls and 200 ms. *)
Example batchEmbeddings_25 :
  let w' := snd (batchEmbeddings (stub_env []) (replicate 25 (lit "text")) 10 empty_world) in
  length (trace w') = 3%nat /\ now w' = now empty_world + 200.
Proof. split; vm_compute; reflexivity. Qed.

(** ** Documents in the vector store *)

Lemma upsert_points_other points c id :
  (forall p, p ∈ points -> point_id p <> id) ->
  upsert_points points c !! id = c !! id.
Proof.
  unfold upsert_points. revert c. induction points as [| q rest IH]; intros c Hother.
  - reflexivity.
  - cbn [foldl]. rewrite IH.
    + apply lookup_insert_ne, Hother. left.
    + intros p Hp. apply Hother. right. exact Hp.
Qed.

Lemma upsert_points_last points c i p :
  points !! i = Some p ->
  (forall j q, (i < j)%nat -> points !! j = Some q -> point_id q <> point_id p) ->
  upsert_points points c !! point_id p = Some p.
Proof.
  revert c i. induction points as [| q rest IH]; intros c i Hi Hlast.
  - discriminate.
  - destruct i as [| i]; cbn in Hi.
    + injection Hi as ->.
      change (upsert_points (p :: rest) c)
        with (upsert_points rest (<[point_id p := p]> c)).
      rewrite upsert_points_other; [apply lookup_insert_eq |].
      intros q [j Hj]%list_elem_of_lookup. apply (Hlast (S j)); [lia | exact Hj].
    + change (upsert_points (q :: rest) c)
        with (upsert_points rest (<[point_id q := q]> c)).
      apply (IH _ i Hi). intros j q' Hlt Hj. apply (Hlast (S j)); [lia | exact Hj].
Qed.

Lemma points_of_documents f (documents : list DocumentChunk) :
  imap (fun index doc =>
          {| point_id := chunk_id doc;
             vector := default []
               ((f <$> ((fun t => take 8192 t) <$> (chunk_content <$> documents))) !! index);
             point_content := chunk_content doc;
             point_metadata := metadata doc |}) documents
  = (fun doc => pointOf (f (take 8192 (chunk_content doc))) doc) <$> documents.
Proof.
  apply list_eq. intros i. rewrite list_lookup_imap, !list_lookup_fmap.
  destruct (documents !! i) as [doc |] eqn:Hdoc; [| reflexivity].
  reflexivity.
Qed.

Lemma indexDocuments_embeds env f documents w :
  embeds env f ->
  (forall n, qdrant_upsert_fault env n = None) ->
  exists w',
    indexDocuments env documents w = (Ok tt, w') /\
    collection w'
    = upsert_points ((fun doc => pointOf (f (take 8192 (chunk_content doc))) doc) <$> documents)
        (collection w).
Proof.
  intros Hembeds Hupsert. unfold indexDocuments.
  destruct (bool_decide (length documents = 0%nat)) eqn:Hz.
  - apply bool_decide_eq_true in Hz. destruct documents; [| discriminate].
    eexists. split; reflexivity.
  - destruct (batchEmbeddings_embeds env f (chunk_content <$> documents) 10 w Hembeds)
      as (w1 & batches & E & _ & _ & _ & _ & Hc & _); [lia |].
    unfold try_catch, bind at 1. rewrite E. cbv beta iota.
    unfold upsertDocuments, client_upsert, try_catch, emit, update_world, logger,
      ret, throw, bind.
    rewrite bool_decide_false by (rewrite !length_fmap; intros Hne; apply Hne; reflexivity).
    rewrite points_of_documents. cbv beta iota. rewrite Hupsert. cbv beta iota.
    eexists. split; [reflexivity |]. cbn. rewrite Hc. reflexivity.
Qed.

Lemma getDocumentById_run more id w :
  qdrant_retrieve_fault more (length (trace w)) = None ->
  fst (getDocumentById more id w)
  = Ok (match collection w !! id with
        | Some p => Some {| chunk_id := point_id p; chunk_content := point_content p;
                            metadata := point_metadata p; score := None |}
        | None => None
        end).
Proof.
  intros Hfault.
  unfold getDocumentById, try_catch, bind, client_retrieve, ret. rewrite Hfault. cbn.
  destruct (collection w !! id) as [p |]; cbn; [| reflexivity].
  destruct (point_content p); reflexivity.
Qed.

(** X13. When the embedding provider answers every call and no upsert fails,
    [indexDocuments] succeeds, and afterwards the vector store holds, under
    the id of each document, the point of the last document of the input
    with this id: its content and metadata with the vector of its content
    cut to 8192 code units; points under other ids are as before. From
    then on [getDocumentById] returns this document, with its content and
    metadata and without a score. *)
Theorem indexed_document_retrievable env more f documents i d w :
  embeds env f ->
  (forall n, qdrant_upsert_fault env n = None) ->
  documents !! i = Some d ->
  (forall j d', (i < j)%nat -> documents !! j = Some d' -> chunk_id d' <> chunk_id d) ->
  exists w',
    indexDocuments env documents w = (Ok tt, w') /\
    collection w' !! chunk_id d = Some (pointOf (f (take 8192 (chunk_content d))) d) /\
    (forall id, id ∉ chunk_id <$> documents -> collection w' !! id = collection w !! id) /\
    (forall w'', collection w'' = collection w' ->
       qdrant_retrieve_fault more (length (trace w'')) = None ->
       fst (getDocumentById more (chunk_id d) w'')
       = Ok (Some {| chunk_id := chunk_id d; chunk_content := chunk_content d;
                     metadata := metadata d; score := None |})).
Proof.
  intros Hembeds Hupsert Hi Hlast.
  destruct (indexDocuments_embeds env f documents w Hembeds Hupsert) as (w' & E & Hc).
  assert (Hpoint : collection w' !! chunk_id d
                   = Some (pointOf (f (take 8192 (chunk_content d))) d)).
  { rewrite Hc.
    apply (upsert_points_last _ _ i (pointOf (f (take 8192 (chunk_content d))) d)).
    - rewrite list_lookup_fmap, Hi. reflexivity.
    - intros j q Hlt Hj. rewrite list_lookup_fmap in Hj.
      destruct (documents !! j) as [d' |] eqn:Hd'; [| discriminate].
      injection Hj as <-. exact (Hlast j d' Hlt Hd'). }
  exists w'. split_and!; [exact E | exact Hpoint | |].
  - intros id Hid. rewrite Hc. apply upsert_points_other.
    intros p [d' [-> Hd']]%list_elem_of_fmap Heq. apply Hid.
    apply list_elem_of_fmap. exists d'. split; [symmetry; exact Heq | exact Hd'].
  - intros w'' Hsame Hfault. rewrite (getDocumentById_run more _ w'' Hfault), Hsame, Hpoint.
    reflexivity.
Qed.

Lemma indexed_document_retrievable_witness :
  exists w',
    indexDocuments (stub_env []) [article; other_article; article] empty_world = (Ok tt, w') /\
    collection w' !! chunk_id article
    = Some (pointOf ((fun _ => [1%Q]) (take 8192 (chunk_content article))) article) /\
    (forall id, id ∉ chunk_id <$> [article; other_article; article] ->
       collection w' !! id = collection empty_world !! id) /\
    (forall w'', collection w'' = collection w' ->
       qdrant_retrieve_fault stub_more (length (trace w'')) = None ->
       fst (getDocumentById stub_more (chunk_id article) w'')
       = Ok (Some {| chunk_id := chunk_id article; chunk_content := chunk_content article;
                     metadata := metadata article; score := None |})).
Proof.
  apply (indexed_document_retrievable (stub_env []) stub_more (fun _ => [1%Q])
           [article; other_article; article] 2 article empty_world).
  - intros n input. reflexivity.
  - intros n. reflexivity.
  - reflexivity.
  - intros [| [| [| j]]] d' Hlt Hj; try lia. discriminate.
Defined.

(** X14. [deleteDocument] returns [true] whenever the store accepts the
    deletion, whether or not a point with this id existed; the point is
    gone, the other points stay, and [getDocumentById] then returns no
    document. When the store refuses, the rejection is the internal error
    "Failed to delete document from vector database" around the store's
    error, and no point is removed. *)
Theorem deleted_document_gone more id w :
  match qdrant_delete_fault more (length (trace w)) with
  | None =>
      exists w',
        deleteDocument more id w = (Ok true, w') /\
        collection w' = delete id (collection w) /\
        (forall w'', collection w'' = collection w' ->
           qdrant_retrieve_fault more (length (trace w'')) = None ->
           fst (getDocumentById more id w'') = Ok None)
  | Some e =>
      exists w',
        deleteDocument more id w
        = (Err (newInternalServerError
                  (lit "Failed to delete document from vector database") (Cause e)), w') /\
        collection w' = collection w
  end.
Proof.
  unfold deleteDocument, try_catch, bind, client_delete, logger, ret, throw.
  destruct (qdrant_delete_fault more (length (trace w))) as [e |]; cbn.
  - eexists. split; reflexivity.
  - eexists. split_and!; [reflexivity | reflexivity |].
    intros w'' Hsame Hfault. rewrite (getDocumentById_run more _ w'' Hfault), Hsame. cbn.
    rewrite lookup_delete_eq. reflexivity.
Qed.

(** ** Counting sessions, and the statistics *)

Lemma getSessionCount_run more w :
  exists w',
    getSessionCount more w
    = (Ok (match redis_keys_fault more (length (trace w)) with
           | None => liveSessions w
           | Some _ => 0%nat
           end), w') /\
    redis w' = redis w /\ collection w' = collection w /\ now w' = now w /\
    trace w' = trace w.
Proof.
  unfold getSessionCount, try_catch, bind, client_keys, logger, ret, liveSessions.
  destruct (redis_keys_fault more (length (trace w))); cbn.
  - eexists. split; [reflexivity |]. done.
  - eexists. split; [| done]. rewrite length_fmap, length_map_to_list. reflexivity.
Qed.

Lemma session_key_matches sid t e :
  t < entry_expires e ->
  matching (lit "chat:session:") t (getSessionKey sid, e).
Proof. intros Ht. split; [exists sid; reflexivity | exact Ht]. Qed.

Lemma filter_lookup_live w sid :
  filter (matching (lit "chat:session:") (now w)) (redis w) !! getSessionKey sid
  = live w (getSessionKey sid).
Proof.
  destruct (live w (getSessionKey sid)) as [e |] eqn:Hlive.
  - apply live_Some in Hlive as [Hget Hlt].
    apply map_lookup_filter_Some. split; [exact Hget |].
    apply session_key_matches. exact Hlt.
  - apply map_lookup_filter_None.
    destruct (redis w !! getSessionKey sid) as [e |] eqn:Hget; [right | left; reflexivity].
    intros e' [= <-] [_ Hlt]. cbn in Hlt.
    assert (Hsome : live w (getSessionKey sid) = Some e) by (apply live_Some; done).
    congruence.
Qed.

(** X15. With a working listing, [getSessionCount] returns
    [liveSessions]: the number of keys of the store that start with
    "chat:session:" and have not expired. An accepted
    [addMessageToSession] leaves this count as it was when the session was
    live and raises it by one when the session was absent or had expired; an
    accepted [deleteSession] lowers it by one exactly when it returns
    [true]. *)
Theorem session_count_tracks env more sid m w :
  store_wf w ->
  (forall n, redis_keys_fault more n = None) ->
  let c := liveSessions w in
  fst (getSessionCount more w) = Ok c /\
  (fst (addMessageToSession env sid m w) = Ok tt ->
   fst (getSessionCount more (snd (addMessageToSession env sid m w)))
   = Ok (match live w (getSessionKey sid) with Some _ => c | None => S c end)) /\
  (forall deleted, fst (deleteSession env sid w) = Ok deleted ->
   fst (getSessionCount more (snd (deleteSession env sid w)))
   = Ok (if deleted then pred c else c)).
Proof.
  intros Hwf Hkeys c. subst c.
  assert (Hcount : forall w0, fst (getSessionCount more w0) = Ok (liveSessions w0)).
  { intros w0. destruct (getSessionCount_run more w0) as (w' & E & _).
    rewrite E, Hkeys. reflexivity. }
  split_and!; [apply Hcount | |].
  - intros Hok. rewrite Hcount. f_equal.
    destruct (addMessageToSession_store env sid m w) as [Hnow [[_ Hredis] | [[e He] _]]];
      [| congruence].
    unfold liveSessions. rewrite Hredis, Hnow, (appended_id w sid m Hwf).
    rewrite map_filter_insert_True
      by (apply session_key_matches; cbn; unfold SESSION_TTL; lia).
    rewrite map_size_insert, filter_lookup_live.
    destruct (live w (getSessionKey sid)); reflexivity.
  - intros deleted Hok. rewrite Hcount. f_equal.
    destruct (redis_fault env (length (trace w)) DEL) as [e |] eqn:Hfault.
    + exfalso. revert Hok.
      unfold deleteSession, client_del, redis_call, try_catch, bind, emit, logger, throw.
      cbn. rewrite Hfault. cbn. discriminate.
    + destruct (deleteSession_run env sid w Hfault) as (w' & E & Hredis & Hnow & _).
      rewrite E in Hok |- *. cbn in Hok |- *. injection Hok as <-.
      unfold liveSessions. rewrite Hredis, Hnow, map_filter_delete, map_size_delete,
        filter_lookup_live.
      destruct (live w (getSessionKey sid)) as [e |].
      * rewrite bool_decide_true by eauto. reflexivity.
      * rewrite bool_decide_false by (intros [? ?]; discriminate). reflexivity.
Qed.

Lemma session_count_tracks_witness :
  let c := liveSessions s1_world in
  fst (getSessionCount stub_more s1_world) = Ok c /\
  (fst (addMessageToSession (stub_env []) (lit "s2") hello s1_world) = Ok tt ->
   fst (getSessionCount stub_more
          (snd (addMessageToSession (stub_env []) (lit "s2") hello s1_world)))
   = Ok (match live s1_world (getSessionKey (lit "s2")) with
         | Some _ => c | None => S c end)) /\
  (forall deleted, fst (deleteSession (stub_env []) (lit "s2") s1_world) = Ok deleted ->
   fst (getSessionCount stub_more (snd (deleteSession (stub_env []) (lit "s2") s1_world)))
   = Ok (if deleted then pred c else c)).
Proof.
  apply (session_count_tracks (stub_env []) stub_more (lit "s2") hello s1_world).
  - exact s1_world_wf.
  - intros n. reflexivity.
Defined.

(** One live session, then two after a message for another one. *)
Example session_count_after_new_session :
  fst (getSessionCount stub_more s1_world) = Ok 1%nat /\
  fst (getSessionCount stub_more
         (snd (addMessageToSession (stub_env []) (lit "s2") hello s1_world))) = Ok 2%nat.
Proof. split; vm_compute; reflexivity. Qed.

(** X16. The statistics route always answers 200 and never reaches the
    error handler. The vector store's part is the count and status it
    reports, with 0 for a missing or zero count and "unknown" for a missing
    or empty status, or 0 and "error" when the store fails; the sessions'
    part is the number of live sessions, or 0 when listing the keys fails.
    A failure of one collaborator leaves the other's part as it is, and
    neither store is changed. *)
Theorem stats_route_answers nodeEnv more w :
  exists stats w',
    route nodeEnv (getStats more) w = (inl (200, stats), w') /\
    (vectorDbCount stats, vectorDbStatus stats)
    = match qdrant_getCollection_reply more (length (trace w)) with
      | Ok info =>
          (match points_count info with Some n => n | None => 0 end,
           match info_status info with
           | Some (c :: s) => c :: s
           | _ => lit "unknown"
           end)
      | Err _ => (0, lit "error")
      end /\
    activeSessions stats
    = match redis_keys_fault more (length (trace w)) with
      | None => Z.of_nat (liveSessions w)
      | Some _ => 0
      end /\
    redis w' = redis w /\ collection w' = collection w.
Proof.
  unfold route, getStats, respond, getSystemStats, getCollectionInfo, client_getCollection,
    try_catch, logger, ret, bind.
  destruct (qdrant_getCollection_reply more (length (trace w))) as [info | e]; cbv beta iota.
  - destruct (getSessionCount_run more w) as (w' & E & Hr & Hc & _).
    rewrite E. cbv beta iota. eexists _, _. split; [reflexivity |]. cbn.
    split_and!; [| | exact Hr | exact Hc].
    + f_equal.
      * unfold orNumber. destruct (points_count info) as [n |]; [| reflexivity].
        destruct (Z.eqb_spec n 0); congruence.
      * unfold orString. destruct (info_status info) as [[| c s] |]; reflexivity.
    + destruct (redis_keys_fault more (length (trace w))); reflexivity.
  - destruct (getSessionCount_run more
                (add_log {| level := LogError;
                            text := lit "Failed to get collection info from Qdrant:";
                            attached := Some e |} w))
      as (w' & E & Hr & Hc & _).
    rewrite E. cbv beta iota. eexists _, _. split; [reflexivity |]. cbn.
    split_and!; [reflexivity | | exact Hr | exact Hc].
    destruct (redis_keys_fault more (length (trace w))); reflexivity.
Qed.

(** ** Summaries and keywords *)

Lemma splitAt_nonempty sep cur s : splitAt sep cur s <> [].
Proof.
  revert cur. induction s as [| c s IH]; intros cur; cbn; [discriminate |].
  destruct (c =? sep)%N; [discriminate | apply IH].
Qed.

Lemma join_more sep p rest :
  rest <> [] -> join sep (p :: rest) = p ++ sep ++ join sep rest.
Proof. destruct rest; [done | reflexivity]. Qed.

(** The pieces of [split], joined by the separator, are the string. *)
Lemma splitAt_join sep cur s : join [sep] (splitAt sep cur s) = reverse cur ++ s.
Proof.
  revert cur. induction s as [| c s IH]; intros cur; cbn [splitAt].
  - cbn. rewrite app_nil_r. reflexivity.
  - destruct (N.eqb_spec c sep) as [-> | Hne].
    + rewrite join_more by apply splitAt_nonempty. rewrite IH. reflexivity.
    + rewrite IH, reverse_cons, <- app_assoc. reflexivity.
Qed.

(** No piece holds the separator. *)
Lemma splitAt_pieces sep cur s :
  sep ∉ cur -> Forall (fun piece => sep ∉ piece) (splitAt sep cur s).
Proof.
  revert cur. induction s as [| c s IH]; intros cur Hcur; cbn [splitAt].
  - constructor; [| constructor]. rewrite elem_of_reverse. exact Hcur.
  - destruct (N.eqb_spec c sep) as [-> | Hne].
    + constructor; [rewrite elem_of_reverse; exact Hcur |].
      apply IH. apply not_elem_of_nil.
    + apply IH. intros [-> | H]%elem_of_cons; [done | exact (Hcur H)].
Qed.

Lemma trim_elem c s : c ∈ trim s -> c ∈ s.
Proof.
  intros H. destruct (trim_margins s) as (p & q & Hs & _). rewrite Hs.
  apply elem_of_app. right. apply elem_of_app. left. exact H.
Qed.

Lemma filter_nonempty_Forall (P : jsstring -> Prop) pieces :
  Forall P pieces ->
  Forall (fun k => k <> [] /\ P k)
    (List.filter (fun keyword => (0 <? length keyword)%nat) pieces).
Proof.
  induction 1 as [| k pieces Hk _ IH]; cbn; [constructor |].
  destruct k as [| c k]; cbn; [exact IH |]. constructor; [done | exact IH].
Qed.

(** X17. [extractKeywords] never rejects. It asks the generation provider
    once, with a prompt that holds the text. From a reply it returns the
    first ten non-empty trimmed pieces of the reply between its commas: at
    most ten keywords, none empty, none with white space at either end,
    none with a comma. When the provider fails it returns no keyword. *)
Theorem extractKeywords_keywords env text w :
  exists keywords w' prompt,
    extractKeywords env text w = (Ok keywords, w') /\
    trace w' = trace w ++ [GeminiGenerate prompt] /\
    (exists head tail, prompt = head ++ text ++ tail) /\
    (length keywords <= 10)%nat /\
    Forall (fun k => k <> [] /\ trim k = k /\ 44%N ∉ k) keywords /\
    match gemini_reply env (length (trace w)) prompt with
    | Ok reply =>
        exists pieces,
          join (lit ",") pieces = reply /\
          Forall (fun piece => 44%N ∉ piece) pieces /\
          keywords
          = take 10 (List.filter (fun k => (0 <? length k)%nat) (trim <$> pieces))
    | Err _ => keywords = []
    end.
Proof.
  unfold extractKeywords, model_generateContent, try_catch, emit, logger, ret, throw, bind.
  cbv beta iota zeta.
  match goal with
  | |- context [gemini_reply env (length (trace w)) ?p] => set (prompt := p)
  end.
  assert (Hprompt : exists head tail, prompt = head ++ text ++ tail).
  { subst prompt. eexists _, _. reflexivity. }
  clearbody prompt.
  destruct (gemini_reply env (length (trace w)) prompt) as [reply | e] eqn:Hreply;
    cbv beta iota.
  - eexists _, _, prompt. split; [reflexivity |]. cbn [trace add_log add_event].
    rewrite Hreply.
    split_and!; [reflexivity | exact Hprompt | | |].
    + rewrite slice_0, length_take. apply Nat.le_min_l.
    + rewrite slice_0. apply Forall_take.
      eapply Forall_impl.
      * apply (filter_nonempty_Forall (fun k => trim k = k /\ 44%N ∉ k)).
        apply Forall_fmap. eapply Forall_impl; [apply (splitAt_pieces 44 [] reply) |].
        -- apply not_elem_of_nil.
        -- intros piece Hpiece. cbn. split; [apply trim_idem |].
           intros H. apply Hpiece, trim_elem, H.
      * cbn. intros k (H1 & H2 & H3). done.
    + exists (split 44 reply). split_and!.
      * change (lit ",") with [44%N]. apply (splitAt_join 44 [] reply).
      * apply splitAt_pieces, not_elem_of_nil.
      * rewrite slice_0. reflexivity.
  - eexists _, _, prompt. split; [reflexivity |]. cbn [trace add_log add_event].
    rewrite Hreply.
    split_and!; [reflexivity | exact Hprompt | apply Nat.le_0_l | constructor | reflexivity].
Qed.

(** Blank pieces are dropped and the pieces trimmed. *)
Example extractKeywords_example :
  fst (extractKeywords (stub_env (lit " ai , , news,")) (lit "text") empty_world)
  = Ok [lit "ai"; lit "news"].
Proof. vm_compute. reflexivity. Qed.

(** X18. [generateSummary] asks the generation provider once, with a
    prompt that holds the text and the wanted length, and returns the reply
    trimmed; a blank reply is not refused: the summary is then empty. When
    the provider fails, the rejection is always the external-service error
    "Gemini API: Failed to generate summary" with status 502, and the
    provider's error is not attached to it. *)
Theorem generateSummary_outcome env text maxLength w :
  exists prompt w',
    snd (generateSummary env text maxLength w) = w' /\
    trace w' = trace w ++ [GeminiGenerate prompt] /\
    (exists head middle tail,
       prompt = head ++ showNat maxLength ++ middle ++ text ++ tail) /\
    fst (generateSummary env text maxLength w)
    = match gemini_reply env (length (trace w)) prompt with
      | Ok reply => Ok (trim reply)
      | Err _ =>
          Err (AppError ExternalServiceError
                 (lit "Gemini API: Failed to generate summary") 502
                 (lit "EXTERNAL_SERVICE_ERROR") NoDetails)
      end /\
    (forall reply, gemini_reply env (length (trace w)) prompt = Ok reply ->
       blank reply -> fst (generateSummary env text maxLength w) = Ok []).
Proof.
  unfold generateSummary, model_generateContent, try_catch, emit, logger, ret, throw, bind.
  cbv beta iota zeta.
  match goal with
  | |- context [gemini_reply env (length (trace w)) ?p] => set (prompt := p)
  end.
  assert (Hprompt : exists head middle tail,
             prompt = head ++ showNat maxLength ++ middle ++ text ++ tail).
  { subst prompt. eexists _, _, _. reflexivity. }
  clearbody prompt.
  exists prompt.
  destruct (gemini_reply env (length (trace w)) prompt) as [reply | e]; cbv beta iota.
  - eexists. split; [reflexivity |]. cbn [snd fst trace add_log add_event].
    split_and!; [reflexivity | exact Hprompt | reflexivity |].
    intros reply' [= <-] Hblank. f_equal. apply trim_nil. exact Hblank.
  - eexists. split; [reflexivity |]. cbn [snd fst trace add_log add_event].
    split_and!; [reflexivity | exact Hprompt | reflexivity | discriminate].
Qed.

(** ** Chunks of articles *)

Lemma trim_tight s : trim s = s <-> tight s.
Proof.
  unfold tight. split.
  - intros H. split.
    + destruct s as [| c rest]; [done |]. exact (trim_head _ c rest H).
    + destruct (reverse s) as [| c r] eqn:Er; [done |].
      apply (f_equal reverse) in Er. rewrite reverse_involutive, reverse_cons in Er.
      rewrite Er in H. exact (trim_last _ c (reverse r) H).
  - intros [Hhead Hlast]. destruct s as [| c rest]; [reflexivity |].
    unfold trim. rewrite (trimStart_fixed c rest Hhead). unfold trimEnd.
    destruct (reverse (c :: rest)) as [| c' r] eqn:Er.
    + apply (f_equal reverse) in Er. rewrite reverse_involutive in Er. discriminate.
    + rewrite (trimStart_fixed c' r Hlast), <- Er. apply reverse_involutive.
Qed.

Lemma tight_trim s : tight (trim s).
Proof. apply trim_tight, trim_idem. Qed.

Lemma tight_app a b : tight a -> tight b -> tight (a ++ b).
Proof.
  intros [Ha1 Ha2] [Hb1 Hb2]. destruct a as [| c a]; [done |].
  destruct b as [| d b]; [rewrite app_nil_r; done |].
  split; [exact Ha1 |]. rewrite reverse_app.
  destruct (reverse (d :: b)) as [| e r] eqn:Er; [| exact Hb2].
  apply (f_equal reverse) in Er. rewrite reverse_involutive in Er. discriminate.
Qed.

Lemma tight_stop : tight (lit ".").
Proof. split; reflexivity. Qed.

Lemma mint_uuids n w : uuids (mint n w) = (uuids w + n)%nat.
Proof.
  induction n as [| n IH]; [cbn; lia |].
  change (uuids (mint (S n) w)) with (S (uuids (mint n w))). rewrite IH. lia.
Qed.

Lemma mint_add a b w : mint b (mint a w) = mint (a + b) w.
Proof. unfold mint. rewrite Nat.add_comm. symmetry. apply Nat.iter_add. Qed.

Lemma mint_ids env w a b :
  ((fun k => uuidv4_value env (uuids w + k)) <$> seq 0 a)
  ++ ((fun k => uuidv4_value env (uuids (mint a w) + k)) <$> seq 0 b)
  = (fun k => uuidv4_value env (uuids w + k)) <$> seq 0 (a + b).
Proof.
  rewrite seq_app, fmap_app. f_equal. rewrite (Nat.add_comm 0 a).
  rewrite <- (fmap_add_seq a 0 b), <- list_fmap_compose.
  apply list_fmap_ext. intros i k _. cbn. rewrite mint_uuids, Nat.add_assoc. reflexivity.
Qed.

Section Chunks.

Context (env : Env) (article : NewsArticle).

Lemma added_nil w chunks : added env article [] w chunks chunks w.
Proof. exists []. rewrite app_nil_r. split_and!; try done. Qed.

Lemma added_app texts1 texts2 w chunks chunks1 w1 chunks2 w2 :
  added env article texts1 w chunks chunks1 w1 ->
  added env article texts2 w1 chunks1 chunks2 w2 ->
  added env article (texts1 ++ texts2) w chunks chunks2 w2.
Proof.
  intros (new1 & -> & -> & <- & Hm1 & Hid1) (new2 & -> & -> & <- & Hm2 & Hid2).
  exists (new1 ++ new2). rewrite length_app. split_and!.
  - symmetry. apply app_assoc.
  - apply mint_add.
  - apply fmap_app.
  - apply Forall_app. done.
  - rewrite fmap_app, Hid1, Hid2. apply mint_ids.
Qed.

Lemma pushChunk_added content chunks w :
  exists chunks' w',
    pushChunk env article content chunks w = (Ok chunks', w') /\
    added env article [content] w chunks chunks' w'.
Proof.
  unfold pushChunk, bind, uuidv4, ret. eexists _, _. split; [reflexivity |].
  eexists [_]. split_and!; [reflexivity | reflexivity | reflexivity | |].
  - constructor; [done | constructor].
  - cbn. rewrite Nat.add_0_r. reflexivity.
Qed.

Lemma packSentences_added sentences :
  Forall (fun s => trim s <> []) sentences ->
  forall currentChunk chunks w,
    tight currentChunk ->
    exists current' packed chunks' w',
      packSentences env article sentences currentChunk chunks w
      = (Ok (current', chunks'), w') /\
      added env article packed w chunks chunks' w' /\
      tight current' /\
      Forall (fun text => text <> [] /\ tight text) packed /\
      concat packed ++ current'
      = currentChunk ++ concat ((fun s => trim s ++ lit ".") <$> sentences).
Proof.
  induction 1 as [| sentence rest Hs _ IH]; intros currentChunk chunks w Htight.
  - exists currentChunk, [], chunks, w. cbn. rewrite app_nil_r.
    split_and!; [reflexivity | apply added_nil | exact Htight | constructor | reflexivity].
  - assert (Hnext : tight (trim sentence ++ lit ".")).
    { apply tight_app; [apply tight_trim | apply tight_stop]. }
    cbn [packSentences].
    destruct (800 <? length currentChunk + length sentence)%nat.
    + rewrite (proj2 (trim_tight currentChunk) Htight).
      destruct currentChunk as [| c cur].
      * unfold bind at 1, ret at 1.
        destruct (IH (trim sentence ++ lit ".") chunks w Hnext)
          as (current' & packed & chunks' & w' & E & Hadd & Ht & Hp & Hcat).
        exists current', packed, chunks', w'. split_and!; try done.
      * destruct (pushChunk_added (c :: cur) chunks w) as (chunks1 & w1 & E1 & Hadd1).
        unfold bind at 1. rewrite E1.
        destruct (IH (trim sentence ++ lit ".") chunks1 w1 Hnext)
          as (current' & packed & chunks' & w' & E & Hadd & Ht & Hp & Hcat).
        exists current', ((c :: cur) :: packed), chunks', w'. split_and!.
        -- exact E.
        -- exact (added_app [c :: cur] packed _ _ _ _ _ _ Hadd1 Hadd).
        -- exact Ht.
        -- constructor; [done | exact Hp].
        -- cbn [concat fmap list_fmap]. rewrite <- !app_assoc. f_equal.
           rewrite Hcat. rewrite <- !app_assoc. reflexivity.
    + destruct (IH (currentChunk ++ trim sentence ++ lit ".") chunks w)
        as (current' & packed & chunks' & w' & E & Hadd & Ht & Hp & Hcat).
      { apply tight_app; [exact Htight | exact Hnext]. }
      exists current', packed, chunks', w'. split_and!; try done.
      rewrite Hcat. cbn [concat fmap list_fmap]. rewrite <- !app_assoc. reflexivity.
Qed.

Lemma sentencesOf_trimmed content : Forall (fun s => trim s <> []) (sentencesOf content).
Proof.
  unfold sentencesOf. induction (splitMarks false [] content) as [| s pieces IH]; cbn.
  - constructor.
  - destruct (trim s) as [| c t] eqn:Es; cbn; [exact IH |].
    constructor; [rewrite Es; done | exact IH].
Qed.

Lemma convertArticle_added chunks w :
  exists texts chunks' w',
    convertArticle env article chunks w = (Ok chunks', w') /\
    added env article texts w chunks chunks' w' /\
    chunkTexts article texts.
Proof.
  unfold convertArticle, chunkTexts.
  destruct (pushChunk_added (titleText article) chunks w) as (chunks1 & w1 & E1 & Hadd1).
  fold (titleText article). unfold bind at 1. rewrite E1.
  destruct (article_content article) as [content |].
  2: { unfold bind, ret. eexists [_], _, _. split; [reflexivity |].
       split; [exact Hadd1 |]. exists []. done. }
  destruct (100 <? length content)%nat eqn:H100.
  2: { assert (H1000 : (1000 <? length content)%nat = false).
       { apply Nat.ltb_ge. apply Nat.ltb_ge in H100. lia. }
       rewrite H1000. unfold bind, ret. eexists [_], _, _. split; [reflexivity |].
       split; [exact Hadd1 |]. exists []. done. }
  destruct (pushChunk_added content chunks1 w1) as (chunks2 & w2 & E2 & Hadd2).
  unfold bind at 1. rewrite E2.
  pose proof (added_app _ _ _ _ _ _ _ _ Hadd1 Hadd2) as Hadd12. cbn [app] in Hadd12.
  destruct (1000 <? length content)%nat.
  2: { unfold ret. eexists _, _, _. split; [reflexivity |].
       split; [exact Hadd12 |]. exists [content]. done. }
  fold (sentencesOf content).
  destruct (packSentences_added (sentencesOf content) (sentencesOf_trimmed content)
              [] chunks2 w2) as (current & packed & chunks3 & w3 & E3 & Hadd3 & Ht & Hp & Hcat);
    [split; exact I |].
  unfold bind. rewrite E3. cbn [fst snd].
  rewrite (proj2 (trim_tight current) Ht).
  pose proof (added_app _ _ _ _ _ _ _ _ Hadd12 Hadd3) as Hadd123. cbn [app] in Hadd123.
  destruct current as [| c cur].
  - unfold ret. eexists _, _, _. split; [reflexivity |]. split; [exact Hadd123 |].
    eexists. split; [reflexivity |]. exists packed. split_and!; [reflexivity | | exact Hp].
    rewrite app_nil_r in Hcat. exact Hcat.
  - destruct (pushChunk_added (c :: cur) chunks3 w3) as (chunks4 & w4 & E4 & Hadd4).
    rewrite E4. eexists _, _, _. split; [reflexivity |].
    split; [exact (added_app _ _ _ _ _ _ _ _ Hadd123 Hadd4) |].
    eexists. split; [reflexivity |]. exists (packed ++ [c :: cur]).
    split_and!; [reflexivity | |].
    + rewrite concat_app. cbn [concat]. rewrite app_nil_r. exact Hcat.
    + apply Forall_app. split; [exact Hp |]. constructor; [done | constructor].
Qed.

End Chunks.

(** The chunks of each article of a list, group by group. *)
Lemma convertArticles_groups env articles :
  forall chunks w,
    exists groups w',
      convertArticles env articles chunks w = (Ok (chunks ++ concat groups), w') /\
      w' = mint (length (concat groups)) w /\
      Forall2 (fun article group =>
                 chunkTexts article (chunk_content <$> group) /\
                 Forall (fun c => metadata c = articleMetadata article /\ score c = None)
                   group)
        articles groups /\
      chunk_id <$> concat groups
      = (fun k => uuidv4_value env (uuids w + k)) <$> seq 0 (length (concat groups)).
Proof.
  induction articles as [| article rest IH]; intros chunks w.
  - exists [], w. cbn. rewrite app_nil_r. split_and!; try done.
  - cbn [convertArticles].
    destruct (convertArticle_added env article chunks w)
      as (texts & chunks1 & w1 & E1 & (new & -> & -> & <- & Hm & Hid) & Htexts).
    unfold bind. rewrite E1.
    destruct (IH (chunks ++ new) (mint (length new) w)) as (groups & w' & E & -> & Hg & Hids).
    exists (new :: groups), (mint (length (concat groups)) (mint (length new) w)).
    cbn [concat]. rewrite length_app. split_and!.
    + rewrite E, <- app_assoc. reflexivity.
    + apply mint_add.
    + constructor; [done | exact Hg].
    + rewrite fmap_app, Hid, Hids. apply mint_ids.
Qed.

(** X19. [convertToDocumentChunks] never rejects and touches neither store
    nor clock. Its result is, article after article, the chunks of each
    article: first the title and description, then the whole content when
    it is longer than 100 code units, then, for a content longer than 1000,
    packed chunks, none empty and none with white space at either end, that
    put end to end are the non-blank sentences of the content, each trimmed
    and closed by a full stop. Every chunk carries the metadata of its
    article and no score, and the ids of the chunks are the identifiers
    drawn one after the other; so every article gives at least one chunk. *)
Theorem convertToDocumentChunks_chunks env articles w :
  exists groups w',
    convertToDocumentChunks env articles w = (Ok (concat groups), w') /\
    Forall2 (fun article group =>
               chunkTexts article (chunk_content <$> group) /\
               Forall (fun c => metadata c = articleMetadata article /\ score c = None) group)
      articles groups /\
    chunk_id <$> concat groups
    = (fun k => uuidv4_value env (uuids w + k)) <$> seq 0 (length (concat groups)) /\
    (length articles <= length (concat groups))%nat /\
    uuids w' = (uuids w + length (concat groups))%nat /\
    redis w' = redis w /\ collection w' = collection w /\ now w' = now w /\
    trace w' = trace w.
Proof.
  destruct (convertArticles_groups env articles [] w) as (groups & w' & E & -> & Hg & Hids).
  unfold convertToDocumentChunks, bind, logger, ret. rewrite E. cbn [app].
  eexists groups, _. split; [reflexivity |].
  assert (Hsame : forall n, redis (mint n w) = redis w /\ collection (mint n w) = collection w
                            /\ now (mint n w) = now w /\ trace (mint n w) = trace w).
  { unfold mint. induction n as [| n IH]; [done |]. exact IH. }
  destruct (Hsame (length (concat groups))) as (Hr & Hc & Hn & Ht).
  split_and!; [exact Hg | exact Hids | | apply mint_uuids | exact Hr | exact Hc | exact Hn
               | exact Ht].
  clear -Hg. induction Hg as [| article group articles groups [(rest & Htexts & _) _] _ IH].
  - done.
  - cbn [concat length]. rewrite length_app.
    apply (f_equal length) in Htexts. rewrite length_fmap in Htexts. cbn in Htexts. lia.
Qed.

(** A long article: the title chunk, the whole content, and two packed
    chunks of thirty-nine and twenty-one sentences. *)
Example convertToDocumentChunks_long :
  exists chunks,
    fst (convertToDocumentChunks (stub_env []) [long_article] empty_world) = Ok chunks /\
    (fun chunk => length (chunk_content chunk)) <$> chunks = [4; 1380; 780; 420]%nat.
Proof. eexists. split; vm_compute; reflexivity. Qed.

(** With both collaborators down the statistics are still served. *)
Example stats_when_down :
  fst (route (lit "production") (getStats stub_more_down) s1_world)
  = inl (200, {| vectorDbCount := 0; vectorDbStatus := lit "error"; activeSessions := 0 |}).
Proof. vm_compute. reflexivity. Qed.
